(** * application.py: a reliable file transport protocol over UDP

    Shallow embedding of [src/application.py] (packet codec, the sender
    of [sendFile], the receiver of [receiveFile]) and the properties of
    the specification checked against it.

    Conventions of the embedding:
    - a Python [int] is a [Z]; a [bytes] object is a [list byte];
    - a Python exception is a value of [exn]; a function that can raise
      returns a [result];
    - [struct.pack]/[struct.unpack] use the native byte order of the
      platform, which the source does not fix: every definition takes
      the [byteorder] as a parameter;
    - [datetime.now()] reads a wall clock the program does not control:
      the clock is an oracle [nat -> Z] indexed by the number of reads
      made so far;
    - [print] appends a structured event to a log (the formatting of
      the console text is not modelled). *)

From Stdlib Require Import ZArith Strings.Byte List Lia Bool.
From stdpp Require Import base option list gmap sorting.
Import ListNotations.

Local Open Scope Z_scope.

(** ** Global variables of the module *)

Definition HEADER_SIZE : Z := 6.
Definition FLAGS_SYN : Z := 1.
Definition FLAGS_ACK : Z := 2.
Definition FLAGS_FIN : Z := 4.
Definition DATA_SIZE : Z := 994.
Definition MAX_PACKET_SIZE : Z := 1000.

(** ** Exceptions and results *)

(** The exceptions the modelled code can raise: [struct.error] (from
    [struct.pack] and [struct.unpack]), [ValueError] (raised by
    [parseSynPacket]) and [OSError] (a seek to a negative offset). *)
Inductive exn : Type :=
| StructError
| ValueError
| OSError.

Inductive result (A : Type) : Type :=
| Ok (a : A)
| Raise (e : exn).
Arguments Ok {A} a.
Arguments Raise {A} e.

Definition rbind {A B : Type} (r : result A) (k : A -> result B) : result B :=
  match r with
  | Ok a => k a
  | Raise e => Raise e
  end.

Notation "'let*' x ':=' r 'in' k" := (rbind r (fun x => k))
  (at level 10, x name, r at level 100, k at level 200).

(** Python truthiness of an integer, as in [if flags & FLAGS_ACK:]. *)
Definition truthy (z : Z) : bool := negb (z =? 0).

(** ** The [struct] module *)

Inductive byteorder : Type := LittleEndian | BigEndian.

Definition bytes : Type := list byte.

Definition byte_of_Z (z : Z) : byte :=
  match Byte.of_N (Z.to_N (z mod 256)) with
  | Some b => b
  | None => x00
  end.

Definition Z_of_byte (b : byte) : Z := Z.of_N (Byte.to_N b).

(** The [n] low base-256 digits of [v], least significant first. *)
Fixpoint le_digits (n : nat) (v : Z) : bytes :=
  match n with
  | O => []
  | S k => byte_of_Z v :: le_digits k (v / 256)
  end.

Fixpoint le_value (bs : bytes) : Z :=
  match bs with
  | [] => 0
  | b :: r => Z_of_byte b + 256 * le_value r
  end.

Definition in_order (bo : byteorder) (bs : bytes) : bytes :=
  match bo with
  | LittleEndian => bs
  | BigEndian => rev bs
  end.

(** [struct.pack] of one unsigned field of [n] bytes: [struct.error]
    when the value is outside [0, 256^n). *)
Definition pack_uint (bo : byteorder) (n : nat) (v : Z) : result bytes :=
  if (0 <=? v) && (v <? 256 ^ Z.of_nat n)
  then Ok (in_order bo (le_digits n v))
  else Raise StructError.

(** [struct.pack("HHH", a, b, c)]: three unsigned shorts, no padding. *)
Definition pack_HHH (bo : byteorder) (a b c : Z) : result bytes :=
  let* x := pack_uint bo 2 a in
  let* y := pack_uint bo 2 b in
  let* z := pack_uint bo 2 c in
  Ok (x ++ y ++ z).

(** [struct.pack("I", v)]: one unsigned int of four bytes. *)
Definition pack_I (bo : byteorder) (v : Z) : result bytes := pack_uint bo 4 v.

(** [struct.unpack("HHH", buf)]: [struct.error] unless the buffer has
    exactly six bytes. *)
Definition unpack_HHH (bo : byteorder) (buf : bytes) : result (Z * Z * Z) :=
  match buf with
  | [a0; a1; b0; b1; c0; c1] =>
      Ok (le_value (in_order bo [a0; a1]),
          le_value (in_order bo [b0; b1]),
          le_value (in_order bo [c0; c1]))
  | _ => Raise StructError
  end.

(** [struct.unpack("I", buf)]: [struct.error] unless the buffer has
    exactly four bytes. *)
Definition unpack_I (bo : byteorder) (buf : bytes) : result Z :=
  match buf with
  | [a; b; c; d] => Ok (le_value (in_order bo [a; b; c; d]))
  | _ => Raise StructError
  end.

(** Python slices [b[:n]] and [b[n:]] for a non-negative constant [n]. *)
Definition slice_to (n : Z) (b : bytes) : bytes := take (Z.to_nat n) b.
Definition slice_from (n : Z) (b : bytes) : bytes := drop (Z.to_nat n) b.

(** ** Packet codec *)

Section Codec.
Variable native : byteorder.

(** [header = struct.pack(HEADER_FORMAT, seq_num, ack_num, flags)];
    [return header + data]. *)
Definition createPacket (seq_num ack_num flags : Z) (data : bytes) : result bytes :=
  let* header := pack_HHH native seq_num ack_num flags in
  Ok (header ++ data).

Definition parsePacket (packet : bytes) : result (Z * Z * Z * bytes) :=
  let header := slice_to HEADER_SIZE packet in
  let data := slice_from HEADER_SIZE packet in
  let* hdr := unpack_HHH native header in
  let '(seq_num, ack_num, flags) := hdr in
  Ok (seq_num, ack_num, flags, data).

Definition createSynPacket (seq_num ack_num flags file_size : Z) : result bytes :=
  let* header := pack_HHH native seq_num ack_num flags in
  let* file_size_data := pack_I native file_size in
  Ok (header ++ file_size_data).

(** The header is unpacked before the length of the file-size field
    is tested, so a buffer shorter than the header raises
    [struct.error] and never reaches the [ValueError]. *)
Definition parseSynPacket (packet : bytes) : result (Z * Z * Z * Z) :=
  let header := slice_to HEADER_SIZE packet in
  let file_size_data := slice_to 4 (slice_from HEADER_SIZE packet) in
  let* hdr := unpack_HHH native header in
  let '(seq_num, ack_num, flags) := hdr in
  if (Z.of_nat (length file_size_data) <? 4)
  then Raise ValueError
  else
    let* file_size := unpack_I native file_size_data in
    Ok (seq_num, ack_num, flags, file_size).
End Codec.

(** ** The source file being sent *)

(** An open binary file: its content and the read position.  The
    content does not change while the transfer runs. *)
Record file : Type := mkFile {
  f_content : bytes;
  f_pos : Z
}.

(** [open(filename, "rb")]. *)
Definition open_rb (content : bytes) : file :=
  {| f_content := content; f_pos := 0 |}.

(** [file.seek(offset)]: a negative offset raises [OSError]. *)
Definition file_seek (offset : Z) (f : file) : result file :=
  if offset <? 0 then Raise OSError
  else Ok {| f_content := f_content f; f_pos := offset |}.

(** [file.read(n)]: at most [n] bytes from the read position, which
    advances by the number of bytes read; empty at end of file. *)
Definition file_read (n : Z) (f : file) : bytes * file :=
  let data := take (Z.to_nat n) (drop (Z.to_nat (f_pos f)) (f_content f)) in
  (data, {| f_content := f_content f; f_pos := f_pos f + Z.of_nat (length data) |}).

(** Python's [if not data:] on a [bytes] object. *)
Definition is_empty (b : bytes) : bool :=
  match b with
  | [] => true
  | _ :: _ => false
  end.

(** ** Sockets *)

(** A UDP socket as far as the program configures it: the timeout of
    its blocking calls, in milliseconds.  [None] is the blocking mode a
    new socket is created in: a receive call then waits until a
    datagram arrives, however long that takes. *)
Record socket : Type := mkSocket {
  so_timeout : option Z;
  so_bound : bool
}.

(** [socket.socket(socket.AF_INET, socket.SOCK_DGRAM)]. *)
Definition socket_new : socket := {| so_timeout := None; so_bound := false |}.

(** [sock.settimeout(seconds)], the argument given in milliseconds. *)
Definition settimeout (ms : Z) (s : socket) : socket :=
  {| so_timeout := Some ms; so_bound := so_bound s |}.

(** [sock.bind((ip, port))]. *)
Definition bind (s : socket) : socket :=
  {| so_timeout := so_timeout s; so_bound := true |}.

(** What one call of [sock.recvfrom(MAX_PACKET_SIZE)] can produce. *)
Inductive recv_event : Type :=
| Datagram (response : bytes)
| Timeout
| ConnectionReset
| SocketError.

(** [socket.timeout] is raised only by a socket that has a timeout; a
    datagram is returned cut to the buffer size. *)
Definition can_occur (s : socket) (ev : recv_event) : Prop :=
  match ev with
  | Datagram response => Z.of_nat (length response) <= MAX_PACKET_SIZE
  | Timeout => exists ms, so_timeout s = Some ms
  | ConnectionReset | SocketError => True
  end.

(** The socket of [sendFile] (lines 229-232) and the socket of
    [receiveFile] (lines 412-415), as the two functions set them up. *)
Definition sendFile_socket : socket := settimeout 500 socket_new.
Definition receiveFile_socket : socket := bind socket_new.

(** ** Console output *)

Inductive log_event : Type :=
| LogSynSent
| LogSynAckReceived
| LogResendSyn
| LogConnectionFailed
| LogSocketErrorOccurred
| LogPacketSent (time seq : Z) (window : list Z)
| LogRetransmit (time seq : Z)
| LogAckReceived (time ack : Z)
| LogRTO (time : Z)
| LogDataFinished
| LogSynReceived
| LogSynAckSent
| LogPacketReceived (time seq : Z)
| LogSendingAck (time seq : Z)
| LogOutOfOrder (time seq : Z)
| LogFinReceived
| LogFinAckSent.

(** How a loop body ends: with the next iteration ([Next]), by leaving
    the loop ([Done]), or by an exception no handler of the loop
    catches ([Crash]), which ends the whole function. *)
Inductive flow (S : Type) : Type :=
| Next (s : S)
| Done (s : S)
| Crash (e : exn) (s : S).
Arguments Next {S} s.
Arguments Done {S} s.
Arguments Crash {S} e s.

Definition flow_state {S : Type} (o : flow S) : S :=
  match o with
  | Next s | Done s | Crash _ s => s
  end.

(** ** Sender: the data-transfer loop of [sendFile] *)

(** The variables of the data-transfer phase (lines 279-282), the open
    file, the datagrams handed to [sock.sendto], the console output and
    the number of clock reads made.  [s_window] is the one list object
    that [sendFile] and [sendPacket] share. *)
Record sender : Type := mkSender {
  s_seq_num : Z;
  s_window : list Z;
  s_unack_packets : gmap Z Z;
  s_retransmit : bool;
  s_file : file;
  s_sent : list bytes;
  s_log : list log_event;
  s_clock : nat
}.

Definition with_seq_num (n : Z) (st : sender) : sender :=
  mkSender n (s_window st) (s_unack_packets st) (s_retransmit st)
           (s_file st) (s_sent st) (s_log st) (s_clock st).
Definition with_window (w : list Z) (st : sender) : sender :=
  mkSender (s_seq_num st) w (s_unack_packets st) (s_retransmit st)
           (s_file st) (s_sent st) (s_log st) (s_clock st).
Definition with_unack_packets (u : gmap Z Z) (st : sender) : sender :=
  mkSender (s_seq_num st) (s_window st) u (s_retransmit st)
           (s_file st) (s_sent st) (s_log st) (s_clock st).
Definition with_retransmit (r : bool) (st : sender) : sender :=
  mkSender (s_seq_num st) (s_window st) (s_unack_packets st) r
           (s_file st) (s_sent st) (s_log st) (s_clock st).
Definition with_file (f : file) (st : sender) : sender :=
  mkSender (s_seq_num st) (s_window st) (s_unack_packets st) (s_retransmit st)
           f (s_sent st) (s_log st) (s_clock st).
(** [sock.sendto(packet, server_address)]. *)
Definition sendto (packet : bytes) (st : sender) : sender :=
  mkSender (s_seq_num st) (s_window st) (s_unack_packets st) (s_retransmit st)
           (s_file st) (s_sent st ++ [packet]) (s_log st) (s_clock st).
(** [print(...)]. *)
Definition print (e : log_event) (st : sender) : sender :=
  mkSender (s_seq_num st) (s_window st) (s_unack_packets st) (s_retransmit st)
           (s_file st) (s_sent st) (s_log st ++ [e]) (s_clock st).
Definition tick (st : sender) : sender :=
  mkSender (s_seq_num st) (s_window st) (s_unack_packets st) (s_retransmit st)
           (s_file st) (s_sent st) (s_log st) (S (s_clock st)).

(** The state at line 283, the file just opened. *)
Definition initial_sender (content : bytes) : sender :=
  {| s_seq_num := 1; s_window := []; s_unack_packets := ∅;
     s_retransmit := false; s_file := open_rb content;
     s_sent := []; s_log := []; s_clock := O |}.

(** The ack number of the last ["ACK for packet = ... is received"]
    line printed, that is of the most recent ACK the loop processed. *)
Fixpoint last_ack_from (acc : option Z) (l : list log_event) : option Z :=
  match l with
  | [] => acc
  | LogAckReceived _ a :: r => last_ack_from (Some a) r
  | _ :: r => last_ack_from acc r
  end.
Definition last_ack (st : sender) : option Z := last_ack_from None (s_log st).

(** The bytes of the file that belong to sequence number [seq_num]:
    what [file.read(DATA_SIZE)] returns after
    [file.seek(DATA_SIZE * (seq_num - 1))]. *)
Definition chunk (content : bytes) (seq_num : Z) : bytes :=
  take (Z.to_nat DATA_SIZE) (drop (Z.to_nat (DATA_SIZE * (seq_num - 1))) content).

(** The file after that seek and read. *)
Definition file_after_chunk (content : bytes) (seq_num : Z) : file :=
  {| f_content := content;
     f_pos := DATA_SIZE * (seq_num - 1) + Z.of_nat (length (chunk content seq_num)) |}.

(** The number of data packets a file needs. *)
Definition chunk_count (content : bytes) : Z :=
  (Z.of_nat (length content) + DATA_SIZE - 1) / DATA_SIZE.

Section Sender.
Variable native : byteorder.
(** [datetime.now()]: the value of the [k]-th read of the clock. *)
Variable now : nat -> Z.
Variable window_size : Z.

(** [file.seek(DATA_SIZE * (seq_num - 1))]; [data = file.read(DATA_SIZE)]. *)
Definition seek_read (seq_num : Z) (st : sender) : result bytes * sender :=
  match file_seek (DATA_SIZE * (seq_num - 1)) (s_file st) with
  | Raise e => (Raise e, st)
  | Ok f1 =>
      let '(data, f2) := file_read DATA_SIZE f1 in
      (Ok data, with_file f2 st)
  end.

(** Lines 191-207 of [sendPacket]: read the clock, build the packet,
    send it, print. *)
Definition transmit (seq_num : Z) (retransmit : bool) (data : bytes)
           (st : sender) : result bool * sender :=
  let current_time := now (s_clock st) in
  let st := tick st in
  match createPacket native seq_num 0 0 data with
  | Raise e => (Raise e, st)
  | Ok packet =>
      let st := sendto packet st in
      if retransmit
      then (Ok true, print (LogRetransmit current_time seq_num) st)
      else (Ok true, print (LogPacketSent current_time seq_num (s_window st)) st)
  end.

Definition sendPacket (seq_num : Z) (retransmit : bool) (st : sender)
  : result bool * sender :=
  if negb (bool_decide (seq_num ∈ s_window st)) then
    match seek_read seq_num st with
    | (Raise e, st) => (Raise e, st)
    | (Ok data, st) =>
        if is_empty data then (Ok false, st)
        else
          let st := with_window (s_window st ++ [seq_num]) st in
          transmit seq_num retransmit data st
    end
  else
    match seek_read seq_num st with
    | (Raise e, st) => (Raise e, st)
    | (Ok data, st) => transmit seq_num retransmit data st
    end.

(** Every way [sendPacket] can end. *)
Inductive sendPacket_outcome (seq_num : Z) (retransmit : bool) (st : sender)
  : result bool -> sender -> Prop :=
| sp_seek_error :
    seq_num < 1 ->
    sendPacket_outcome seq_num retransmit st (Raise OSError) st
| sp_end_of_file :
    seq_num ∉ s_window st -> 1 <= seq_num ->
    chunk (f_content (s_file st)) seq_num = [] ->
    sendPacket_outcome seq_num retransmit st (Ok false)
      (with_file (file_after_chunk (f_content (s_file st)) seq_num) st)
| sp_sent_again packet :
    seq_num ∈ s_window st -> 1 <= seq_num -> seq_num < 65536 ->
    createPacket native seq_num 0 0 (chunk (f_content (s_file st)) seq_num)
      = Ok packet ->
    sendPacket_outcome seq_num retransmit st (Ok true)
      (print (if retransmit
              then LogRetransmit (now (s_clock st)) seq_num
              else LogPacketSent (now (s_clock st)) seq_num (s_window st))
         (sendto packet
            (tick (with_file (file_after_chunk (f_content (s_file st)) seq_num) st))))
| sp_sent_new packet :
    seq_num ∉ s_window st -> 1 <= seq_num -> seq_num < 65536 ->
    chunk (f_content (s_file st)) seq_num <> [] ->
    createPacket native seq_num 0 0 (chunk (f_content (s_file st)) seq_num)
      = Ok packet ->
    sendPacket_outcome seq_num retransmit st (Ok true)
      (print (if retransmit
              then LogRetransmit (now (s_clock st)) seq_num
              else LogPacketSent (now (s_clock st)) seq_num
                     (s_window st ++ [seq_num]))
         (sendto packet
            (tick (with_window (s_window st ++ [seq_num])
                     (with_file (file_after_chunk (f_content (s_file st)) seq_num) st)))))
| sp_pack_error_in_window :
    seq_num ∈ s_window st -> 65536 <= seq_num ->
    sendPacket_outcome seq_num retransmit st (Raise StructError)
      (tick (with_file (file_after_chunk (f_content (s_file st)) seq_num) st))
| sp_pack_error_new :
    seq_num ∉ s_window st -> 65536 <= seq_num ->
    chunk (f_content (s_file st)) seq_num <> [] ->
    sendPacket_outcome seq_num retransmit st (Raise StructError)
      (tick (with_window (s_window st ++ [seq_num])
               (with_file (file_after_chunk (f_content (s_file st)) seq_num) st))).

(** [unack_packets[seq] = datetime.now()]. *)
Definition record_send_time (seq : Z) (st : sender) : sender :=
  tick (with_unack_packets (<[seq := now (s_clock st)]> (s_unack_packets st)) st).

(** The loop of lines 288-297, and again of lines 340-349:
    [while len(window) < window_size: ...].  [None] is for a [fuel]
    too small to reach the end of the loop. *)
Fixpoint refill (fuel : nat) (st : sender) : option (result unit * sender) :=
  match fuel with
  | O => None
  | S fuel =>
      if Z.of_nat (length (s_window st)) <? window_size then
        match sendPacket (s_seq_num st) (s_retransmit st) st with
        | (Raise e, st) => Some (Raise e, st)
        | (Ok true, st) =>
            let st := record_send_time (s_seq_num st) st in
            refill fuel (with_seq_num (s_seq_num st + 1) st)
        | (Ok false, st) => Some (Ok tt, st)
        end
      else Some (Ok tt, st)
  end.

(** Fuel that always suffices (see [fill_window_total]). *)
Definition refill_fuel : nat := S (Z.to_nat window_size).

Definition fill_window (st : sender) : option (result unit * sender) :=
  refill refill_fuel st.

(** Lines 288-302: fill the window, leave the loop when it is empty. *)
Definition fill_or_finish (st : sender) : option (flow sender) :=
  match fill_window st with
  | None => None
  | Some (Raise e, st) => Some (Crash e st)
  | Some (Ok _, st) =>
      if bool_decide (s_window st = [])
      then Some (Done (print LogDataFinished st))
      else Some (Next st)
  end.

(** Lines 318-337: keep the window members and the send times of the
    sequence numbers above [ack_num]. *)
Definition ack_filter (ack_num : Z) (st : sender) : sender :=
  let filtered_window := filter (fun seq => ack_num < seq) (s_window st) in
  let filtered_unack_packets :=
    filter (fun kv : Z * Z => ack_num < kv.1) (s_unack_packets st) in
  with_unack_packets filtered_unack_packets (with_window filtered_window st).

(** The state of [on_ack] at line 338, where it starts to fill the
    window again. *)
Definition acked (ack_num : Z) (st : sender) : sender :=
  ack_filter ack_num
    (print (LogAckReceived (now (s_clock st)) ack_num) (tick st)).

(** Lines 310-349. *)
Definition on_ack (ack_num : Z) (st : sender) : option (flow sender) :=
  let current_time := now (s_clock st) in
  let st := print (LogAckReceived current_time ack_num) (tick st) in
  let st := ack_filter ack_num st in
  match fill_window st with
  | None => None
  | Some (Raise e, st) => Some (Crash e st)
  | Some (Ok _, st) => Some (Next st)
  end.

(** The loop of lines 360-365, [for seq in window: ...], over the
    members [ws] the window has when the loop starts.  The loop body
    calls [sendPacket] for members only, which leaves the window as it
    is (see [retransmit_all_window]), so the list the loop iterates
    does not change under it. *)
Fixpoint retransmit_all (ws : list Z) (st : sender) : result unit * sender :=
  match ws with
  | [] => (Ok tt, st)
  | seq :: ws =>
      let st := with_retransmit true st in
      match sendPacket seq (s_retransmit st) st with
      | (Raise e, st) => (Raise e, st)
      | (Ok _, st) => retransmit_all ws (record_send_time seq st)
      end
  end.

(** Lines 352-368. *)
Definition on_timeout (st : sender) : flow sender :=
  let current_time := now (s_clock st) in
  let st := print (LogRTO current_time) (tick st) in
  match retransmit_all (s_window st) st with
  | (Raise e, st) => Crash e st
  | (Ok _, st) => Next (with_retransmit false st)
  end.

(** Lines 305-368: what the loop does with the outcome of
    [sock.recvfrom].  Only [socket.timeout] has a handler. *)
Definition react (ev : recv_event) (st : sender) : option (flow sender) :=
  match ev with
  | Datagram response =>
      match parsePacket native response with
      | Raise e => Some (Crash e st)
      | Ok (_, ack_num, flags, _) =>
          if truthy (Z.land flags FLAGS_ACK)
          then on_ack ack_num st
          else Some (Next st)
      end
  | Timeout => Some (on_timeout st)
  | ConnectionReset | SocketError => Some (Crash OSError st)
  end.

(** One iteration of the loop of line 285 when [sock.recvfrom]
    produces [ev]. *)
Definition established_iter (ev : recv_event) (st : sender) : option (flow sender) :=
  match fill_or_finish st with
  | Some (Next st) => react ev st
  | o => o
  end.

(** The loop of line 285 over the receive outcomes [evs]: the state
    at the top of the loop once they are consumed, or how the loop
    ended before. *)
Fixpoint established_loop (evs : list recv_event) (st : sender) : option (flow sender) :=
  match evs with
  | [] => Some (Next st)
  | ev :: evs =>
      match established_iter ev st with
      | Some (Next st) => established_loop evs st
      | o => o
      end
  end.
End Sender.

(** ** Sender: the predicates of the window properties *)

(** [st'] comes after [st] by sending only: the file content is the
    same, the next sequence number has not decreased, the window has
    grown at its end by sequence numbers from the next one of [st] on,
    the datagrams sent have grown at their end, no ACK was processed,
    the send times of the sequence numbers below the next one of [st]
    are untouched, and the window has at most [window_size] members
    unless it had more before. *)
Definition extends (window_size : Z) (st st' : sender) : Prop :=
  f_content (s_file st') = f_content (s_file st) /\
  s_retransmit st' = s_retransmit st /\
  s_seq_num st <= s_seq_num st' /\
  (s_clock st <= s_clock st')%nat /\
  (exists new,
      s_window st' = s_window st ++ new /\
      Forall (fun m => s_seq_num st <= m <= s_seq_num st') new) /\
  (exists packets, s_sent st' = s_sent st ++ packets) /\
  last_ack st' = last_ack st /\
  (forall k, k < s_seq_num st ->
             s_unack_packets st' !! k = s_unack_packets st !! k) /\
  Z.of_nat (length (s_window st')) <=
    Z.max (Z.of_nat (length (s_window st))) window_size.

(** Every window member is a data sequence number below the next one
    to send (so at least 1), and the packet of its chunk is among the
    datagrams sent. *)
Definition in_flight (native : byteorder) (st : sender) : Prop :=
  1 <= s_seq_num st /\
  Forall (fun m =>
            1 <= m < s_seq_num st /\
            exists packet,
              createPacket native m 0 0 (chunk (f_content (s_file st)) m)
                = Ok packet /\
              packet ∈ s_sent st)
         (s_window st).

(** The window holds at most [window_size] members (none for a
    [window_size] below 1). *)
Definition window_bounded (window_size : Z) (st : sender) : Prop :=
  Z.of_nat (length (s_window st)) <= Z.max 0 window_size.

(** Every window member is above the ack number of the most recent
    ACK processed. *)
Definition above_last_ack (st : sender) : Prop :=
  forall a, last_ack st = Some a -> Forall (fun m => a < m) (s_window st).

(** The end of the file is reached at sequence number [seq_num]. *)
Definition at_end_of_file (st : sender) (seq_num : Z) : Prop :=
  1 <= seq_num /\ chunk (f_content (s_file st)) seq_num = [].

(** The most recent ack number is below the next sequence number to
    send: the ACK was for a packet that had been sent. *)
Definition acked_below (st : sender) : Prop :=
  forall a, last_ack st = Some a -> a < s_seq_num st.

(** An ACK in [ev] acknowledges a sequence number already sent in [st]. *)
Definition ack_in_range (native : byteorder) (ev : recv_event) (st : sender) : Prop :=
  match ev with
  | Datagram response =>
      match parsePacket native response with
      | Ok (_, ack_num, flags, _) =>
          truthy (Z.land flags FLAGS_ACK) = true -> ack_num < s_seq_num st
      | Raise _ => True
      end
  | _ => True
  end.

(** Every ACK the loop receives along [evs] acknowledges a sequence
    number sent before the ACK is received. *)
Fixpoint acks_in_range (native : byteorder) (now : nat -> Z) (window_size : Z)
         (evs : list recv_event) (st : sender) : Prop :=
  match evs with
  | [] => True
  | ev :: evs =>
      match fill_or_finish native now window_size st with
      | Some (Next st1) =>
          ack_in_range native ev st1 /\
          match react native now window_size ev st1 with
          | Some (Next st2) => acks_in_range native now window_size evs st2
          | _ => True
          end
      | _ => True
      end
  end.

(** ** Sender: waiting for the SYN-ACK (lines 242-267) *)

(** The datagrams sent and the lines printed by a handshake loop. *)
Record io : Type := mkIo {
  io_sent : list bytes;
  io_log : list log_event
}.

Definition io_sendto (packet : bytes) (st : io) : io :=
  {| io_sent := io_sent st ++ [packet]; io_log := io_log st |}.
Definition io_print (e : log_event) (st : io) : io :=
  {| io_sent := io_sent st; io_log := io_log st ++ [e] |}.

(** How one iteration of the wait loop ends: the loop goes on waiting,
    the SYN-ACK has arrived ([break], with the sequence number it
    carried), [sendFile] returns after printing the failure, or an
    exception without handler ends [sendFile]. *)
Inductive synsent_flow : Type :=
| KeepWaiting (st : io)
| SynAckArrived (seq_num : Z) (st : io)
| ConnectionFailed (st : io)
| Aborted (e : exn) (st : io).

Section SynSent.
Variable native : byteorder.

(** The body of the loop of line 242.  The variables assigned from
    the parsed datagram are read only after the [break] of the same
    iteration, so no iteration passes them to the next one.  The
    handlers are those for [socket.timeout], [ConnectionResetError]
    and [socket.error]; [struct.error] and [ValueError] are neither. *)
Definition synsent_iter (syn_packet : bytes) (ev : recv_event) (st : io)
  : synsent_flow :=
  match ev with
  | Datagram response =>
      match parseSynPacket native response with
      | Raise e => Aborted e st
      | Ok (seq_num, _, flags, _) =>
          if truthy (Z.land flags FLAGS_SYN) && truthy (Z.land flags FLAGS_ACK)
          then SynAckArrived seq_num (io_print LogSynAckReceived st)
          else KeepWaiting st
      end
  | Timeout => KeepWaiting (io_print LogResendSyn (io_sendto syn_packet st))
  | ConnectionReset => ConnectionFailed (io_print LogConnectionFailed st)
  | SocketError => ConnectionFailed (io_print LogSocketErrorOccurred st)
  end.
End SynSent.

(** ** Receiver: [receiveFile] *)

Section Listening.
Variable native : byteorder.

(** The body of the loop of line 418: the reply to a SYN. *)
Definition listening_iter (ev : recv_event) (st : io) : flow io :=
  match ev with
  | Datagram data =>
      match parseSynPacket native data with
      | Raise e => Crash e st
      | Ok (seq_num, _, flags, file_size) =>
          if truthy (Z.land flags FLAGS_SYN) then
            let st := io_print LogSynReceived st in
            match createSynPacket native (seq_num + 1) 0
                    (Z.lor FLAGS_SYN FLAGS_ACK) file_size with
            | Raise e => Crash e st
            | Ok syn_ack_packet =>
                Done (io_print LogSynAckSent (io_sendto syn_ack_packet st))
            end
          else Next st
      end
  | Timeout | ConnectionReset | SocketError => Crash OSError st
  end.
End Listening.

(** The variables of the receive loop (lines 450-451), the discard
    directive, the variables [seq_num] and [flags] left by the last
    parsed packet (line 495 reads them after the [try] statement, also
    when the [try] ended in the timeout handler), the datagrams sent,
    the console output and the number of clock reads. *)
Record receiver : Type := mkReceiver {
  r_expected_seq_num : Z;
  r_received_data : gmap Z bytes;
  r_discard : option Z;
  r_seq_num : Z;
  r_flags : Z;
  r_sent : list bytes;
  r_log : list log_event;
  r_clock : nat
}.

Definition r_with_parsed (seq_num flags : Z) (st : receiver) : receiver :=
  mkReceiver (r_expected_seq_num st) (r_received_data st) (r_discard st)
             seq_num flags (r_sent st) (r_log st) (r_clock st).
Definition r_with_discard (d : option Z) (st : receiver) : receiver :=
  mkReceiver (r_expected_seq_num st) (r_received_data st) d
             (r_seq_num st) (r_flags st) (r_sent st) (r_log st) (r_clock st).
Definition r_with_expected (n : Z) (st : receiver) : receiver :=
  mkReceiver n (r_received_data st) (r_discard st)
             (r_seq_num st) (r_flags st) (r_sent st) (r_log st) (r_clock st).
Definition r_with_received (m : gmap Z bytes) (st : receiver) : receiver :=
  mkReceiver (r_expected_seq_num st) m (r_discard st)
             (r_seq_num st) (r_flags st) (r_sent st) (r_log st) (r_clock st).
Definition r_sendto (packet : bytes) (st : receiver) : receiver :=
  mkReceiver (r_expected_seq_num st) (r_received_data st) (r_discard st)
             (r_seq_num st) (r_flags st) (r_sent st ++ [packet]) (r_log st) (r_clock st).
Definition r_print (e : log_event) (st : receiver) : receiver :=
  mkReceiver (r_expected_seq_num st) (r_received_data st) (r_discard st)
             (r_seq_num st) (r_flags st) (r_sent st) (r_log st ++ [e]) (r_clock st).
Definition r_tick (st : receiver) : receiver :=
  mkReceiver (r_expected_seq_num st) (r_received_data st) (r_discard st)
             (r_seq_num st) (r_flags st) (r_sent st) (r_log st) (S (r_clock st)).

(** The state at line 453: [seq_num] and [flags] are those of the ACK
    that ended the handshake, [discard] the command-line option. *)
Definition initial_receiver (discard : option Z) (seq_num flags : Z) : receiver :=
  {| r_expected_seq_num := 1; r_received_data := ∅; r_discard := discard;
     r_seq_num := seq_num; r_flags := flags;
     r_sent := []; r_log := []; r_clock := O |}.

(** [seq_num == discard], where [discard] is an integer or [None]. *)
Definition equals_discard (seq_num : Z) (discard : option Z) : bool :=
  match discard with
  | Some d => seq_num =? d
  | None => false
  end.

Section Receiver.
Variable native : byteorder.
Variable now : nat -> Z.

(** Lines 495-502: the FIN test made after the [try] statement. *)
Definition fin_check (st : receiver) : flow receiver :=
  if truthy (Z.land (r_flags st) FLAGS_FIN) then
    let st := r_print LogFinReceived st in
    match createPacket native (r_seq_num st + 1) 0
            (Z.lor FLAGS_ACK FLAGS_FIN) [] with
    | Raise e => Crash e st
    | Ok fin_ack_packet =>
        Done (r_print LogFinAckSent (r_sendto fin_ack_packet st))
    end
  else Next st.

(** Lines 474-488: admission of a parsed packet. *)
Definition accept_packet (format_time seq_num : Z) (data : bytes) (st : receiver)
  : result receiver :=
  if seq_num =? r_expected_seq_num st then
    let st := r_print (LogPacketReceived format_time seq_num) st in
    let* ack_packet := createPacket native 0 seq_num FLAGS_ACK [] in
    let st := r_sendto ack_packet st in
    let st := r_print (LogSendingAck format_time seq_num) st in
    let st := r_with_expected (r_expected_seq_num st + 1) st in
    Ok (r_with_received (<[seq_num := data]> (r_received_data st)) st)
  else
    Ok (r_print (LogOutOfOrder format_time seq_num) st).

(** The body of the loop of line 455 when [sock.recvfrom] produces
    [ev].  Only [socket.timeout] has a handler; the [continue] of
    line 471 skips the FIN test. *)
Definition receive_iter (ev : recv_event) (st : receiver) : flow receiver :=
  let format_time := now (r_clock st) in
  let st := r_tick st in
  match ev with
  | Datagram data =>
      match parsePacket native data with
      | Raise e => Crash e st
      | Ok (seq_num, _, flags, data) =>
          let st := r_with_parsed seq_num flags st in
          if equals_discard seq_num (r_discard st)
          then Next (r_with_discard None st)
          else
            match accept_packet format_time seq_num data st with
            | Raise e => Crash e st
            | Ok st => fin_check st
            end
      end
  | Timeout => fin_check (r_print (LogRTO format_time) st)
  | ConnectionReset | SocketError => Crash OSError st
  end.
End Receiver.

(** ** Concrete inputs used by the examples *)

(** A clock whose [k]-th read returns [k]. *)
Definition counting_clock (k : nat) : Z := Z.of_nat k.

(** A file of [n] bytes. *)
Definition file_of_size (n : Z) : bytes := replicate (Z.to_nat n) x41.

(** An ACK with ack number 4, 5 and 1, in little-endian byte order. *)
Definition ack_4 : bytes := [x00; x00; x04; x00; x02; x00].
Definition ack_5 : bytes := [x00; x00; x05; x00; x02; x00].
Definition ack_1 : bytes := [x00; x00; x01; x00; x02; x00].

(** A sender with the window 3, 4, 5, 6 of an 8-chunk file, about to
    send sequence number 7. *)
Definition sender_3456 : sender :=
  {| s_seq_num := 7; s_window := [3; 4; 5; 6]; s_unack_packets := ∅;
     s_retransmit := false; s_file := open_rb (file_of_size 6959);
     s_sent := []; s_log := []; s_clock := O |}.

(** The state a loop result carries, [st] if there is none. *)
Definition state_or (st : sender) (r : option (flow sender)) : sender :=
  match r with
  | Some o => flow_state o
  | None => st
  end.

(** A SYN with sequence number 0 for a file of 3000 bytes, a FIN with
    sequence number 4, a data packet with sequence number 5 and one
    with sequence number 7, an 8-byte datagram whose header has no
    flag set, in little-endian byte order. *)
Definition syn_0_3000 : bytes :=
  [x00; x00; x00; x00; x01; x00; xb8; x0b; x00; x00].
Definition fin_4 : bytes := [x04; x00; x00; x00; x04; x00].
Definition data_5 : bytes := [x05; x00; x00; x00; x00; x00; x41].
Definition data_7 : bytes := [x07; x00; x00; x00; x00; x00; x41].
Definition short_8 : bytes := [x00; x00; x00; x00; x00; x00; xb8; x0b].

(** A receiver that expects sequence number 5, without and with the
    discard directive for sequence number 5. *)
Definition receiver_at_5 (discard : option Z) : receiver :=
  {| r_expected_seq_num := 5; r_received_data := ∅; r_discard := discard;
     r_seq_num := 4; r_flags := 0;
     r_sent := []; r_log := []; r_clock := O |}.

Definition empty_io : io := {| io_sent := []; io_log := [] |}.

(** The result of [createSynPacket] or [createPacket], empty when the
    call raises. *)
Definition packet_or_empty (r : result bytes) : bytes :=
  match r with
  | Ok packet => packet
  | Raise _ => []
  end.

(** ** Further definitions: the data-transfer loop of the sender *)

(** The datagrams a sender has sent for a file, oldest first, when the
    highest sequence number sent is [hi]: each datagram is either the
    packet of the chunk after the highest one sent so far, or the
    packet of a chunk sent before. *)
Inductive data_trace (native : byteorder) (content : bytes)
  : Z -> list bytes -> Prop :=
| data_trace_nil : data_trace native content 0 []
| data_trace_new hi sent packet :
    data_trace native content hi sent ->
    chunk content (hi + 1) <> [] ->
    createPacket native (hi + 1) 0 0 (chunk content (hi + 1)) = Ok packet ->
    data_trace native content (hi + 1) (sent ++ [packet])
| data_trace_again hi sent m packet :
    data_trace native content hi sent ->
    1 <= m <= hi ->
    createPacket native m 0 0 (chunk content m) = Ok packet ->
    data_trace native content hi (sent ++ [packet]).

(** What holds of the sender at the top of its loop: the file is the
    one being sent; the window is the run of consecutive sequence
    numbers that ends just below the next one to send and starts at 1
    or above; the send-time map has exactly the window members as
    keys; the datagrams sent form a [data_trace] up to the sequence
    number before the next one. *)
Definition sender_inv (native : byteorder) (content : bytes) (st : sender) : Prop :=
  f_content (s_file st) = content /\
  Z.of_nat (length (s_window st)) < s_seq_num st /\
  s_window st = seqZ (s_seq_num st - Z.of_nat (length (s_window st)))
                     (Z.of_nat (length (s_window st))) /\
  dom (s_unack_packets st) = (list_to_set (s_window st) : gset Z) /\
  data_trace native content (s_seq_num st - 1) (s_sent st).

(** The state in which [sendPacket] has raised [struct.error] at
    sequence number 65536: a state [st0] of the loop with that next
    sequence number, with 65536 appended to its window and nothing
    sent or recorded for it. *)
Definition at_sequence_limit (native : byteorder) (content : bytes)
           (st : sender) : Prop :=
  exists st0,
    sender_inv native content st0 /\
    s_seq_num st0 = 65536 /\
    chunk content 65536 <> [] /\
    f_content (s_file st) = content /\
    s_seq_num st = 65536 /\
    s_window st = s_window st0 ++ [65536] /\
    s_unack_packets st = s_unack_packets st0 /\
    s_sent st = s_sent st0.

(** What holds of the sender wherever the loop stands or is left: at
    the top of the loop, where [recvfrom] is called and after "DATA
    Finished" it is [sender_inv]; where an exception has ended the loop
    it is [sender_inv] too, unless the exception is the [struct.error]
    of sequence number 65536. *)
Definition outcome_inv (native : byteorder) (content : bytes)
           (o : flow sender) : Prop :=
  match o with
  | Next st | Done st => sender_inv native content st
  | Crash e st =>
      sender_inv native content st \/
      (e = StructError /\ at_sequence_limit native content st)
  end.

(** The window of the state of [o] is a run of consecutive sequence
    numbers without duplicates that starts at 1 or above.  The run
    ends just below the next sequence number to send; only where the
    loop was ended by [struct.error] with next sequence number 65536
    can it end at 65536 itself. *)
Definition window_run (o : flow sender) : Prop :=
  let st := flow_state o in
  let n := Z.of_nat (length (s_window st)) in
  NoDup (s_window st) /\
  ((s_window st = seqZ (s_seq_num st - n) n /\ 1 <= s_seq_num st - n) \/
   ((exists st', o = Crash StructError st') /\
    s_seq_num st = 65536 /\
    s_window st = seqZ (s_seq_num st - n + 1) n /\
    1 <= s_seq_num st - n + 1 /\ 1 <= n)).

(** The send-time map of the state of [o] has exactly the window
    members below the next sequence number as keys.  These are all the
    window members; only where the loop was ended by [struct.error]
    with next sequence number 65536 is 65536 a window member without a
    send time. *)
Definition send_times_match (o : flow sender) : Prop :=
  let st := flow_state o in
  (forall k, is_Some (s_unack_packets st !! k)
             <-> k ∈ s_window st /\ k < s_seq_num st) /\
  ((forall k, k ∈ s_window st -> k < s_seq_num st) \/
   ((exists st', o = Crash StructError st') /\
    s_seq_num st = 65536 /\
    forall k, k ∈ s_window st -> k < 65536 \/ k = 65536)).

(** [packet] is the data packet of a chunk of the file with a sequence
    number below [seq_num]: it decodes to that sequence number, ack
    number 0, no flags and the chunk, which is not empty, and it has at
    most [MAX_PACKET_SIZE] bytes. *)
Definition data_packet_below (native : byteorder) (content : bytes)
           (seq_num : Z) (packet : bytes) : Prop :=
  exists m,
    1 <= m < seq_num /\
    chunk content m <> [] /\
    parsePacket native packet = Ok (m, 0, 0, chunk content m) /\
    Z.of_nat (length packet) <= MAX_PACKET_SIZE.

(** The loop of line 285 over the receive outcomes [evs], with the
    outcomes it has not consumed when it ends: [Done] and [Crash] are
    its ends, [Next] with no outcome left is the loop blocked in
    [sock.recvfrom]. *)
Fixpoint established_run (native : byteorder) (now : nat -> Z) (window_size : Z)
         (evs : list recv_event) (st : sender)
  : option (flow sender * list recv_event) :=
  match fill_or_finish native now window_size st with
  | Some (Next st) =>
      match evs with
      | [] => Some (Next st, [])
      | ev :: evs =>
          match react native now window_size ev st with
          | Some (Next st) => established_run native now window_size evs st
          | Some o => Some (o, evs)
          | None => None
          end
      end
  | Some o => Some (o, evs)
  | None => None
  end.

(** ** Further definitions: the loops of the receiver *)

(** The loop of line 455 over the receive outcomes [evs], with the
    outcomes left when it ends; [Next] with none left is the loop
    blocked in [sock.recvfrom]. *)
Fixpoint receive_loop (native : byteorder) (now : nat -> Z)
         (evs : list recv_event) (st : receiver)
  : flow receiver * list recv_event :=
  match evs with
  | [] => (Next st, [])
  | ev :: evs =>
      match receive_iter native now ev st with
      | Next st => receive_loop native now evs st
      | o => (o, evs)
      end
  end.

(** The loop of line 418. *)
Fixpoint listening_loop (native : byteorder) (evs : list recv_event) (st : io)
  : flow io * list recv_event :=
  match evs with
  | [] => (Next st, [])
  | ev :: evs =>
      match listening_iter native ev st with
      | Next st => listening_loop native evs st
      | o => (o, evs)
      end
  end.

(** What holds of the receiver at the top of its loop: the next
    expected sequence number is between 1 and 65536, the received-data
    map has exactly the sequence numbers below it as keys, and the
    datagrams sent are the ACKs of these sequence numbers, in
    increasing order. *)
Definition receiver_inv (native : byteorder) (st : receiver) : Prop :=
  1 <= r_expected_seq_num st <= 65536 /\
  dom (r_received_data st)
    = (list_to_set (seqZ 1 (r_expected_seq_num st - 1)) : gset Z) /\
  Forall2 (fun m packet => createPacket native 0 m FLAGS_ACK [] = Ok packet)
          (seqZ 1 (r_expected_seq_num st - 1)) (r_sent st).

(** ** Further definitions: the whole of [sendFile] and [receiveFile] *)

(** The lines printed outside the loops modelled above; [Line] is a
    line of one of those loops.  The throughput line of [receiveFile]
    (lines 511-520, floating point over wall-clock times) is not
    modelled. *)
Inductive console_line : Type :=
| Line (e : log_event)
| LineAckSent
| LineFinSent
| LineFinAckReceived
| LineConnectionCloses
| LineAckReceived
| LineConnectionEstablished.

(** The datagrams handed to [sock.sendto] and the lines printed by a
    whole call, oldest first. *)
Record transcript : Type := mkTranscript {
  t_sent : list bytes;
  t_log : list console_line
}.

Definition empty_transcript : transcript := {| t_sent := []; t_log := [] |}.
Definition t_sendto (packet : bytes) (t : transcript) : transcript :=
  {| t_sent := t_sent t ++ [packet]; t_log := t_log t |}.
Definition t_print (l : console_line) (t : transcript) : transcript :=
  {| t_sent := t_sent t; t_log := t_log t ++ [l] |}.
(** The transcript continued by what a loop has sent and printed. *)
Definition t_append (sent : list bytes) (log : list log_event) (t : transcript)
  : transcript :=
  {| t_sent := t_sent t ++ sent; t_log := t_log t ++ map Line log |}.

(** The loop of line 435 of [receiveFile]: it ends with the sequence
    number and the flags of the first packet that has the ACK flag. *)
Inductive awaiting_flow : Type :=
| AwaitMore (t : transcript)
| AckArrived (seq_num flags : Z) (t : transcript)
| AwaitCrash (e : exn) (t : transcript).

Definition awaiting_iter (native : byteorder) (ev : recv_event) (t : transcript)
  : awaiting_flow :=
  match ev with
  | Datagram data =>
      match parsePacket native data with
      | Raise e => AwaitCrash e t
      | Ok (seq_num, _, flags, _) =>
          if truthy (Z.land flags FLAGS_ACK)
          then AckArrived seq_num flags (t_print LineAckReceived t)
          else AwaitMore t
      end
  | Timeout | ConnectionReset | SocketError => AwaitCrash OSError t
  end.

Fixpoint awaiting_loop (native : byteorder) (evs : list recv_event) (t : transcript)
  : awaiting_flow * list recv_event :=
  match evs with
  | [] => (AwaitMore t, [])
  | ev :: evs =>
      match awaiting_iter native ev t with
      | AwaitMore t => awaiting_loop native evs t
      | o => (o, evs)
      end
  end.

(** The loop of line 242 of [sendFile]. *)
Fixpoint synsent_loop (native : byteorder) (syn_packet : bytes)
         (evs : list recv_event) (st : io) : synsent_flow * list recv_event :=
  match evs with
  | [] => (KeepWaiting st, [])
  | ev :: evs =>
      match synsent_iter native syn_packet ev st with
      | KeepWaiting st => synsent_loop native syn_packet evs st
      | o => (o, evs)
      end
  end.

(** The body of the loop of line 376 of [sendFile]: wait for the
    FIN-ACK, send the FIN again on a timeout.  [socket.timeout] is the
    only exception with a handler. *)
Definition closing_iter (native : byteorder) (fin_packet : bytes)
           (ev : recv_event) (t : transcript) : flow transcript :=
  match ev with
  | Datagram response =>
      match parsePacket native response with
      | Raise e => Crash e t
      | Ok (_, _, flags, _) =>
          if truthy (Z.land flags FLAGS_FIN) && truthy (Z.land flags FLAGS_ACK)
          then Done (t_print LineFinAckReceived t)
          else Next t
      end
  | Timeout => Next (t_sendto fin_packet t)
  | ConnectionReset | SocketError => Crash OSError t
  end.

Fixpoint closing_loop (native : byteorder) (fin_packet : bytes)
         (evs : list recv_event) (t : transcript)
  : flow transcript * list recv_event :=
  match evs with
  | [] => (Next t, [])
  | ev :: evs =>
      match closing_iter native fin_packet ev t with
      | Next t => closing_loop native fin_packet evs t
      | o => (o, evs)
      end
  end.

(** How a call of [sendFile] or [receiveFile] ends on a list of
    receive outcomes: it runs to its last line, it returns early (the
    connection failure of [sendFile]), it raises, or the outcomes are
    used up and it is blocked in [sock.recvfrom]. *)
Inductive sendFile_result : Type :=
| SfClosed (t : transcript)
| SfReturned (t : transcript)
| SfRaised (e : exn) (t : transcript)
| SfBlocked (t : transcript).

(** [sendFile(filename, server_ip, server_port, window_size)] for a
    file with the bytes [content] ([os.path.getsize] is their number).
    [None] only if the window-filling loop ran out of fuel, which it
    does not (see [sendFile_total]). *)
Definition sendFile (native : byteorder) (now : nat -> Z) (content : bytes)
           (window_size : Z) (evs : list recv_event) : option sendFile_result :=
  let filesize := Z.of_nat (length content) in
  match createSynPacket native 0 0 FLAGS_SYN filesize with
  | Raise e => Some (SfRaised e empty_transcript)
  | Ok syn_packet =>
      let st := io_print LogSynSent (io_sendto syn_packet empty_io) in
      match synsent_loop native syn_packet evs st with
      | (KeepWaiting st, _) =>
          Some (SfBlocked (t_append (io_sent st) (io_log st) empty_transcript))
      | (ConnectionFailed st, _) =>
          Some (SfReturned (t_append (io_sent st) (io_log st) empty_transcript))
      | (Aborted e st, _) =>
          Some (SfRaised e (t_append (io_sent st) (io_log st) empty_transcript))
      | (SynAckArrived seq_num st, evs) =>
          let t := t_append (io_sent st) (io_log st) empty_transcript in
          match createPacket native 1 (seq_num + 1) FLAGS_ACK [] with
          | Raise e => Some (SfRaised e t)
          | Ok ack_packet =>
              let t := t_print LineAckSent (t_sendto ack_packet t) in
              match established_run native now window_size evs
                      (initial_sender content) with
              | None => None
              | Some (Next st, _) =>
                  Some (SfBlocked (t_append (s_sent st) (s_log st) t))
              | Some (Crash e st, _) =>
                  Some (SfRaised e (t_append (s_sent st) (s_log st) t))
              | Some (Done st, evs) =>
                  let t := t_append (s_sent st) (s_log st) t in
                  match createPacket native (s_seq_num st) 0 FLAGS_FIN [] with
                  | Raise e => Some (SfRaised e t)
                  | Ok fin_packet =>
                      let t := t_print LineFinSent (t_sendto fin_packet t) in
                      match closing_loop native fin_packet evs t with
                      | (Next t, _) => Some (SfBlocked t)
                      | (Crash e t, _) => Some (SfRaised e t)
                      | (Done t, _) =>
                          Some (SfClosed (t_print LineConnectionCloses t))
                      end
                  end
              end
          end
      end
  end.

(** [sorted(received_data)]: the keys in increasing order. *)
Definition sorted_keys (received_data : gmap Z bytes) : list Z :=
  merge_sort Z.le ((map_to_list received_data).*1).

(** Lines 505-509: the bytes written to [received_file]. *)
Definition written_file (received_data : gmap Z bytes) : bytes :=
  concat ((fun seq => default [] (received_data !! seq))
            <$> sorted_keys received_data).

Inductive receiveFile_result : Type :=
| RfClosed (t : transcript) (written : bytes)
| RfRaised (e : exn) (t : transcript)
| RfBlocked (t : transcript).

(** [receiveFile(ip, port, discard)] up to the writing of the file. *)
Definition receiveFile (native : byteorder) (now : nat -> Z)
           (discard : option Z) (evs : list recv_event) : receiveFile_result :=
  match listening_loop native evs empty_io with
  | (Next st, _) =>
      RfBlocked (t_append (io_sent st) (io_log st) empty_transcript)
  | (Crash e st, _) =>
      RfRaised e (t_append (io_sent st) (io_log st) empty_transcript)
  | (Done st, evs) =>
      let t := t_append (io_sent st) (io_log st) empty_transcript in
      match awaiting_loop native evs t with
      | (AwaitMore t, _) => RfBlocked t
      | (AwaitCrash e t, _) => RfRaised e t
      | (AckArrived seq_num flags t, evs) =>
          let t := t_print LineConnectionEstablished t in
          match receive_loop native now evs
                  (initial_receiver discard seq_num flags) with
          | (Next st, _) => RfBlocked (t_append (r_sent st) (r_log st) t)
          | (Crash e st, _) => RfRaised e (t_append (r_sent st) (r_log st) t)
          | (Done st, _) =>
              RfClosed (t_append (r_sent st) (r_log st) t)
                       (written_file (r_received_data st))
          end
      end
  end.

(** The connection state an iteration of the SYN-ACK wait loop ends in. *)
Definition synsent_state (o : synsent_flow) : io :=
  match o with
  | KeepWaiting st | SynAckArrived _ st | ConnectionFailed st | Aborted _ st => st
  end.

(** The number of chunks [sendFile] sends before its FIN: all of them,
    or none when the window size is below 1. *)
Definition chunks_sent (window_size : Z) (content : bytes) : Z :=
  if decide (1 <= window_size) then chunk_count content else 0.

(** A SYN-ACK with sequence number 1 for a 3-byte file and a FIN-ACK
    with sequence number 3, in little-endian byte order. *)
Definition syn_ack_1_3 : bytes :=
  [x01; x00; x00; x00; x03; x00; x03; x00; x00; x00].
Definition fin_ack_3 : bytes := [x03; x00; x00; x00; x06; x00].

(** A file of three bytes and the outcomes of the receive calls of a
    [sendFile] run that transfers it: the SYN-ACK, the ACK of packet 1
    and the FIN-ACK. *)
Definition abc : bytes := [x41; x42; x43].
Definition abc_session : list recv_event :=
  [Datagram syn_ack_1_3; Datagram ack_1; Datagram fin_ack_3].

(** The data packet of the one chunk of [abc], in little-endian byte
    order. *)
Definition abc_packet : bytes := [x01; x00; x00; x00; x00; x00; x41; x42; x43].

(** The sender of a 2000-byte file with window size 2 after an ACK of
    packet 1 and a timeout, and the sender of [abc] with window size 3
    after the ACK of packet 1, each at the top of its loop. *)
Definition sender_after_ack_timeout : sender :=
  state_or (initial_sender [])
    (established_loop LittleEndian counting_clock 2 [Datagram ack_1; Timeout]
       (initial_sender (file_of_size 2000))).
Definition sender_abc_acked : sender :=
  state_or (initial_sender [])
    (established_loop LittleEndian counting_clock 3 [Datagram ack_1]
       (initial_sender abc)).

(** An ACK with ack number 65534, in little-endian byte order. *)
Definition ack_65534 : bytes := [x00; x00; xfe; xff; x02; x00].

(** The next sequence number, the window, the send-time map and the
    file of a sender that has sent the first 65535 chunks of a file of
    65536 chunks and has the last three of them in its window (the
    send times are 0, the datagrams sent before and the console output
    are left empty). *)
Definition sender_near_limit : sender :=
  {| s_seq_num := 65536; s_window := [65533; 65534; 65535];
     s_unack_packets := <[65533 := 0]> (<[65534 := 0]> (<[65535 := 0]> ∅));
     s_retransmit := false; s_file := open_rb (file_of_size 65142784);
     s_sent := []; s_log := []; s_clock := O |}.

(** A sender that has sent and had acknowledged the first 65535 chunks
    of a file of 65536 chunks. *)
Definition sender_at_65536 : sender :=
  {| s_seq_num := 65536; s_window := []; s_unack_packets := ∅;
     s_retransmit := false; s_file := open_rb (file_of_size 65142784);
     s_sent := []; s_log := []; s_clock := O |}.

(** The datagrams and the console output of a result of [sendFile]. *)
Definition sendFile_transcript (r : option sendFile_result) : transcript :=
  match r with
  | Some (SfClosed t) | Some (SfReturned t) | Some (SfRaised _ t)
  | Some (SfBlocked t) => t
  | None => empty_transcript
  end.

(** * Properties *)

(** ** The [struct] module *)

Lemma Z_of_byte_range (b : byte) : 0 <= Z_of_byte b < 256.
Proof.
  unfold Z_of_byte. pose proof (Byte.to_N_bounded b). lia.
Qed.

Lemma Z_of_byte_of_Z (z : Z) : Z_of_byte (byte_of_Z z) = z mod 256.
Proof.
  unfold Z_of_byte, byte_of_Z.
  pose proof (Z.mod_pos_bound z 256 ltac:(lia)) as Hm.
  destruct (Byte.of_N (Z.to_N (z mod 256))) as [b|] eqn:E.
  - apply Byte.to_of_N in E. rewrite E. lia.
  - apply Byte.of_N_None_iff in E. lia.
Qed.

Lemma byte_of_Z_of_byte (b : byte) : byte_of_Z (Z_of_byte b) = b.
Proof.
  unfold byte_of_Z. pose proof (Z_of_byte_range b) as Hb.
  rewrite Z.mod_small by lia. unfold Z_of_byte.
  rewrite N2Z.id, Byte.of_to_N. reflexivity.
Qed.

Lemma le_value_digits (n : nat) (v : Z) :
  le_value (le_digits n v) = v mod 256 ^ Z.of_nat n.
Proof.
  revert v. induction n as [|n IH]; intros v.
  - simpl. now rewrite Z.mod_1_r.
  - cbn [le_digits le_value]. rewrite Z_of_byte_of_Z, IH.
    rewrite Nat2Z.inj_succ, Z.pow_succ_r by lia.
    rewrite (Z.rem_mul_r v 256 (256 ^ Z.of_nat n)) by lia. reflexivity.
Qed.

Lemma in_order_involutive (bo : byteorder) (bs : bytes) :
  in_order bo (in_order bo bs) = bs.
Proof. destruct bo; simpl; [reflexivity | apply rev_involutive]. Qed.

Lemma pack_uint_ok (bo : byteorder) (n : nat) (v : Z) :
  0 <= v < 256 ^ Z.of_nat n ->
  pack_uint bo n v = Ok (in_order bo (le_digits n v)).
Proof.
  intros [H0 H1]. unfold pack_uint.
  apply Z.leb_le in H0. apply Z.ltb_lt in H1. now rewrite H0, H1.
Qed.

Lemma pack_uint_out_of_range (bo : byteorder) (n : nat) (v : Z) :
  ~ (0 <= v < 256 ^ Z.of_nat n) -> pack_uint bo n v = Raise StructError.
Proof.
  intros H. unfold pack_uint.
  destruct (0 <=? v) eqn:E0; [|reflexivity].
  destruct (v <? 256 ^ Z.of_nat n) eqn:E1; [|reflexivity].
  apply Z.leb_le in E0. apply Z.ltb_lt in E1. lia.
Qed.

(** A field of two bytes read back in the order it was written. *)
Lemma u16_read_back (bo : byteorder) (v : Z) :
  0 <= v < 65536 ->
  le_value (in_order bo (in_order bo (le_digits 2 v))) = v.
Proof.
  intros H. rewrite in_order_involutive, le_value_digits.
  apply Z.mod_small. simpl. lia.
Qed.

Lemma u32_read_back (bo : byteorder) (v : Z) :
  0 <= v < 4294967296 ->
  le_value (in_order bo (in_order bo (le_digits 4 v))) = v.
Proof.
  intros H. rewrite in_order_involutive, le_value_digits.
  apply Z.mod_small. simpl. lia.
Qed.

Lemma pack_HHH_ok (bo : byteorder) (a b c : Z) :
  0 <= a < 65536 -> 0 <= b < 65536 -> 0 <= c < 65536 ->
  pack_HHH bo a b c =
  Ok (in_order bo (le_digits 2 a) ++ in_order bo (le_digits 2 b)
        ++ in_order bo (le_digits 2 c)).
Proof.
  intros Ha Hb Hc. unfold pack_HHH.
  rewrite !pack_uint_ok by (simpl; lia). reflexivity.
Qed.

Lemma unpack_pack_HHH (bo : byteorder) (a b c : Z) :
  0 <= a < 65536 -> 0 <= b < 65536 -> 0 <= c < 65536 ->
  exists hdr,
    pack_HHH bo a b c = Ok hdr /\
    length hdr = 6%nat /\
    unpack_HHH bo hdr = Ok (a, b, c).
Proof.
  intros Ha Hb Hc. eexists. split; [apply pack_HHH_ok; assumption|].
  pose proof (u16_read_back bo a Ha) as Ea.
  pose proof (u16_read_back bo b Hb) as Eb.
  pose proof (u16_read_back bo c Hc) as Ec.
  destruct bo; cbn [in_order le_digits rev app] in *;
    (split; [reflexivity | unfold unpack_HHH; cbn [in_order rev app];
                           rewrite Ea, Eb, Ec; reflexivity]).
Qed.

Lemma unpack_HHH_short (bo : byteorder) (buf : bytes) :
  length buf <> 6%nat -> unpack_HHH bo buf = Raise StructError.
Proof.
  intros H. unfold unpack_HHH.
  do 7 (destruct buf as [|? buf]; [reflexivity || (simpl in H; lia)|]).
  reflexivity.
Qed.

Lemma unpack_HHH_six (bo : byteorder) (buf : bytes) :
  length buf = 6%nat -> exists r, unpack_HHH bo buf = Ok r.
Proof.
  intros H. unfold unpack_HHH.
  do 6 (destruct buf as [|? buf]; [simpl in H; lia|]).
  destruct buf; [eexists; reflexivity | simpl in H; lia].
Qed.

Lemma unpack_I_four (bo : byteorder) (buf : bytes) :
  length buf = 4%nat -> exists r, unpack_I bo buf = Ok r.
Proof.
  intros H. unfold unpack_I.
  do 4 (destruct buf as [|? buf]; [simpl in H; lia|]).
  destruct buf; [eexists; reflexivity | simpl in H; lia].
Qed.

(** ** Packet codec *)

Section CodecFacts.
Variable native : byteorder.

Lemma parse_create_packet (seq_num ack_num flags : Z) (payload : bytes) :
  0 <= seq_num < 65536 -> 0 <= ack_num < 65536 -> 0 <= flags < 65536 ->
  exists packet,
    createPacket native seq_num ack_num flags payload = Ok packet /\
    parsePacket native packet = Ok (seq_num, ack_num, flags, payload).
Proof.
  intros Hs Ha Hf.
  destruct (unpack_pack_HHH native seq_num ack_num flags Hs Ha Hf)
    as (hdr & Hpack & Hlen & Hunpack).
  exists (hdr ++ payload). unfold createPacket, parsePacket.
  rewrite Hpack. split; [reflexivity|].
  unfold slice_to, slice_from, HEADER_SIZE.
  change (Z.to_nat 6) with 6%nat.
  rewrite take_app_length' by (symmetry; exact Hlen).
  rewrite drop_app_length' by (symmetry; exact Hlen).
  rewrite Hunpack. reflexivity.
Qed.

Lemma parse_create_syn_packet (seq_num ack_num flags file_size : Z) :
  0 <= seq_num < 65536 -> 0 <= ack_num < 65536 -> 0 <= flags < 65536 ->
  0 <= file_size < 4294967296 ->
  exists packet,
    createSynPacket native seq_num ack_num flags file_size = Ok packet /\
    parseSynPacket native packet = Ok (seq_num, ack_num, flags, file_size).
Proof.
  intros Hs Ha Hf Hz.
  destruct (unpack_pack_HHH native seq_num ack_num flags Hs Ha Hf)
    as (hdr & Hpack & Hlen & Hunpack).
  exists (hdr ++ in_order native (le_digits 4 file_size)).
  unfold createSynPacket, parseSynPacket, pack_I.
  rewrite Hpack, pack_uint_ok by (simpl; lia).
  split; [reflexivity|].
  unfold slice_to, slice_from, HEADER_SIZE.
  change (Z.to_nat 6) with 6%nat. change (Z.to_nat 4) with 4%nat.
  rewrite take_app_length' by (symmetry; exact Hlen).
  rewrite drop_app_length' by (symmetry; exact Hlen).
  rewrite Hunpack. cbn [rbind].
  pose proof (u32_read_back native file_size Hz) as Ez.
  destruct native; cbn [in_order le_digits rev app] in *;
    cbn [take length]; unfold unpack_I; cbn [in_order rev app];
    rewrite Ez; reflexivity.
Qed.

Lemma parsePacket_short (buf : bytes) :
  (length buf < 6)%nat -> parsePacket native buf = Raise StructError.
Proof.
  intros H. unfold parsePacket, slice_to, HEADER_SIZE.
  change (Z.to_nat 6) with 6%nat.
  rewrite unpack_HHH_short; [reflexivity|].
  rewrite length_take. lia.
Qed.

Lemma parsePacket_long (buf : bytes) :
  (6 <= length buf)%nat -> exists r, parsePacket native buf = Ok r.
Proof.
  intros H. unfold parsePacket, slice_to, HEADER_SIZE.
  change (Z.to_nat 6) with 6%nat.
  destruct (unpack_HHH_six native (take 6 buf)) as [[[a b] c] E].
  - rewrite length_take. lia.
  - rewrite E. eexists. reflexivity.
Qed.

Lemma parseSynPacket_short_header (buf : bytes) :
  (length buf < 6)%nat -> parseSynPacket native buf = Raise StructError.
Proof.
  intros H. unfold parseSynPacket, slice_to, HEADER_SIZE.
  change (Z.to_nat 6) with 6%nat.
  rewrite unpack_HHH_short; [reflexivity|].
  rewrite length_take. lia.
Qed.

Lemma parseSynPacket_short_size (buf : bytes) :
  (6 <= length buf < 10)%nat -> parseSynPacket native buf = Raise ValueError.
Proof.
  intros H. unfold parseSynPacket, slice_to, slice_from, HEADER_SIZE.
  change (Z.to_nat 6) with 6%nat. change (Z.to_nat 4) with 4%nat.
  destruct (unpack_HHH_six native (take 6 buf)) as [[[a b] c] E].
  - rewrite length_take. lia.
  - rewrite E. cbn [rbind].
    assert ((Z.of_nat (length (take 4 (drop 6 buf))) <? 4) = true) as ->.
    { apply Z.ltb_lt. rewrite length_take, length_drop. lia. }
    reflexivity.
Qed.

Lemma parseSynPacket_long (buf : bytes) :
  (10 <= length buf)%nat -> exists r, parseSynPacket native buf = Ok r.
Proof.
  intros H. unfold parseSynPacket, slice_to, slice_from, HEADER_SIZE.
  change (Z.to_nat 6) with 6%nat. change (Z.to_nat 4) with 4%nat.
  destruct (unpack_HHH_six native (take 6 buf)) as [[[a b] c] E].
  - rewrite length_take. lia.
  - rewrite E. cbn [rbind].
    assert (length (take 4 (drop 6 buf)) = 4%nat) as Hl.
    { rewrite length_take, length_drop. lia. }
    rewrite Hl. change (Z.of_nat 4 <? 4) with false. cbv iota.
    destruct (unpack_I_four native _ Hl) as [fs Efs].
    rewrite Efs. eexists. reflexivity.
Qed.

(** C5. Framing round trip: for sequence number, acknowledgment
    number and flags in the range of an unsigned 16-bit field and a
    payload of at most 994 bytes, [createPacket] returns a packet
    that [parsePacket] decodes to exactly the four values; likewise
    [createSynPacket] and [parseSynPacket] with a file size in the
    range of an unsigned 32-bit field. *)
Theorem framing_round_trip :
  (forall (seq_num ack_num flags : Z) (payload : bytes),
      0 <= seq_num < 65536 -> 0 <= ack_num < 65536 -> 0 <= flags < 65536 ->
      Z.of_nat (length payload) <= DATA_SIZE ->
      exists packet,
        createPacket native seq_num ack_num flags payload = Ok packet /\
        parsePacket native packet = Ok (seq_num, ack_num, flags, payload)) /\
  (forall seq_num ack_num flags file_size : Z,
      0 <= seq_num < 65536 -> 0 <= ack_num < 65536 -> 0 <= flags < 65536 ->
      0 <= file_size < 4294967296 ->
      exists packet,
        createSynPacket native seq_num ack_num flags file_size = Ok packet /\
        parseSynPacket native packet = Ok (seq_num, ack_num, flags, file_size)).
Proof.
  split.
  - intros seq_num ack_num flags payload Hs Ha Hf _.
    now apply parse_create_packet.
  - intros seq_num ack_num flags file_size Hs Ha Hf Hz.
    now apply parse_create_syn_packet.
Qed.

(** C9. Decoding fails on short input, with distinct exceptions:
    [parsePacket] on fewer than 6 bytes raises [struct.error] (the
    malformed-header failure); [parseSynPacket] on a complete 6-byte
    header followed by fewer than 4 bytes raises [ValueError] (the
    incomplete-file-size failure), which is another exception than
    the [struct.error] it raises on a short header; [parsePacket]
    succeeds on every buffer of at least 6 bytes and
    [parseSynPacket] on every buffer of at least 10 bytes. *)
Theorem decode_short_input_errors :
  (forall buf : bytes,
      (length buf < 6)%nat -> parsePacket native buf = Raise StructError) /\
  (forall buf : bytes,
      (6 <= length buf < 10)%nat -> parseSynPacket native buf = Raise ValueError) /\
  (forall buf : bytes,
      (length buf < 6)%nat -> parseSynPacket native buf = Raise StructError) /\
  StructError <> ValueError /\
  (forall buf : bytes,
      (6 <= length buf)%nat -> exists r, parsePacket native buf = Ok r) /\
  (forall buf : bytes,
      (10 <= length buf)%nat -> exists r, parseSynPacket native buf = Ok r).
Proof.
  repeat split.
  - apply parsePacket_short.
  - apply parseSynPacket_short_size.
  - apply parseSynPacket_short_header.
  - discriminate.
  - apply parsePacket_long.
  - apply parseSynPacket_long.
Qed.
End CodecFacts.

(** Instance of [framing_round_trip]: a data packet with sequence
    number 7 and a two-byte payload, and the SYN of a 3000-byte file. *)
Lemma framing_round_trip_witness :
  (exists packet,
      createPacket LittleEndian 7 0 0 [x41; x42] = Ok packet /\
      parsePacket LittleEndian packet = Ok (7, 0, 0, [x41; x42])) /\
  (exists packet,
      createSynPacket LittleEndian 0 0 FLAGS_SYN 3000 = Ok packet /\
      parseSynPacket LittleEndian packet = Ok (0, 0, FLAGS_SYN, 3000)).
Proof.
  split.
  - apply (proj1 (framing_round_trip LittleEndian) 7 0 0 [x41; x42]);
      unfold DATA_SIZE; simpl; lia.
  - apply (proj2 (framing_round_trip LittleEndian) 0 0 FLAGS_SYN 3000);
      unfold FLAGS_SYN; lia.
Defined.

(** Instance of [decode_short_input_errors]: a 3-byte buffer, an
    8-byte buffer, and buffers of 6 and 10 bytes. *)
Lemma decode_short_input_errors_witness :
  parsePacket BigEndian [x00; x01; x02] = Raise StructError /\
  parseSynPacket BigEndian [x00; x01; x00; x00; x00; x01; x0b; xb8]
    = Raise ValueError /\
  parseSynPacket BigEndian [x00; x01; x02] = Raise StructError /\
  (exists r, parsePacket BigEndian [x00; x01; x00; x00; x00; x02] = Ok r) /\
  (exists r, parseSynPacket BigEndian
               [x00; x00; x00; x00; x00; x01; x00; x00; x0b; xb8] = Ok r).
Proof.
  pose proof (decode_short_input_errors BigEndian) as (H1 & H2 & H3 & _ & H5 & H6).
  split; [apply H1; simpl; lia|].
  split; [apply H2; simpl; lia|].
  split; [apply H3; simpl; lia|].
  split; [apply H5; simpl; lia|].
  apply H6; simpl; lia.
Defined.

(** ** Sender: [sendPacket] *)

Lemma chunk_past_end (content : bytes) (seq_num : Z) :
  Z.of_nat (length content) <= DATA_SIZE * (seq_num - 1) ->
  chunk content seq_num = [].
Proof.
  intros H. unfold chunk. rewrite drop_ge by lia. apply take_nil.
Qed.

Lemma chunk_before_end (content : bytes) (seq_num : Z) :
  0 <= DATA_SIZE * (seq_num - 1) < Z.of_nat (length content) ->
  chunk content seq_num <> [].
Proof.
  intros H Hc. apply (f_equal length) in Hc. unfold chunk in Hc.
  rewrite length_take, length_drop in Hc. unfold DATA_SIZE in *.
  cbn [length] in Hc. lia.
Qed.

Lemma chunk_length (content : bytes) (seq_num : Z) :
  Z.of_nat (length (chunk content seq_num)) <= DATA_SIZE.
Proof.
  unfold chunk. rewrite length_take. unfold DATA_SIZE. lia.
Qed.

Lemma is_empty_true (b : bytes) : is_empty b = true <-> b = [].
Proof. destruct b; simpl; split; congruence. Qed.

Lemma is_empty_false (b : bytes) : is_empty b = false <-> b <> [].
Proof. destruct b; simpl; split; congruence. Qed.

Section SendPacketFacts.
Variable native : byteorder.
Variable now : nat -> Z.

Lemma seek_read_ok (seq_num : Z) (st : sender) :
  0 <= DATA_SIZE * (seq_num - 1) ->
  seek_read seq_num st =
  (Ok (chunk (f_content (s_file st)) seq_num),
   with_file (file_after_chunk (f_content (s_file st)) seq_num) st).
Proof.
  intros H. unfold seek_read, file_seek.
  apply Z.ltb_ge in H. rewrite H. reflexivity.
Qed.

Lemma seek_read_negative (seq_num : Z) (st : sender) :
  DATA_SIZE * (seq_num - 1) < 0 ->
  seek_read seq_num st = (Raise OSError, st).
Proof.
  intros H. unfold seek_read, file_seek.
  apply Z.ltb_lt in H. rewrite H. reflexivity.
Qed.

(** [sendPacket] at the end of the file, for a sequence number that is
    not in the window: only the read position of the file moves. *)
Lemma sendPacket_eof (seq_num : Z) (retransmit : bool) (st : sender) :
  seq_num ∉ s_window st ->
  Z.of_nat (length (f_content (s_file st))) <= DATA_SIZE * (seq_num - 1) ->
  sendPacket native now seq_num retransmit st =
  (Ok false,
   with_file {| f_content := f_content (s_file st);
                f_pos := DATA_SIZE * (seq_num - 1) |} st).
Proof.
  intros Hnot Heof. unfold sendPacket.
  rewrite bool_decide_eq_false_2 by exact Hnot. cbn [negb].
  rewrite seek_read_ok by lia.
  unfold file_after_chunk. rewrite (chunk_past_end _ _ Heof).
  cbn [is_empty length Z.of_nat]. rewrite Z.add_0_r. reflexivity.
Qed.

Lemma chunk_count_past_end (content : bytes) :
  Z.of_nat (length content) <= DATA_SIZE * (chunk_count content + 1 - 1).
Proof.
  unfold chunk_count, DATA_SIZE. Z.div_mod_to_equations. lia.
Qed.

(** C10. For a sequence number that is not in the window and whose
    offset [(seq_num - 1) * 994] is at or past the end of the file,
    [sendPacket] returns [False], sends no datagram, prints nothing and
    leaves the window and the send-time map as they were; only the
    read position of the file moves.  So the probe of the sequence
    number after the last chunk sends nothing and does not enter the
    window. *)
Theorem sendPacket_past_end_of_file :
  (forall (seq_num : Z) (retransmit : bool) (st : sender),
      seq_num ∉ s_window st ->
      Z.of_nat (length (f_content (s_file st))) <= DATA_SIZE * (seq_num - 1) ->
      exists st',
        sendPacket native now seq_num retransmit st = (Ok false, st') /\
        s_sent st' = s_sent st /\
        s_window st' = s_window st /\
        s_unack_packets st' = s_unack_packets st /\
        st' = with_file {| f_content := f_content (s_file st);
                           f_pos := DATA_SIZE * (seq_num - 1) |} st) /\
  (forall (retransmit : bool) (st : sender),
      let probe := chunk_count (f_content (s_file st)) + 1 in
      probe ∉ s_window st ->
      exists st',
        sendPacket native now probe retransmit st = (Ok false, st') /\
        s_sent st' = s_sent st /\
        probe ∉ s_window st').
Proof.
  split.
  - intros seq_num retransmit st Hnot Heof.
    eexists. split; [apply sendPacket_eof; assumption|].
    repeat split; reflexivity.
  - intros retransmit st probe Hnot.
    eexists. split.
    + apply sendPacket_eof; [exact Hnot | apply chunk_count_past_end].
    + split; [reflexivity | exact Hnot].
Qed.

Lemma last_ack_from_app (acc : option Z) (l l' : list log_event) :
  last_ack_from acc (l ++ l') = last_ack_from (last_ack_from acc l) l'.
Proof.
  revert acc. induction l as [|e l IH]; intros acc; [reflexivity|].
  destruct e; simpl; apply IH.
Qed.

Lemma createPacket_range (seq_num ack_num flags : Z) (data packet : bytes) :
  createPacket native seq_num ack_num flags data = Ok packet ->
  0 <= seq_num < 65536 /\ 0 <= ack_num < 65536 /\ 0 <= flags < 65536.
Proof.
  unfold createPacket, pack_HHH. intros H.
  destruct (decide (0 <= seq_num < 65536)) as [Hs|Hs];
    [|rewrite (pack_uint_out_of_range _ 2 seq_num) in H by exact Hs; discriminate].
  destruct (decide (0 <= ack_num < 65536)) as [Ha|Ha];
    [|rewrite (pack_uint_ok _ 2 seq_num) in H by exact Hs;
      rewrite (pack_uint_out_of_range _ 2 ack_num) in H by exact Ha; discriminate].
  destruct (decide (0 <= flags < 65536)) as [Hf|Hf];
    [|rewrite (pack_uint_ok _ 2 seq_num) in H by exact Hs;
      rewrite (pack_uint_ok _ 2 ack_num) in H by exact Ha;
      rewrite (pack_uint_out_of_range _ 2 flags) in H by exact Hf; discriminate].
  auto.
Qed.

Lemma createPacket_out_of_range (seq_num : Z) (data : bytes) :
  ~ (0 <= seq_num < 65536) ->
  createPacket native seq_num 0 0 data = Raise StructError.
Proof.
  intros H. unfold createPacket, pack_HHH.
  rewrite (pack_uint_out_of_range _ 2 seq_num) by exact H. reflexivity.
Qed.

(** What [transmit] does when the packet can be built. *)
Lemma transmit_ok (seq_num : Z) (retransmit : bool) (data packet : bytes)
      (st : sender) :
  createPacket native seq_num 0 0 data = Ok packet ->
  transmit native now seq_num retransmit data st =
  (Ok true,
   print (if retransmit
          then LogRetransmit (now (s_clock st)) seq_num
          else LogPacketSent (now (s_clock st)) seq_num (s_window st))
         (sendto packet (tick st))).
Proof.
  intros H. unfold transmit. rewrite H. destruct retransmit; reflexivity.
Qed.

Lemma transmit_raise (seq_num : Z) (retransmit : bool) (data : bytes)
      (st : sender) :
  ~ (0 <= seq_num < 65536) ->
  transmit native now seq_num retransmit data st = (Raise StructError, tick st).
Proof.
  intros H. unfold transmit. rewrite createPacket_out_of_range by exact H.
  reflexivity.
Qed.

(** [sendPacket] for a sequence number that is in the window: the
    packet of that sequence number is sent again, the window stays. *)
Lemma sendPacket_member (seq_num : Z) (retransmit : bool) (packet : bytes)
      (st : sender) :
  seq_num ∈ s_window st ->
  1 <= seq_num ->
  createPacket native seq_num 0 0 (chunk (f_content (s_file st)) seq_num)
    = Ok packet ->
  sendPacket native now seq_num retransmit st =
  (Ok true,
   print (if retransmit
          then LogRetransmit (now (s_clock st)) seq_num
          else LogPacketSent (now (s_clock st)) seq_num (s_window st))
         (sendto packet
            (tick (with_file (file_after_chunk (f_content (s_file st)) seq_num) st)))).
Proof.
  intros Hin Hpos Hp. unfold sendPacket.
  rewrite bool_decide_eq_true_2 by exact Hin. cbn [negb].
  rewrite seek_read_ok by (unfold DATA_SIZE; lia).
  rewrite (transmit_ok _ _ _ packet) by exact Hp. reflexivity.
Qed.

(** [sendPacket] for a sequence number that is not in the window and
    has bytes in the file: it enters the window and its packet is sent. *)
Lemma sendPacket_fresh (seq_num : Z) (retransmit : bool) (packet : bytes)
      (st : sender) :
  seq_num ∉ s_window st ->
  1 <= seq_num ->
  chunk (f_content (s_file st)) seq_num <> [] ->
  createPacket native seq_num 0 0 (chunk (f_content (s_file st)) seq_num)
    = Ok packet ->
  sendPacket native now seq_num retransmit st =
  (Ok true,
   print (if retransmit
          then LogRetransmit (now (s_clock st)) seq_num
          else LogPacketSent (now (s_clock st)) seq_num (s_window st ++ [seq_num]))
         (sendto packet
            (tick (with_window (s_window st ++ [seq_num])
                     (with_file (file_after_chunk (f_content (s_file st)) seq_num) st))))).
Proof.
  intros Hnot Hpos Hne Hp. unfold sendPacket.
  rewrite bool_decide_eq_false_2 by exact Hnot. cbn [negb].
  rewrite seek_read_ok by (unfold DATA_SIZE; lia).
  destruct (chunk (f_content (s_file st)) seq_num) as [|b data] eqn:E;
    [congruence|]. cbn [is_empty].
  rewrite (transmit_ok _ _ _ packet) by exact Hp. reflexivity.
Qed.

Lemma sendPacket_cases (seq_num : Z) (retransmit : bool) (st : sender) :
  sendPacket_outcome native now seq_num retransmit st
    (sendPacket native now seq_num retransmit st).1
    (sendPacket native now seq_num retransmit st).2.
Proof.
  destruct (decide (seq_num < 1)) as [Hlow|Hlow].
  - unfold sendPacket.
    rewrite seek_read_negative by (unfold DATA_SIZE; lia).
    destruct (negb _); cbn [fst snd]; now constructor.
  - assert (0 <= DATA_SIZE * (seq_num - 1)) as Hoff by (unfold DATA_SIZE; lia).
    destruct (decide (seq_num < 65536)) as [Hhi|Hhi].
    + destruct (parse_create_packet native seq_num 0 0
                  (chunk (f_content (s_file st)) seq_num))
        as (packet & Hp & _); try lia.
      destruct (decide (seq_num ∈ s_window st)) as [Hin|Hnot].
      * rewrite (sendPacket_member _ _ packet) by (assumption || lia).
        cbn [fst snd]. apply sp_sent_again; (assumption || lia).
      * destruct (decide (chunk (f_content (s_file st)) seq_num = [])) as [He|Hne].
        -- unfold sendPacket.
           rewrite bool_decide_eq_false_2 by exact Hnot. cbn [negb].
           rewrite seek_read_ok by exact Hoff.
           rewrite (proj2 (is_empty_true _) He).
           cbn [fst snd]. apply sp_end_of_file; (assumption || lia).
        -- rewrite (sendPacket_fresh _ _ packet) by (assumption || lia).
           cbn [fst snd]. apply sp_sent_new; (assumption || lia).
    + unfold sendPacket. rewrite seek_read_ok by exact Hoff.
      destruct (decide (seq_num ∈ s_window st)) as [Hin|Hnot].
      * rewrite bool_decide_eq_true_2 by exact Hin. cbn [negb].
        rewrite transmit_raise by lia. cbn [fst snd].
        apply sp_pack_error_in_window; (assumption || lia).
      * rewrite bool_decide_eq_false_2 by exact Hnot. cbn [negb].
        destruct (decide (chunk (f_content (s_file st)) seq_num = [])) as [He|Hne].
        -- rewrite (proj2 (is_empty_true _) He). cbn [fst snd].
           apply sp_end_of_file; (assumption || lia).
        -- rewrite (proj2 (is_empty_false _) Hne).
           rewrite transmit_raise by lia. cbn [fst snd].
           change (s_window (with_file _ st)) with (s_window st).
           apply sp_pack_error_new; (assumption || lia).
Qed.
End SendPacketFacts.

(** ** Sender: the window-filling loop *)

Section RefillFacts.
Variable native : byteorder.
Variable now : nat -> Z.
Variable window_size : Z.

Lemma extends_refl (st : sender) : extends window_size st st.
Proof.
  unfold extends. repeat split; try reflexivity; try lia.
  - exists []. split; [now rewrite app_nil_r | constructor].
  - exists []. now rewrite app_nil_r.
Qed.

Lemma extends_trans (st1 st2 st3 : sender) :
  extends window_size st1 st2 -> extends window_size st2 st3 ->
  extends window_size st1 st3.
Proof.
  intros (Hc1 & Hr1 & Hs1 & Hk1 & (n1 & Hw1 & Hn1) & (p1 & Hp1) & Ha1 & Hu1 & Hl1)
         (Hc2 & Hr2 & Hs2 & Hk2 & (n2 & Hw2 & Hn2) & (p2 & Hp2) & Ha2 & Hu2 & Hl2).
  unfold extends. repeat split; try congruence; try lia.
  - exists (n1 ++ n2). split; [rewrite Hw2, Hw1; now rewrite app_assoc|].
    apply Forall_app. split.
    + eapply Forall_impl; [exact Hn1|]. cbn. intros; lia.
    + eapply Forall_impl; [exact Hn2|]. cbn. intros; lia.
  - exists (p1 ++ p2). rewrite Hp2, Hp1. now rewrite app_assoc.
  - intros k Hk. rewrite Hu2 by lia. now apply Hu1.
Qed.

Lemma last_ack_print (e : log_event) (st : sender) :
  (forall t a, e <> LogAckReceived t a) ->
  last_ack (print e st) = last_ack st.
Proof.
  intros H. unfold last_ack. cbn [s_log print].
  rewrite last_ack_from_app. destruct e; try reflexivity.
  exfalso. eapply H. reflexivity.
Qed.

(** A call of [sendPacket] in the loop, whatever its result. *)
Lemma sendPacket_extends (retransmit : bool) (st : sender) :
  Z.of_nat (length (s_window st)) < window_size ->
  extends window_size st (sendPacket native now (s_seq_num st) retransmit st).2.
Proof.
  intros Hlen.
  destruct (sendPacket_cases native now (s_seq_num st) retransmit st);
    unfold extends; cbn [s_file s_retransmit s_seq_num s_clock s_window s_sent
                         s_unack_packets with_file with_window tick sendto print];
    rewrite ?last_ack_print by (destruct retransmit; discriminate);
    unfold last_ack;
    cbn [s_log with_file with_window tick sendto print file_after_chunk f_content].
  all: repeat split; try reflexivity; try lia.
  all: try (exists []; rewrite app_nil_r; first [split; [reflexivity|constructor] | reflexivity]).
  all: try (eexists; reflexivity).
  all: try (exists [s_seq_num st]; split; [reflexivity|]; constructor; [lia|constructor]).
  all: try (rewrite length_app; cbn [length]; lia).
Qed.

Lemma record_send_time_extends (st : sender) :
  extends window_size st
    (with_seq_num (s_seq_num st + 1) (record_send_time now (s_seq_num st) st)).
Proof.
  unfold extends, record_send_time.
  cbn [s_file s_retransmit s_seq_num s_clock s_window s_sent s_unack_packets
       with_seq_num with_unack_packets tick].
  repeat split; try reflexivity; try lia.
  - exists []. split; [now rewrite app_nil_r | constructor].
  - exists []. now rewrite app_nil_r.
  - intros k Hk. apply lookup_insert_ne. lia.
Qed.

(** Induction over the iterations of the loop. *)
Lemma refill_induction (P : sender -> result unit -> sender -> Prop) :
  (forall st, ~ Z.of_nat (length (s_window st)) < window_size -> P st (Ok tt) st) ->
  (forall st st1,
      Z.of_nat (length (s_window st)) < window_size ->
      sendPacket native now (s_seq_num st) (s_retransmit st) st = (Ok false, st1) ->
      P st (Ok tt) st1) ->
  (forall st e st1,
      Z.of_nat (length (s_window st)) < window_size ->
      sendPacket native now (s_seq_num st) (s_retransmit st) st = (Raise e, st1) ->
      P st (Raise e) st1) ->
  (forall st st1 res st',
      Z.of_nat (length (s_window st)) < window_size ->
      sendPacket native now (s_seq_num st) (s_retransmit st) st = (Ok true, st1) ->
      P (with_seq_num (s_seq_num st1 + 1)
           (record_send_time now (s_seq_num st1) st1)) res st' ->
      P st res st') ->
  forall fuel st res st',
    refill native now window_size fuel st = Some (res, st') -> P st res st'.
Proof.
  intros Hexit Hfalse Hraise Htrue.
  induction fuel as [|fuel IH]; intros st res st' H; [discriminate|].
  cbn [refill] in H.
  destruct (Z.of_nat (length (s_window st)) <? window_size) eqn:Hlt.
  - apply Z.ltb_lt in Hlt.
    destruct (sendPacket native now (s_seq_num st) (s_retransmit st) st)
      as [[[|]|e] st1] eqn:E.
    + eapply Htrue; [exact Hlt | exact E | apply IH; exact H].
    + inversion H; subst. now apply Hfalse.
    + inversion H; subst. now apply Hraise.
  - apply Z.ltb_ge in Hlt. inversion H; subst. apply Hexit. lia.
Qed.

Lemma refill_extends (fuel : nat) (st : sender) (res : result unit) (st' : sender) :
  refill native now window_size fuel st = Some (res, st') ->
  extends window_size st st'.
Proof.
  revert fuel st res st'.
  apply (refill_induction (fun st _ st' => extends window_size st st')).
  - intros st _. apply extends_refl.
  - intros st st1 Hlen E.
    pose proof (sendPacket_extends (s_retransmit st) st Hlen) as H.
    now rewrite E in H.
  - intros st e st1 Hlen E.
    pose proof (sendPacket_extends (s_retransmit st) st Hlen) as H.
    now rewrite E in H.
  - intros st st1 res st' Hlen E IH.
    pose proof (sendPacket_extends (s_retransmit st) st Hlen) as H.
    rewrite E in H. cbn [snd] in H.
    eapply extends_trans; [exact H|].
    eapply extends_trans; [apply record_send_time_extends | exact IH].
Qed.

(** The window members that are not below [seq_num]. *)
Lemma pending_step (seq_num : Z) (w : list Z) :
  (length (filter (fun m => (seq_num + 1 <= m)%Z) w)
   <= length (filter (fun m => (seq_num <= m)%Z) w))%nat /\
  (seq_num ∈ w ->
   (length (filter (fun m => (seq_num + 1 <= m)%Z) w)
    < length (filter (fun m => (seq_num <= m)%Z) w))%nat).
Proof.
  induction w as [|x w [IH1 IH2]].
  - split; [reflexivity|]. intros H. inversion H.
  - rewrite !filter_cons.
    destruct (decide (seq_num + 1 <= x)) as [H1|H1];
      destruct (decide (seq_num <= x)) as [H0|H0]; try lia; cbn [length].
    + split; [lia|]. intros Hin. apply elem_of_cons in Hin as [->|Hin]; [lia|].
      specialize (IH2 Hin). lia.
    + split; [lia|]. intros _. lia.
    + split; [lia|]. intros Hin. apply elem_of_cons in Hin as [->|Hin]; [lia|].
      specialize (IH2 Hin). lia.
Qed.

Lemma refill_enough_fuel (fuel : nat) (st : sender) :
  (0 < fuel)%nat ->
  (Z.of_nat (length (s_window st)) < window_size ->
   (Z.to_nat (window_size - Z.of_nat (length (s_window st)))
    + length (filter (fun m => (s_seq_num st <= m)%Z) (s_window st)) < fuel)%nat) ->
  exists r, refill native now window_size fuel st = Some r.
Proof.
  revert st. induction fuel as [|fuel IH]; intros st Hpos Hfuel; [lia|].
  cbn [refill].
  destruct (Z.of_nat (length (s_window st)) <? window_size) eqn:Hlt;
    [|eexists; reflexivity].
  apply Z.ltb_lt in Hlt. specialize (Hfuel Hlt).
  pose proof (sendPacket_cases native now (s_seq_num st) (s_retransmit st) st) as Hc.
  destruct (sendPacket native now (s_seq_num st) (s_retransmit st) st)
    as [[[|]|e] st1] eqn:E; try (eexists; reflexivity).
  cbn [fst snd] in Hc.
  destruct (pending_step (s_seq_num st) (s_window st)) as [Hle Hlt'].
  inversion Hc; subst; apply IH;
    cbn [s_window s_seq_num with_seq_num record_send_time tick
         with_unack_packets print sendto with_window with_file];
    try lia.
  - intros _. specialize (Hlt' ltac:(assumption)). lia.
  - rewrite length_app, filter_app. cbn [length].
    rewrite filter_cons_False by lia. rewrite filter_nil, app_nil_r. lia.
Qed.

(** The loop ends: [fill_window] always has a result. *)
Lemma fill_window_total (st : sender) :
  exists res st', fill_window native now window_size st = Some (res, st').
Proof.
  destruct (refill_enough_fuel (refill_fuel window_size) st) as [[res st'] H].
  - unfold refill_fuel. lia.
  - intros Hlt. unfold refill_fuel.
    pose proof (length_filter (fun m => s_seq_num st <= m) (s_window st)). lia.
  - exists res, st'. exact H.
Qed.

(** When the loop ends normally the window is full or the file has
    no chunk for the next sequence number. *)
Lemma refill_done (fuel : nat) (st : sender) (st' : sender) :
  refill native now window_size fuel st = Some (Ok tt, st') ->
  window_size <= Z.of_nat (length (s_window st')) \/
  ((s_seq_num st' ∉ s_window st') /\ at_end_of_file st' (s_seq_num st')).
Proof.
  revert fuel st st'.
  enough (forall fuel st res st',
             refill native now window_size fuel st = Some (res, st') ->
             res = Ok tt ->
             window_size <= Z.of_nat (length (s_window st')) \/
             ((s_seq_num st' ∉ s_window st') /\ at_end_of_file st' (s_seq_num st')))
    as H by (intros; eapply H; eauto).
  apply (refill_induction
           (fun st res st' =>
              res = Ok tt ->
              window_size <= Z.of_nat (length (s_window st')) \/
              ((s_seq_num st' ∉ s_window st') /\ at_end_of_file st' (s_seq_num st')))).
  - intros st Hlen _. left. lia.
  - intros st st1 Hlen E _. right.
    pose proof (sendPacket_cases native now (s_seq_num st) (s_retransmit st) st) as Hc.
    rewrite E in Hc. cbn [fst snd] in Hc. inversion Hc; subst.
    unfold at_end_of_file. cbn. auto.
  - intros st e st1 _ _ H. discriminate.
  - intros st st1 res st' _ _ IH Hres. exact (IH Hres).
Qed.

(** The loop keeps [in_flight] when it ends normally. *)
Lemma refill_in_flight (fuel : nat) (st : sender) (st' : sender) :
  refill native now window_size fuel st = Some (Ok tt, st') ->
  in_flight native st -> in_flight native st'.
Proof.
  revert fuel st st'.
  enough (forall fuel st res st',
             refill native now window_size fuel st = Some (res, st') ->
             res = Ok tt -> in_flight native st -> in_flight native st')
    as H by (intros; eapply H; eauto).
  apply (refill_induction
           (fun st res st' => res = Ok tt -> in_flight native st -> in_flight native st')).
  - intros st _ _ H. exact H.
  - intros st st1 Hlen E _ Hin.
    pose proof (sendPacket_cases native now (s_seq_num st) (s_retransmit st) st) as Hc.
    rewrite E in Hc. cbn [fst snd] in Hc. inversion Hc; subst. exact Hin.
  - intros st e st1 _ _ H. discriminate.
  - intros st st1 res st' Hlen E IH Hres Hin. apply (IH Hres). clear IH.
    destruct Hin as [Hseq Hall].
    pose proof (sendPacket_cases native now (s_seq_num st) (s_retransmit st) st) as Hc.
    rewrite E in Hc. cbn [fst snd] in Hc. inversion Hc; subst.
    + exfalso. match goal with H : s_seq_num st ∈ s_window st |- _ =>
        rewrite Forall_forall in Hall; specialize (Hall _ H) end. lia.
    + unfold in_flight, record_send_time.
      cbn [s_seq_num s_window s_file s_sent f_content with_seq_num tick
           with_unack_packets print sendto with_window with_file file_after_chunk].
      split; [lia|]. apply Forall_app. split.
      * eapply Forall_impl; [exact Hall|]. cbn.
        intros m [Hm (p & Hp & Hs)]. split; [lia|].
        exists p. split; [exact Hp|]. apply elem_of_app. now left.
      * constructor; [|constructor]. split; [lia|].
        eexists. split; [eassumption|]. apply elem_of_app. right.
        apply list_elem_of_singleton. reflexivity.
Qed.
End RefillFacts.

(** ** Sender: ACK processing and retransmission *)

Section ReactFacts.
Variable native : byteorder.
Variable now : nat -> Z.
Variable window_size : Z.

Lemma ack_filter_window (a : Z) (st : sender) :
  s_window (ack_filter a st) = filter (fun m => a < m) (s_window st).
Proof. reflexivity. Qed.

Lemma ack_filter_unack (a k : Z) (st : sender) :
  s_unack_packets (ack_filter a st) !! k =
  if decide (a < k) then s_unack_packets st !! k else None.
Proof.
  unfold ack_filter. cbn [s_unack_packets with_unack_packets with_window].
  destruct (decide (a < k)) as [H|H].
  - destruct (s_unack_packets st !! k) as [v|] eqn:E.
    + apply map_lookup_filter_Some. split; [exact E | exact H].
    + apply map_lookup_filter_None. left. exact E.
  - apply map_lookup_filter_None. right. intros v _. exact H.
Qed.

Lemma ack_filter_above (a : Z) (st : sender) :
  Forall (fun m => a < m) (s_window (ack_filter a st)).
Proof.
  rewrite ack_filter_window. apply Forall_forall.
  intros m Hm. apply list_elem_of_filter in Hm. tauto.
Qed.

Lemma ack_filter_length (a : Z) (st : sender) :
  (length (s_window (ack_filter a st)) <= length (s_window st))%nat.
Proof. rewrite ack_filter_window. apply length_filter. Qed.

Lemma ack_filter_in_flight (a : Z) (st : sender) :
  in_flight native st -> in_flight native (ack_filter a st).
Proof.
  intros [Hseq Hall]. split; [exact Hseq|].
  rewrite ack_filter_window. apply Forall_forall. intros m Hm.
  apply list_elem_of_filter in Hm as [_ Hm].
  rewrite Forall_forall in Hall. exact (Hall m Hm).
Qed.

Lemma last_ack_logged (t a : Z) (st : sender) :
  last_ack (print (LogAckReceived t a) st) = Some a.
Proof.
  unfold last_ack. cbn [s_log print]. rewrite last_ack_from_app. reflexivity.
Qed.

Lemma acked_window (a : Z) (st : sender) :
  s_window (acked now a st) = filter (fun m => a < m) (s_window st).
Proof. reflexivity. Qed.

Lemma acked_unack (a k : Z) (st : sender) :
  s_unack_packets (acked now a st) !! k =
  if decide (a < k) then s_unack_packets st !! k else None.
Proof. unfold acked. rewrite ack_filter_unack. reflexivity. Qed.

Lemma acked_seq_num (a : Z) (st : sender) :
  s_seq_num (acked now a st) = s_seq_num st.
Proof. reflexivity. Qed.

Lemma on_ack_unfold (a : Z) (st : sender) :
  on_ack native now window_size a st =
  match fill_window native now window_size (acked now a st) with
  | None => None
  | Some (Raise e, st') => Some (Crash e st')
  | Some (Ok _, st') => Some (Next st')
  end.
Proof. reflexivity. Qed.

(** [on_ack] always has a result, reached from [acked] by sending only. *)
Lemma on_ack_result (a : Z) (st : sender) :
  exists o,
    on_ack native now window_size a st = Some o /\
    extends window_size (acked now a st) (flow_state o) /\
    (forall st', o = Next st' ->
       (in_flight native st -> in_flight native st') /\
       (window_size <= Z.of_nat (length (s_window st')) \/
        ((s_seq_num st' ∉ s_window st') /\ at_end_of_file st' (s_seq_num st')))) /\
    (forall st', o <> Done st').
Proof.
  rewrite on_ack_unfold.
  destruct (fill_window_total native now window_size (acked now a st))
    as (res & st' & H).
  rewrite H. pose proof (refill_extends _ _ _ _ _ _ _ H) as Hext.
  destruct res as [[]|e].
  - eexists. split; [reflexivity|]. split; [exact Hext|]. split; [|discriminate].
    intros st'' [= <-]. split.
    + intros Hin. eapply refill_in_flight; [exact H|].
      apply ack_filter_in_flight. exact Hin.
    + eapply refill_done. exact H.
  - eexists. split; [reflexivity|]. split; [exact Hext|].
    split; discriminate.
Qed.

(** ** The loop of the timeout handler *)

Lemma retransmit_all_window (ws : list Z) (st : sender) :
  Forall (fun m => m ∈ s_window st) ws ->
  s_window (retransmit_all native now ws st).2 = s_window st.
Proof.
  revert st. induction ws as [|seq ws IH]; intros st Hall; [reflexivity|].
  apply Forall_cons in Hall as [Hin Hall]. cbn [retransmit_all].
  pose proof (sendPacket_cases native now seq
                (s_retransmit (with_retransmit true st))
                (with_retransmit true st)) as Hc.
  destruct (sendPacket native now seq _ (with_retransmit true st))
    as [[b|e] st1] eqn:E; cbn [fst snd] in Hc.
  - assert (s_window st1 = s_window st) as Hw.
    { inversion Hc; subst; cbn in *; try reflexivity; contradiction. }
    rewrite IH.
    + cbn. exact Hw.
    + cbn. rewrite Hw. exact Hall.
  - cbn [snd]. inversion Hc; subst; cbn in *; try reflexivity; contradiction.
Qed.

Lemma retransmit_all_in_flight (ws : list Z) (st : sender) :
  Forall (fun m =>
            m ∈ s_window st /\ 1 <= m /\
            exists packet,
              createPacket native m 0 0 (chunk (f_content (s_file st)) m)
                = Ok packet) ws ->
  exists st' packets,
    retransmit_all native now ws st = (Ok tt, st') /\
    s_window st' = s_window st /\
    s_seq_num st' = s_seq_num st /\
    f_content (s_file st') = f_content (s_file st) /\
    last_ack st' = last_ack st /\
    (s_clock st <= s_clock st')%nat /\
    s_sent st' = s_sent st ++ packets /\
    Forall2 (fun m packet =>
               createPacket native m 0 0 (chunk (f_content (s_file st)) m)
                 = Ok packet) ws packets /\
    (forall k, k ∈ ws ->
               exists t, (s_clock st <= t < s_clock st')%nat /\
                         s_unack_packets st' !! k = Some (now t)) /\
    (forall k, k ∉ ws -> s_unack_packets st' !! k = s_unack_packets st !! k).
Proof.
  revert st. induction ws as [|seq ws IH]; intros st Hall.
  - exists st, []. cbn [retransmit_all]. rewrite app_nil_r.
    repeat split; try reflexivity; try constructor.
    intros k Hk. inversion Hk.
  - apply Forall_cons in Hall as [(Hin & Hpos & packet & Hp) Hall].
    cbn [retransmit_all].
    rewrite (sendPacket_member native now seq _ packet) by assumption.
    cbn [s_retransmit with_retransmit].
    set (st1 := record_send_time now seq _).
    assert (last_ack st1 = last_ack st) as Hlast.
    { subst st1. unfold last_ack. cbn. now rewrite last_ack_from_app. }
    destruct (IH st1) as (st' & packets & Hrun & Hw & Hs & Hc & Ha & Hk & Hsent & Hf & Hu & Hn).
    { eapply Forall_impl; [exact Hall|]. cbn. intros m H. exact H. }
    exists st', (packet :: packets). rewrite Hrun.
    rewrite Hlast in Ha. clear Hlast.
    subst st1. unfold record_send_time in *.
    cbn [s_window s_seq_num s_file s_sent s_clock s_unack_packets f_content
         tick with_unack_packets print sendto with_file with_retransmit
         file_after_chunk] in *.
    repeat split; try assumption; try lia.
    + rewrite Hsent, <- app_assoc. reflexivity.
    + constructor; assumption.
    + intros k Hk'. destruct (decide (k ∈ ws)) as [Hkw|Hkw].
      * destruct (Hu k Hkw) as (t & Ht & Hl). exists t. split; [lia | exact Hl].
      * apply elem_of_cons in Hk' as [->|Hk']; [|contradiction].
        exists (S (s_clock st)). split; [lia|].
        rewrite (Hn seq Hkw). apply lookup_insert_eq.
    + intros k Hk'. apply not_elem_of_cons in Hk' as [Hne Hkw].
      rewrite (Hn k Hkw). apply lookup_insert_ne. congruence.
Qed.

(** What the timeout handler does in a state whose window members
    are all in flight. *)
Lemma on_timeout_in_flight (st : sender) :
  in_flight native st ->
  exists st' packets,
    on_timeout native now st = Next st' /\
    s_window st' = s_window st /\
    s_seq_num st' = s_seq_num st /\
    f_content (s_file st') = f_content (s_file st) /\
    last_ack st' = last_ack st /\
    s_sent st' = s_sent st ++ packets /\
    Forall2 (fun m packet =>
               createPacket native m 0 0 (chunk (f_content (s_file st)) m)
                 = Ok packet) (s_window st) packets /\
    (forall k, k ∈ s_window st ->
               exists t, (s_clock st < t)%nat /\
                         s_unack_packets st' !! k = Some (now t)) /\
    (forall k, k ∉ s_window st ->
               s_unack_packets st' !! k = s_unack_packets st !! k).
Proof.
  intros [Hseq Hall]. unfold on_timeout.
  set (st0 := print (LogRTO (now (s_clock st))) (tick st)).
  destruct (retransmit_all_in_flight (s_window st0) st0)
    as (st' & packets & Hrun & Hw & Hs & Hc & Ha & Hk & Hsent & Hf & Hu & Hn).
  { subst st0. cbn [s_window print tick s_file].
    apply Forall_forall. intros m Hm.
    rewrite Forall_forall in Hall. destruct (Hall m Hm) as [Hr (p & Hp & _)].
    split; [exact Hm|]. split; [lia|]. exists p. exact Hp. }
  rewrite Hrun. exists (with_retransmit false st'), packets.
  assert (last_ack st0 = last_ack st) as Hl
      by (subst st0; rewrite last_ack_print by discriminate; reflexivity).
  subst st0.
  cbn [s_window s_seq_num s_file s_sent s_clock s_unack_packets print tick
       with_retransmit] in *.
  split; [reflexivity|]. repeat split; try assumption; try congruence.
  - change (last_ack (with_retransmit false st')) with (last_ack st'). congruence.
  - intros k Hkw. destruct (Hu k Hkw) as (t & Ht & Hlk). exists t. split; [lia|exact Hlk].
Qed.

(** ** One iteration and the whole loop *)

Lemma fill_or_finish_result (st : sender) :
  exists o,
    fill_or_finish native now window_size st = Some o /\
    extends window_size st (flow_state o) /\
    (forall st', o = Next st' ->
                 s_window st' <> [] /\ (in_flight native st -> in_flight native st')) /\
    (forall st', o = Done st' ->
                 s_window st' = [] /\ (in_flight native st -> in_flight native st')).
Proof.
  unfold fill_or_finish.
  destruct (fill_window_total native now window_size st) as (res & st' & H).
  rewrite H. pose proof (refill_extends _ _ _ _ _ _ _ H) as Hext.
  destruct res as [[]|e].
  - destruct (decide (s_window st' = [])) as [He|Hne].
    + rewrite bool_decide_eq_true_2 by exact He.
      eexists. split; [reflexivity|]. cbn [flow_state].
      split; [|split; [discriminate|]].
      * eapply extends_trans; [exact Hext|].
        unfold extends.
        rewrite last_ack_print by discriminate. cbn.
        repeat split; try reflexivity; try lia.
        -- exists []. split; [now rewrite app_nil_r|constructor].
        -- exists []. now rewrite app_nil_r.
      * intros st'' [= <-]. split; [exact He|]. intros Hin.
        pose proof (refill_in_flight _ _ _ _ _ _ H Hin) as [Hs Hall].
        split; [exact Hs | exact Hall].
    + rewrite bool_decide_eq_false_2 by exact Hne.
      eexists. split; [reflexivity|]. split; [exact Hext|].
      split; [|discriminate]. intros st'' [= <-]. split; [exact Hne|].
      eapply refill_in_flight. exact H.
  - eexists. split; [reflexivity|]. split; [exact Hext|]. split; discriminate.
Qed.

Lemma react_result (ev : recv_event) (st : sender) :
  exists o, react native now window_size ev st = Some o.
Proof.
  destruct ev as [response| | |]; cbn [react]; try (eexists; reflexivity).
  destruct (parsePacket native response) as [[[[? a] flags] ?]|e];
    [|eexists; reflexivity].
  destruct (truthy (Z.land flags FLAGS_ACK)); [|eexists; reflexivity].
  destruct (on_ack_result a st) as (o & H & _). exists o. exact H.
Qed.

Lemma extends_bounded (st st' : sender) :
  extends window_size st st' ->
  window_bounded window_size st -> window_bounded window_size st'.
Proof.
  intros (_ & _ & _ & _ & _ & _ & _ & _ & Hl). unfold window_bounded. lia.
Qed.

Lemma extends_member (st st' : sender) (m : Z) :
  extends window_size st st' -> m ∈ s_window st -> m ∈ s_window st'.
Proof.
  intros (_ & _ & _ & _ & (new & Hw & _) & _) Hm.
  rewrite Hw. apply elem_of_app. now left.
Qed.

Lemma extends_above (st st' : sender) :
  extends window_size st st' ->
  acked_below st -> above_last_ack st ->
  acked_below st' /\ above_last_ack st'.
Proof.
  intros (_ & _ & Hs & _ & (new & Hw & Hnew) & _ & Ha & _) Hb Hab.
  split.
  - intros a Hl. rewrite Ha in Hl. specialize (Hb a Hl). lia.
  - intros a Hl. rewrite Ha in Hl. rewrite Hw. apply Forall_app. split.
    + exact (Hab a Hl).
    + specialize (Hb a Hl). eapply Forall_impl; [exact Hnew|]. cbn. intros; lia.
Qed.

Lemma acked_in_range (a : Z) (st : sender) :
  a < s_seq_num st ->
  acked_below (acked now a st) /\ above_last_ack (acked now a st).
Proof.
  intros Hr. unfold acked_below, above_last_ack, acked.
  assert (last_ack (ack_filter a (print (LogAckReceived (now (s_clock st)) a) (tick st)))
          = Some a) as Hl by apply last_ack_logged.
  rewrite Hl. split.
  - intros a' [= <-]. exact Hr.
  - intros a' [= <-]. apply ack_filter_above.
Qed.

Lemma acked_bounded (a : Z) (st : sender) :
  window_bounded window_size st -> window_bounded window_size (acked now a st).
Proof.
  unfold window_bounded. intros H.
  pose proof (ack_filter_length a
                (print (LogAckReceived (now (s_clock st)) a) (tick st))) as Hl.
  unfold acked. cbn [s_window print tick] in Hl. lia.
Qed.

(** An iteration keeps the window within bounds and its members in
    flight. *)
Lemma react_keeps_in_flight (ev : recv_event) (st st' : sender) :
  in_flight native st -> window_bounded window_size st ->
  react native now window_size ev st = Some (Next st') ->
  in_flight native st' /\ window_bounded window_size st' /\
  f_content (s_file st') = f_content (s_file st).
Proof.
  intros Hin Hb H. destruct ev as [response| | |]; cbn [react] in H;
    try discriminate.
  - destruct (parsePacket native response) as [[[[? a] flags] ?]|e];
      [|discriminate].
    destruct (truthy (Z.land flags FLAGS_ACK)).
    + destruct (on_ack_result a st) as (o & Ho & Hext & Hnext & _).
      rewrite Ho in H. injection H as ->. cbn [flow_state] in Hext.
      destruct (Hnext st' eq_refl) as [Hfl _]. split; [exact (Hfl Hin)|].
      split; [eapply extends_bounded; [exact Hext|]; now apply acked_bounded|].
      destruct Hext as [Hc _]. exact Hc.
    + injection H as <-. auto.
  - destruct (on_timeout_in_flight st Hin)
      as (st2 & packets & Hrun & Hw & Hs & Hc & _ & Hsent & Hf & _).
    rewrite Hrun in H. injection H as <-. split; [|split].
    + destruct Hin as [Hseq Hall]. split; [lia|]. rewrite Hw, Hs, Hc.
      eapply Forall_impl; [exact Hall|]. cbn.
      intros m [Hm (p & Hp & Hps)]. split; [exact Hm|].
      exists p. split; [exact Hp|]. rewrite Hsent. apply elem_of_app. now left.
    + unfold window_bounded in *. now rewrite Hw.
    + exact Hc.
Qed.

(** With ACKs in range an iteration keeps the window above the most
    recent ack number. *)
Lemma react_keeps_above (ev : recv_event) (st st' : sender) :
  in_flight native st ->
  acked_below st -> above_last_ack st ->
  ack_in_range native ev st ->
  react native now window_size ev st = Some (Next st') ->
  acked_below st' /\ above_last_ack st'.
Proof.
  intros Hin Hb Hab Hr H. destruct ev as [response| | |]; cbn [react] in H;
    try discriminate.
  - cbn [ack_in_range] in Hr.
    destruct (parsePacket native response) as [[[[? a] flags] ?]|e];
      [|discriminate].
    destruct (truthy (Z.land flags FLAGS_ACK)).
    + destruct (on_ack_result a st) as (o & Ho & Hext & _).
      rewrite Ho in H. injection H as ->. cbn [flow_state] in Hext.
      destruct (acked_in_range a st (Hr eq_refl)) as [H1 H2].
      eapply extends_above; eassumption.
    + injection H as <-. auto.
  - destruct (on_timeout_in_flight st Hin)
      as (st2 & packets & Hrun & Hw & Hs & _ & Ha & _).
    rewrite Hrun in H. injection H as <-.
    unfold acked_below, above_last_ack. rewrite Ha, Hw, Hs. auto.
Qed.

(** A window member leaves the window only when an ACK with an ack
    number at or above it is processed. *)
Lemma react_removes_by_ack (ev : recv_event) (st : sender) (o : flow sender) (m : Z) :
  react native now window_size ev st = Some o ->
  m ∈ s_window st -> m ∉ s_window (flow_state o) ->
  exists response seq_num ack_num flags data,
    ev = Datagram response /\
    parsePacket native response = Ok (seq_num, ack_num, flags, data) /\
    truthy (Z.land flags FLAGS_ACK) = true /\
    m <= ack_num.
Proof.
  intros H Hm Hgone. destruct ev as [response| | |]; cbn [react] in H.
  - destruct (parsePacket native response) as [[[[sq a] flags] data]|e] eqn:Ep.
    + destruct (truthy (Z.land flags FLAGS_ACK)) eqn:Et.
      * exists response, sq, a, flags, data. repeat split; try assumption.
        destruct (on_ack_result a st) as (o' & Ho & Hext & _).
        rewrite Ho in H. injection H as ->.
        destruct (decide (m <= a)) as [Hle|Hgt]; [exact Hle|]. exfalso.
        apply Hgone. eapply extends_member; [exact Hext|].
        rewrite acked_window. apply list_elem_of_filter.
        split; [lia | exact Hm].
      * injection H as <-. contradiction.
    + injection H as <-. contradiction.
  - injection H as <-. exfalso. apply Hgone. unfold on_timeout.
    pose proof (retransmit_all_window
                  (s_window (print (LogRTO (now (s_clock st))) (tick st)))
                  (print (LogRTO (now (s_clock st))) (tick st))) as Hw.
    destruct (retransmit_all native now _ _) as [[[]|e] st1]; cbn [snd] in Hw;
      cbn [flow_state with_retransmit s_window];
      (rewrite Hw; [exact Hm | apply Forall_forall; auto]).
  - injection H as <-. contradiction.
  - injection H as <-. contradiction.
Qed.

Lemma initial_sender_in_flight (content : bytes) :
  in_flight native (initial_sender content) /\
  window_bounded window_size (initial_sender content) /\
  acked_below (initial_sender content) /\
  above_last_ack (initial_sender content).
Proof.
  unfold in_flight, window_bounded, acked_below, above_last_ack.
  cbn. repeat split; try lia; try constructor; discriminate.
Qed.

Lemma established_loop_in_flight (evs : list recv_event) (st st' : sender) :
  in_flight native st -> window_bounded window_size st ->
  established_loop native now window_size evs st = Some (Next st') ->
  in_flight native st' /\ window_bounded window_size st' /\
  f_content (s_file st') = f_content (s_file st).
Proof.
  revert st. induction evs as [|ev evs IH]; intros st Hin Hb H.
  - injection H as <-. auto.
  - cbn [established_loop] in H. unfold established_iter in H.
    destruct (fill_or_finish_result st) as (o & Ho & Hext & Hnext & _).
    rewrite Ho in H. destruct o as [st1| |]; try discriminate.
    cbn [flow_state] in Hext.
    destruct (Hnext st1 eq_refl) as [_ Hin1]. specialize (Hin1 Hin).
    pose proof (extends_bounded _ _ Hext Hb) as Hb1.
    destruct (react native now window_size ev st1) as [[st2| |]|] eqn:Er;
      try discriminate.
    destruct (react_keeps_in_flight _ _ _ Hin1 Hb1 Er) as (Hin2 & Hb2 & Hc2).
    destruct (IH st2 Hin2 Hb2 H) as (Hin' & Hb' & Hc').
    split; [exact Hin'|]. split; [exact Hb'|].
    destruct Hext as [Hc1 _]. congruence.
Qed.

Lemma established_loop_above (evs : list recv_event) (st st' : sender) :
  in_flight native st -> window_bounded window_size st ->
  acked_below st -> above_last_ack st ->
  acks_in_range native now window_size evs st ->
  established_loop native now window_size evs st = Some (Next st') ->
  acked_below st' /\ above_last_ack st'.
Proof.
  revert st. induction evs as [|ev evs IH]; intros st Hin Hb Hlow Hab Hr H.
  - injection H as <-. auto.
  - cbn [established_loop] in H. unfold established_iter in H.
    cbn [acks_in_range] in Hr.
    destruct (fill_or_finish_result st) as (o & Ho & Hext & Hnext & _).
    rewrite Ho in H, Hr. destruct o as [st1| |]; try discriminate.
    cbn [flow_state] in Hext. destruct Hr as [Hr1 Hr].
    destruct (Hnext st1 eq_refl) as [_ Hin1]. specialize (Hin1 Hin).
    pose proof (extends_bounded _ _ Hext Hb) as Hb1.
    destruct (extends_above _ _ Hext Hlow Hab) as [Hlow1 Hab1].
    destruct (react native now window_size ev st1) as [[st2| |]|] eqn:Er;
      try discriminate.
    destruct (react_keeps_in_flight _ _ _ Hin1 Hb1 Er) as (Hin2 & Hb2 & _).
    destruct (react_keeps_above _ _ _ Hin1 Hlow1 Hab1 Hr1 Er) as [Hlow2 Hab2].
    exact (IH st2 Hin2 Hb2 Hlow2 Hab2 Hr H).
Qed.
End ReactFacts.

(** ** Sender: what the window-filling loop sends *)

Section RefillSends.
Variable native : byteorder.
Variable now : nat -> Z.
Variable window_size : Z.

(** The window-filling loop started where every window member is below
    the next sequence number: it sends the packets of the next [c]
    chunks, one after the other, appends their sequence numbers to the
    window and records their send times.  It ends when the window has
    [window_size] members or the file has no chunk for the next
    sequence number; or with [struct.error] when that sequence number
    is 65536 or more, which [sendPacket] appends to the window before
    [createPacket] fails. *)
Lemma refill_sends (fuel : nat) (st : sender) (res : result unit) (st' : sender) :
  refill native now window_size fuel st = Some (res, st') ->
  1 <= s_seq_num st ->
  Forall (fun m => m < s_seq_num st) (s_window st) ->
  exists (c : nat) (packets : list bytes),
    Forall2 (fun m packet =>
               chunk (f_content (s_file st)) m <> [] /\
               createPacket native m 0 0 (chunk (f_content (s_file st)) m)
               = Ok packet)
            (seqZ (s_seq_num st) (Z.of_nat c)) packets /\
    s_sent st' = s_sent st ++ packets /\
    s_seq_num st' = s_seq_num st + Z.of_nat c /\
    (forall m, s_seq_num st <= m < s_seq_num st + Z.of_nat c ->
               exists t, s_unack_packets st' !! m = Some (now t)) /\
    (forall k, k < s_seq_num st ->
               s_unack_packets st' !! k = s_unack_packets st !! k) /\
    match res with
    | Ok _ =>
        s_window st' = s_window st ++ seqZ (s_seq_num st) (Z.of_nat c) /\
        (c = O \/ Z.of_nat (length (s_window st')) <= window_size) /\
        (window_size <= Z.of_nat (length (s_window st')) \/
         chunk (f_content (s_file st)) (s_seq_num st') = [])
    | Raise e =>
        e = StructError /\
        65536 <= s_seq_num st' /\
        chunk (f_content (s_file st)) (s_seq_num st') <> [] /\
        s_window st'
        = s_window st ++ seqZ (s_seq_num st) (Z.of_nat c) ++ [s_seq_num st'] /\
        Z.of_nat (length (s_window st)) + Z.of_nat c < window_size
    end.
Proof.
  intros H. pattern st, res, st'. revert fuel st res st' H.
  apply (refill_induction native now window_size).
  - intros st Hfull _ _. exists O, []. cbn [Z.of_nat].
    rewrite seqZ_nil by lia. rewrite !app_nil_r, Z.add_0_r.
    split; [constructor|]. split; [reflexivity|]. split; [reflexivity|].
    split; [intros m Hm; lia|]. split; [reflexivity|].
    split; [reflexivity|]. split; [now left | left; lia].
  - intros st st1 Hroom E _ _.
    pose proof (sendPacket_cases native now (s_seq_num st) (s_retransmit st) st)
      as Hc.
    rewrite E in Hc. cbn [fst snd] in Hc.
    inversion Hc as [|Hnot _ Hempty Er Est| | | |]; subst st1; clear Hc E.
    exists O, []. cbn [Z.of_nat].
    rewrite seqZ_nil by lia. rewrite !app_nil_r, Z.add_0_r.
    cbn [s_sent s_seq_num s_window s_unack_packets with_file].
    split; [constructor|]. split; [reflexivity|]. split; [reflexivity|].
    split; [intros m Hm; lia|]. split; [reflexivity|].
    split; [reflexivity|]. split; [now left | right; exact Hempty].
  - intros st e st1 Hroom E Hseq Hbelow.
    pose proof (sendPacket_cases native now (s_seq_num st) (s_retransmit st) st)
      as Hc.
    rewrite E in Hc. cbn [fst snd] in Hc.
    inversion Hc as [Hlow Er Est| | |
                     |Hin Hbig Er Est|Hnot Hbig Hne Er Est];
      try subst st1; try subst e; clear Hc E.
    + lia.
    + rewrite Forall_forall in Hbelow. specialize (Hbelow _ Hin). lia.
    + exists O, []. cbn [Z.of_nat].
      rewrite seqZ_nil by lia. rewrite !app_nil_r, Z.add_0_r.
      cbn [s_sent s_seq_num s_window s_unack_packets with_file with_window tick
           app].
      split; [constructor|]. split; [reflexivity|]. split; [reflexivity|].
      split; [intros m Hm; lia|]. split; [reflexivity|].
      split; [reflexivity|]. split; [exact Hbig|]. split; [exact Hne|].
      split; [reflexivity | lia].
  - intros st st1 res st' Hroom E IH Hseq Hbelow.
    pose proof (sendPacket_cases native now (s_seq_num st) (s_retransmit st) st)
      as Hc.
    rewrite E in Hc. cbn [fst snd] in Hc.
    inversion Hc as [| |packet Hin _ _ Hp Er Est
                     |packet Hnot _ Hsmall Hne Hp Er Est| |];
      subst st1; clear Hc E.
    { rewrite Forall_forall in Hbelow. specialize (Hbelow _ Hin). lia. }
    unfold record_send_time in IH.
    cbn [s_sent s_seq_num s_window s_unack_packets s_file s_clock f_content
         with_file with_window with_seq_num with_unack_packets tick sendto print
         file_after_chunk] in IH.
    destruct IH as (c & packets & Hf & Hsent & Hnum & Htimes & Hold & Hres).
    { lia. }
    { apply Forall_app. split.
      - eapply Forall_impl; [exact Hbelow|]. cbn. intros m Hm. lia.
      - constructor; [lia | constructor]. }
    exists (S c), (packet :: packets).
    assert (seqZ (s_seq_num st) (Z.of_nat (S c))
            = s_seq_num st :: seqZ (s_seq_num st + 1) (Z.of_nat c)) as Hseqz.
    { rewrite seqZ_cons by lia. f_equal. f_equal; lia. }
    rewrite Hseqz.
    split; [constructor; [split; assumption | exact Hf]|].
    split; [rewrite Hsent, <- app_assoc; reflexivity|].
    split; [lia|].
    split.
    { intros m Hm. destruct (decide (m = s_seq_num st)) as [->|Hne'].
      - rewrite Hold by lia. rewrite lookup_insert_eq. eauto.
      - apply Htimes. lia. }
    split.
    { intros k Hk. rewrite Hold by lia. apply lookup_insert_ne. lia. }
    destruct res as [[]|e].
    + destruct Hres as (Hw & Hfill & Hend).
      split; [rewrite Hw, <- app_assoc; reflexivity|].
      split; [right|exact Hend].
      destruct Hfill as [->|Hle]; [|exact Hle].
      rewrite Hw. cbn [Z.of_nat]. rewrite seqZ_nil by lia.
      rewrite app_nil_r, length_app. cbn [length]. lia.
    + destruct Hres as (He & Hbig & Hne' & Hw & Hlt).
      split; [exact He|]. split; [exact Hbig|]. split; [exact Hne'|].
      split; [rewrite Hw, <- app_assoc; reflexivity|].
      rewrite length_app in Hlt. cbn [length] in Hlt. lia.
Qed.

(** What the handler of an ACK does, for a sender whose window members
    are all below its next sequence number: the filter, then
    [refill_sends] from the filtered state. *)
Lemma on_ack_refills (a : Z) (st : sender) :
  1 <= s_seq_num st ->
  Forall (fun m => m < s_seq_num st) (s_window st) ->
  exists (o : flow sender) (c : nat) (packets : list bytes),
    on_ack native now window_size a st = Some o /\
    Forall2 (fun m packet =>
               chunk (f_content (s_file st)) m <> [] /\
               createPacket native m 0 0 (chunk (f_content (s_file st)) m)
               = Ok packet)
            (seqZ (s_seq_num st) (Z.of_nat c)) packets /\
    s_sent (flow_state o) = s_sent st ++ packets /\
    s_seq_num (flow_state o) = s_seq_num st + Z.of_nat c /\
    (forall m, s_seq_num st <= m < s_seq_num st + Z.of_nat c ->
               exists t, s_unack_packets (flow_state o) !! m = Some (now t)) /\
    (forall k, k < s_seq_num st ->
               s_unack_packets (flow_state o) !! k =
               if decide (a < k) then s_unack_packets st !! k else None) /\
    ((exists st',
         o = Next st' /\
         s_window st' = filter (fun m => a < m) (s_window st)
                          ++ seqZ (s_seq_num st) (Z.of_nat c) /\
         (c = O \/ Z.of_nat (length (s_window st')) <= window_size) /\
         (window_size <= Z.of_nat (length (s_window st')) \/
          chunk (f_content (s_file st)) (s_seq_num st') = [])) \/
     (exists st',
         o = Crash StructError st' /\
         65536 <= s_seq_num st' /\
         chunk (f_content (s_file st)) (s_seq_num st') <> [] /\
         s_window st' = filter (fun m => a < m) (s_window st)
                          ++ seqZ (s_seq_num st) (Z.of_nat c)
                          ++ [s_seq_num st'] /\
         Z.of_nat (length (filter (fun m => a < m) (s_window st)))
         + Z.of_nat c < window_size)).
Proof.
  intros Hseq Hbelow. rewrite on_ack_unfold.
  destruct (fill_window_total native now window_size (acked now a st))
    as (res & st' & E).
  rewrite E.
  destruct (refill_sends _ _ _ _ E) as (c & packets & Hf & Hsent & Hnum & Htimes & Hold & Hres).
  { exact Hseq. }
  { rewrite acked_window. apply Forall_forall. intros m Hm.
    apply list_elem_of_filter in Hm as [_ Hm].
    rewrite Forall_forall in Hbelow. exact (Hbelow m Hm). }
  rewrite acked_seq_num, acked_window in *.
  change (f_content (s_file (acked now a st))) with (f_content (s_file st)) in *.
  change (s_sent (acked now a st)) with (s_sent st) in Hsent.
  destruct res as [[]|e].
  - exists (Next st'), c, packets. cbn [flow_state].
    split; [reflexivity|]. split; [exact Hf|]. split; [exact Hsent|].
    split; [exact Hnum|]. split; [exact Htimes|].
    split; [intros k Hk; rewrite (Hold k Hk); apply acked_unack|].
    left. exists st'. split; [reflexivity | exact Hres].
  - destruct Hres as (-> & Hres).
    exists (Crash StructError st'), c, packets. cbn [flow_state].
    split; [reflexivity|]. split; [exact Hf|]. split; [exact Hsent|].
    split; [exact Hnum|]. split; [exact Htimes|].
    split; [intros k Hk; rewrite (Hold k Hk); apply acked_unack|].
    right. exists st'. split; [reflexivity | exact Hres].
Qed.

(** A file of at most 65535 chunks has no chunk for a sequence number
    of 65536 or more. *)
Lemma no_chunk_past_limit (content : bytes) (m : Z) :
  chunk_count content <= 65535 -> 65536 <= m -> chunk content m = [].
Proof.
  intros Hc Hm. apply chunk_past_end. unfold chunk_count, DATA_SIZE in *.
  Z.div_mod_to_equations. lia.
Qed.
End RefillSends.

(** ** Sender: the properties of the data-transfer loop *)

Section SenderProperties.
Variable native : byteorder.
Variable now : nat -> Z.
Variable window_size : Z.

(** C1, amended. When the loop receives a packet with the ACK flag set
    and ack number [ack_num], the ACK is cumulative: at line 337 the
    window is the old window without its members at or below [ack_num]
    (the members above stay, in their order), and the send-time map has
    lost exactly the keys at or below [ack_num]; no sequence number at
    or below [ack_num] that was sent before is in the window or in the
    send-time map afterwards.  The loop of lines 340-349 then refills
    the window.  Where the window members are all below the next
    sequence number, which is at least 1 (so wherever the loop calls
    [recvfrom], by the last but one part), it sends the data
    packets of the next [c] chunks, appends their sequence numbers to
    the window and records their send times, and it stops when the
    window has [window_size] members or the file has no chunk for the
    next sequence number.  That is how it ends for every file of at
    most 65535 chunks.  For a larger file the refill can reach sequence
    number 65536, which does not fit the 16-bit header field: then
    [sendPacket] appends it to the window, [createPacket] raises
    [struct.error] and nothing is sent for it, so that fewer than
    [window_size] window members have been sent.  For the window 3, 4,
    5, 6 and ack number 4 the members kept are 5 and 6. *)
Theorem cumulative_ack (st : sender) (response : bytes)
        (seq_num ack_num flags : Z) (data : bytes) :
  parsePacket native response = Ok (seq_num, ack_num, flags, data) ->
  truthy (Z.land flags FLAGS_ACK) = true ->
  exists o,
    react native now window_size (Datagram response) st = Some o /\
    (forall st', o <> Done st') /\
    s_window (acked now ack_num st)
      = filter (fun m => ack_num < m) (s_window st) /\
    (forall m, m ∈ s_window st -> m <= ack_num ->
               m ∉ s_window (acked now ack_num st)) /\
    (forall m, m ∈ s_window st -> ack_num < m ->
               m ∈ s_window (acked now ack_num st) /\
               m ∈ s_window (flow_state o)) /\
    (forall k, s_unack_packets (acked now ack_num st) !! k =
               if decide (ack_num < k) then s_unack_packets st !! k else None) /\
    (exists new,
        s_window (flow_state o) = s_window (acked now ack_num st) ++ new /\
        Forall (fun m => s_seq_num st <= m <= s_seq_num (flow_state o)) new) /\
    (forall k, k < s_seq_num st ->
               s_unack_packets (flow_state o) !! k =
               s_unack_packets (acked now ack_num st) !! k) /\
    (forall m, m <= ack_num -> m < s_seq_num st ->
               (m ∉ s_window (flow_state o)) /\
               s_unack_packets (flow_state o) !! m = None) /\
    Z.of_nat (length (s_window (flow_state o))) <=
      Z.max (Z.of_nat (length (s_window (acked now ack_num st)))) window_size /\
    (forall st', o = Next st' ->
                 window_size <= Z.of_nat (length (s_window st')) \/
                 ((s_seq_num st' ∉ s_window st') /\
                  at_end_of_file st' (s_seq_num st'))) /\
    (1 <= s_seq_num st ->
     Forall (fun m => m < s_seq_num st) (s_window st) ->
     exists (c : nat) (packets : list bytes),
       Forall2 (fun m packet =>
                  chunk (f_content (s_file st)) m <> [] /\
                  createPacket native m 0 0 (chunk (f_content (s_file st)) m)
                  = Ok packet)
               (seqZ (s_seq_num st) (Z.of_nat c)) packets /\
       s_sent (flow_state o) = s_sent st ++ packets /\
       s_seq_num (flow_state o) = s_seq_num st + Z.of_nat c /\
       (forall m, s_seq_num st <= m < s_seq_num st + Z.of_nat c ->
                  exists t, s_unack_packets (flow_state o) !! m = Some (now t)) /\
       ((exists st',
            o = Next st' /\
            s_window st' = filter (fun m => ack_num < m) (s_window st)
                             ++ seqZ (s_seq_num st) (Z.of_nat c) /\
            (c = O \/ Z.of_nat (length (s_window st')) <= window_size) /\
            (window_size <= Z.of_nat (length (s_window st')) \/
             chunk (f_content (s_file st)) (s_seq_num st') = [])) \/
        (exists st',
            o = Crash StructError st' /\
            65536 <= s_seq_num st' /\
            chunk (f_content (s_file st)) (s_seq_num st') <> [] /\
            s_window st' = filter (fun m => ack_num < m) (s_window st)
                             ++ seqZ (s_seq_num st) (Z.of_nat c)
                             ++ [s_seq_num st'] /\
            Z.of_nat (length (filter (fun m => ack_num < m) (s_window st)))
            + Z.of_nat c < window_size)) /\
       (chunk_count (f_content (s_file st)) <= 65535 -> exists st', o = Next st')) /\
    (forall content evs st0,
        established_loop native now window_size evs (initial_sender content)
        = Some (Next st0) ->
        fill_or_finish native now window_size st0 = Some (Next st) ->
        1 <= s_seq_num st /\
        Forall (fun m => m < s_seq_num st) (s_window st)) /\
    (s_window st = [3; 4; 5; 6] -> ack_num = 4 ->
     s_window (acked now ack_num st) = [5; 6] /\
     exists new, s_window (flow_state o) = [5; 6] ++ new).
Proof.
  intros Hparse Hack. cbn [react]. rewrite Hparse, Hack.
  destruct (on_ack_result native now window_size ack_num st)
    as (o & Ho & Hext & Hnext & Hnd).
  exists o. split; [exact Ho|]. split; [exact Hnd|].
  pose proof Hext as (_ & _ & _ & _ & (new & Hw & Hnew) & _ & _ & Hu & Hlen).
  rewrite acked_seq_num in Hnew, Hu.
  split; [apply acked_window|].
  split.
  { intros m _ Hle Hin. rewrite acked_window in Hin.
    apply list_elem_of_filter in Hin. lia. }
  split.
  { intros m Hm Hgt.
    assert (m ∈ s_window (acked now ack_num st)) as Hin.
    { rewrite acked_window. apply list_elem_of_filter.
      split; [exact Hgt | exact Hm]. }
    split; [exact Hin|]. eapply extends_member; eassumption. }
  split; [intros k; apply acked_unack|].
  split; [exists new; split; [exact Hw | exact Hnew]|].
  split; [exact Hu|].
  split.
  { intros m Hle Hlt. split.
    - rewrite Hw. intros Hin. apply elem_of_app in Hin as [Hin|Hin].
      + rewrite acked_window in Hin. apply list_elem_of_filter in Hin. lia.
      + rewrite Forall_forall in Hnew. specialize (Hnew m Hin). lia.
    - rewrite (Hu m Hlt), acked_unack. apply decide_False. lia. }
  split; [exact Hlen|].
  split; [intros st' ->; exact (proj2 (Hnext st' eq_refl))|].
  split.
  { intros Hseq Hbelow.
    destruct (on_ack_refills native now window_size ack_num st Hseq Hbelow)
      as (o' & c & packets & Ho' & Hf & Hsent & Hnum & Htimes & _ & Hend).
    assert (o' = o) as -> by congruence.
    exists c, packets.
    split; [exact Hf|]. split; [exact Hsent|]. split; [exact Hnum|].
    split; [exact Htimes|]. split; [exact Hend|].
    intros Hcount.
    destruct Hend as [(st' & -> & _)|(st' & -> & Hbig & Hne & _)];
      [eexists; reflexivity|].
    exfalso. apply Hne. now apply no_chunk_past_limit. }
  split.
  { intros content evs st0 Hrun Hfill.
    destruct (initial_sender_in_flight native window_size content)
      as (Hin0 & Hb0 & _).
    destruct (established_loop_in_flight native now window_size evs _ _
                Hin0 Hb0 Hrun) as (Hin & _).
    destruct (fill_or_finish_result native now window_size st0)
      as (o0 & Ho0 & _ & Hnext0 & _).
    rewrite Hfill in Ho0. injection Ho0 as <-.
    destruct (Hnext0 st eq_refl) as [_ Hin1]. destruct (Hin1 Hin) as [H1 Hall].
    split; [exact H1|]. eapply Forall_impl; [exact Hall|]. cbn.
    intros m [Hm _]. lia. }
  intros Hwin ->.
  assert (s_window (acked now 4 st) = [5; 6]) as H56.
  { rewrite acked_window, Hwin. reflexivity. }
  split; [exact H56|]. exists new. rewrite <- H56. exact Hw.
Qed.

(** C2, amended. Along every run of the loop the window never has
    more than [max window_size 0] members, at the top of the loop,
    after the window is filled (where [recvfrom] is called or the loop
    is left) and after an ACK is filtered; it is above the ack number
    of the most recent ACK processed right after the filter of that
    ACK, and at all these points as long as every ACK received had an
    ack number below the next unsent sequence number; and a member
    leaves the window only when an ACK with an ack number at or above
    it is processed, never on a timeout, on another packet or while
    the window is filled. *)
Theorem window_invariant (content : bytes) (evs : list recv_event) (st : sender) :
  established_loop native now window_size evs (initial_sender content)
    = Some (Next st) ->
  (window_bounded window_size st /\
   (acks_in_range native now window_size evs (initial_sender content) ->
    above_last_ack st)) /\
  (forall o,
      fill_or_finish native now window_size st = Some o ->
      window_bounded window_size (flow_state o) /\
      (acks_in_range native now window_size evs (initial_sender content) ->
       above_last_ack (flow_state o))) /\
  (forall st1 a,
      fill_or_finish native now window_size st = Some (Next st1) ->
      window_bounded window_size (acked now a st1) /\
      last_ack (acked now a st1) = Some a /\
      Forall (fun m => a < m) (s_window (acked now a st1))) /\
  (forall st0 o m,
      fill_or_finish native now window_size st0 = Some o ->
      m ∈ s_window st0 -> m ∈ s_window (flow_state o)) /\
  (forall st0 ev o m,
      react native now window_size ev st0 = Some o ->
      m ∈ s_window st0 -> m ∉ s_window (flow_state o) ->
      exists response seq_num ack_num flags data,
        ev = Datagram response /\
        parsePacket native response = Ok (seq_num, ack_num, flags, data) /\
        truthy (Z.land flags FLAGS_ACK) = true /\
        m <= ack_num).
Proof.
  intros Hrun.
  destruct (initial_sender_in_flight native window_size content)
    as (Hin0 & Hb0 & Hlow0 & Hab0).
  destruct (established_loop_in_flight native now window_size evs _ _ Hin0 Hb0 Hrun)
    as (Hin & Hb & _).
  split; [|split; [|split; [|split]]].
  - split; [exact Hb|]. intros Hr.
    exact (proj2 (established_loop_above native now window_size evs _ _
                    Hin0 Hb0 Hlow0 Hab0 Hr Hrun)).
  - intros o Ho.
    destruct (fill_or_finish_result native now window_size st)
      as (o' & Ho' & Hext & _).
    rewrite Ho in Ho'. injection Ho' as <-.
    split; [eapply extends_bounded; eassumption|]. intros Hr.
    destruct (established_loop_above native now window_size evs _ _
                Hin0 Hb0 Hlow0 Hab0 Hr Hrun) as [Hlow Hab].
    exact (proj2 (extends_above window_size _ _ Hext Hlow Hab)).
  - intros st1 a Ho.
    destruct (fill_or_finish_result native now window_size st)
      as (o' & Ho' & Hext & _).
    rewrite Ho in Ho'. injection Ho' as <-. cbn [flow_state] in Hext.
    split; [apply acked_bounded; eapply extends_bounded; eassumption|].
    split; [apply last_ack_logged | apply ack_filter_above].
  - intros st0 o m Ho Hm.
    destruct (fill_or_finish_result native now window_size st0)
      as (o' & Ho' & Hext & _).
    rewrite Ho in Ho'. injection Ho' as <-.
    eapply extends_member; eassumption.
  - intros st0 ev o m. apply react_removes_by_ack.
Qed.

(** C4. On a receive timeout in the data-transfer loop the sender
    sends again the packet of every window member, in window order:
    each packet is the one built from the member's sequence number,
    ack number 0, no flags and the bytes of the file at offset
    [(seq - 1) * 994], and it is among the datagrams sent before; the
    send time of every window member is set to a clock value read
    during the handler; the other send times and the window stay as
    they were. *)
Theorem timeout_retransmits_window (content : bytes) (evs : list recv_event)
        (st st1 : sender) :
  established_loop native now window_size evs (initial_sender content)
    = Some (Next st) ->
  fill_or_finish native now window_size st = Some (Next st1) ->
  exists st2 packets,
    react native now window_size Timeout st1 = Some (Next st2) /\
    s_window st2 = s_window st1 /\
    s_sent st2 = s_sent st1 ++ packets /\
    Forall2 (fun m packet =>
               packet ∈ s_sent st1 /\
               createPacket native m 0 0 (chunk content m) = Ok packet /\
               parsePacket native packet = Ok (m, 0, 0, chunk content m))
            (s_window st1) packets /\
    (forall k, k ∈ s_window st1 ->
               exists t, (s_clock st1 < t)%nat /\
                         s_unack_packets st2 !! k = Some (now t)) /\
    (forall k, k ∉ s_window st1 ->
               s_unack_packets st2 !! k = s_unack_packets st1 !! k).
Proof.
  intros Hrun Hfill.
  destruct (initial_sender_in_flight native window_size content)
    as (Hin0 & Hb0 & _).
  destruct (established_loop_in_flight native now window_size evs _ _ Hin0 Hb0 Hrun)
    as (Hin & Hb & Hc).
  destruct (fill_or_finish_result native now window_size st)
    as (o & Ho & Hext & Hnext & _).
  rewrite Hfill in Ho. injection Ho as <-. cbn [flow_state] in Hext.
  destruct (Hnext st1 eq_refl) as [_ Hin1]. specialize (Hin1 Hin).
  assert (f_content (s_file st1) = content) as Hc1.
  { destruct Hext as [Hc' _]. rewrite Hc', Hc. reflexivity. }
  destruct (on_timeout_in_flight native now st1 Hin1)
    as (st2 & packets & Ht & Hw & _ & _ & _ & Hsent & Hf & Hu & Hn).
  exists st2, packets. cbn [react]. rewrite Ht.
  split; [reflexivity|]. split; [exact Hw|]. split; [exact Hsent|].
  split; [|split; assumption].
  rewrite Hc1 in Hf. destruct Hin1 as [_ Hall]. rewrite Hc1 in Hall.
  clear - Hf Hall. induction Hf as [|m packet w ps Hp Hf IH]; [constructor|].
  apply Forall_cons in Hall as [[Hm (p & Hp' & Hs)] Hall].
  constructor; [|exact (IH Hall)].
  assert (p = packet) as -> by congruence.
  split; [exact Hs|]. split; [exact Hp|].
  destruct (createPacket_range native _ _ _ _ _ Hp) as (Hr & _).
  destruct (parse_create_packet native m 0 0 (chunk content m))
    as (p & Hp1 & Hp2); try lia.
  congruence.
Qed.
End SenderProperties.

(** Instance of [sendPacket_past_end_of_file]: sequence number 2 of a
    two-byte file. *)
Lemma sendPacket_past_end_of_file_witness :
  exists st',
    sendPacket LittleEndian counting_clock 2 false (initial_sender [x41; x42])
      = (Ok false, st') /\
    s_sent st' = [] /\ s_window st' = [] /\ s_unack_packets st' = ∅.
Proof.
  destruct (proj1 (sendPacket_past_end_of_file LittleEndian counting_clock)
              2 false (initial_sender [x41; x42]))
    as (st' & H & Hs & Hw & Hu & _).
  - cbn. apply not_elem_of_nil.
  - cbn. unfold DATA_SIZE. lia.
  - exists st'. split; [exact H|]. split; [exact Hs|]. split; [exact Hw | exact Hu].
Defined.

(** Instance of [cumulative_ack], the example of the specification:
    window 3, 4, 5, 6, an ACK with ack number 4, window size 4. *)
Lemma cumulative_ack_witness :
  exists st' packets,
    react LittleEndian counting_clock 4 (Datagram ack_4) sender_3456
    = Some (Next st') /\
    s_window (acked counting_clock 4 sender_3456) = [5; 6] /\
    s_window st' = [5; 6; 7; 8] /\
    s_sent st' = s_sent sender_3456 ++ packets /\
    Forall2 (fun m packet =>
               chunk (f_content (s_file sender_3456)) m <> [] /\
               createPacket LittleEndian m 0 0
                 (chunk (f_content (s_file sender_3456)) m) = Ok packet)
            [7; 8] packets.
Proof.
  destruct (cumulative_ack LittleEndian counting_clock 4 sender_3456 ack_4
              0 4 2 [] ltac:(vm_compute; reflexivity) ltac:(vm_compute; reflexivity))
    as (o & Ho & _ & H56 & _ & _ & _ & _ & _ & _ & _ & _ & Hrefill & _).
  destruct Hrefill as (c & packets & Hf & Hsent & Hnum & _).
  { change (s_seq_num sender_3456) with 7. lia. }
  { change (s_seq_num sender_3456) with 7.
    change (s_window sender_3456) with [3; 4; 5; 6].
    repeat constructor. }
  vm_compute in Ho. injection Ho as <-.
  cbn [flow_state s_seq_num s_sent] in Hsent, Hnum.
  change (s_seq_num sender_3456) with 7 in Hnum, Hf.
  assert (c = 2%nat) as -> by lia.
  eexists. exists packets.
  split; [vm_compute; reflexivity|]. split; [exact H56|].
  split; [reflexivity|]. split; [exact Hsent | exact Hf].
Defined.

(** C1 as stated fails where the sequence numbers end.  The window is
    65533, 65534, 65535 with window size 3, the file has a chunk for
    sequence number 65536, and an ACK with ack number 65534 arrives:
    the members kept are 65535 only, and the window is not refilled to
    three members.  [sendPacket] appends 65536, [createPacket] raises
    [struct.error], and the handler ends with the window 65535, 65536
    and nothing sent. *)
Lemma cumulative_ack_limit_counterexample :
  parsePacket LittleEndian ack_65534 = Ok (0, 65534, FLAGS_ACK, []) /\
  chunk (f_content (s_file sender_near_limit)) 65536 <> [] /\
  exists st',
    react LittleEndian counting_clock 3 (Datagram ack_65534) sender_near_limit
    = Some (Crash StructError st') /\
    s_window st' = [65535; 65536] /\
    s_sent st' = s_sent sender_near_limit.
Proof.
  assert (parsePacket LittleEndian ack_65534 = Ok (0, 65534, FLAGS_ACK, []))
    as Hparse by (vm_compute; reflexivity).
  assert (chunk (f_content (s_file sender_near_limit)) 65536 <> []) as Hne.
  { apply chunk_before_end.
    change (f_content (s_file sender_near_limit)) with (file_of_size 65142784).
    unfold file_of_size, DATA_SIZE. rewrite length_replicate. lia. }
  split; [exact Hparse|]. split; [exact Hne|].
  cbn [react]. rewrite Hparse.
  change (truthy (Z.land FLAGS_ACK FLAGS_ACK)) with true. cbv iota.
  destruct (on_ack_refills LittleEndian counting_clock 3 65534 sender_near_limit)
    as (o & c & packets & Ho & Hf & Hsent & Hnum & _ & _ & Hend).
  { cbn [s_seq_num sender_near_limit]. lia. }
  { change (s_window sender_near_limit) with [65533; 65534; 65535].
    change (s_seq_num sender_near_limit) with 65536.
    repeat constructor. }
  change (s_seq_num sender_near_limit) with 65536 in *.
  assert (filter (fun m => 65534 < m) (s_window sender_near_limit) = [65535])
    as Hkept by reflexivity.
  rewrite Hkept in Hend.
  assert (c = O) as ->.
  { destruct c as [|c]; [reflexivity|]. exfalso.
    rewrite seqZ_cons in Hf by lia.
    inversion Hf as [|m p ms ps [_ Hp] _]; subst.
    destruct (createPacket_range LittleEndian _ _ _ _ _ Hp) as (Hr & _). lia. }
  cbn [Z.of_nat] in *. rewrite seqZ_nil in * by lia.
  inversion Hf; subst. rewrite app_nil_r in Hsent. rewrite Z.add_0_r in Hnum.
  rewrite Ho.
  destruct Hend as [(st' & -> & Hw & _ & Hfull)|(st' & -> & _ & _ & Hw & _)].
  - exfalso. cbn [flow_state] in Hnum. rewrite Hw, Hnum in Hfull.
    destruct Hfull as [Hfull|Hempty]; [cbn in Hfull; lia | exact (Hne Hempty)].
  - cbn [flow_state] in Hnum, Hsent. exists st'.
    split; [reflexivity|]. split; [|exact Hsent].
    rewrite Hw, Hnum. reflexivity.
Qed.

(** Instance of [window_invariant]: a 2000-byte file, window size 2,
    an ACK for sequence number 1 and then a timeout. *)
Lemma window_invariant_witness :
  exists st,
    established_loop LittleEndian counting_clock 2 [Datagram ack_1; Timeout]
      (initial_sender (file_of_size 2000)) = Some (Next st) /\
    window_bounded 2 st /\ above_last_ack st.
Proof.
  set (r := established_loop LittleEndian counting_clock 2
              [Datagram ack_1; Timeout] (initial_sender (file_of_size 2000))).
  assert (r = Some (Next (state_or (initial_sender []) r))) as E
      by (vm_compute; reflexivity).
  destruct (window_invariant LittleEndian counting_clock 2 _ _ _ E)
    as ((Hb & Hab) & _).
  exists (state_or (initial_sender []) r).
  split; [exact E|]. split; [exact Hb|]. apply Hab.
  vm_compute. repeat split; intros; reflexivity.
Defined.

(** C2 as stated fails.  With window size 1 and a file of two chunks,
    an ACK with ack number 5 empties the window, sequence number 2 is
    sent next, and the window member 2 is not above 5.  With window
    size -1 nothing is sent, and the empty window has more than -1
    members. *)
Lemma window_invariant_counterexample :
  ~ (forall native now window_size content evs st,
        established_loop native now window_size evs (initial_sender content)
          = Some (Next st) ->
        above_last_ack st) /\
  ~ (forall native now window_size content evs st,
        established_loop native now window_size evs (initial_sender content)
          = Some (Next st) ->
        Z.of_nat (length (s_window st)) <= window_size).
Proof.
  split.
  - intros H.
    set (r := established_loop LittleEndian counting_clock 1
                [Datagram ack_5] (initial_sender (file_of_size 1000))).
    assert (r = Some (Next (state_or (initial_sender []) r))) as E
        by (vm_compute; reflexivity).
    specialize (H LittleEndian counting_clock 1 _ _ _ E 5
                  ltac:(vm_compute; reflexivity)).
    assert (s_window (state_or (initial_sender []) r) = [2]) as Hw
        by (vm_compute; reflexivity).
    rewrite Hw in H. apply Forall_cons in H as [H _]. lia.
  - intros H.
    specialize (H LittleEndian counting_clock (-1) [] [] (initial_sender [])
                  eq_refl).
    cbn in H. lia.
Qed.

(** Instance of [timeout_retransmits_window]: a three-byte file, window
    size 3, a timeout while sequence number 1 is in flight. *)
Lemma timeout_retransmits_window_witness :
  exists st1 st2 packets,
    fill_or_finish LittleEndian counting_clock 3 (initial_sender [x41; x42; x43])
      = Some (Next st1) /\
    react LittleEndian counting_clock 3 Timeout st1 = Some (Next st2) /\
    s_window st2 = s_window st1 /\
    s_sent st2 = s_sent st1 ++ packets.
Proof.
  set (r := fill_or_finish LittleEndian counting_clock 3
              (initial_sender [x41; x42; x43])).
  assert (r = Some (Next (state_or (initial_sender []) r))) as E
      by (vm_compute; reflexivity).
  destruct (timeout_retransmits_window LittleEndian counting_clock 3
              [x41; x42; x43] [] _ _ eq_refl E)
    as (st2 & packets & Ht & Hw & Hs & _).
  exists (state_or (initial_sender []) r), st2, packets.
  split; [exact E|]. split; [exact Ht|]. split; [exact Hw | exact Hs].
Defined.

(** ** Sender: waiting for the SYN-ACK *)

Section SynSentProperties.
Variable native : byteorder.

(** C8, what the code does.  While the sender waits for the SYN-ACK, a
    datagram of at least 10 bytes is always decoded, and when its
    flags do not have both SYN and ACK set it is ignored, as the claim
    says: the loop goes on waiting, nothing is sent and nothing is
    printed.  A datagram of fewer than 10 bytes is not ignored: it
    makes [parseSynPacket] raise, [struct.error] below 6 bytes and
    [ValueError] from 6 to 9 bytes, and no handler of the loop catches
    either, so [sendFile] ends with the exception.  The 6-byte control
    packets of the protocol itself are among these datagrams. *)
Theorem synsent_ignores_other_packets :
  (forall (syn_packet response : bytes) (st : io),
      (10 <= length response)%nat ->
      exists seq_num ack_num flags file_size,
        parseSynPacket native response = Ok (seq_num, ack_num, flags, file_size) /\
        (truthy (Z.land flags FLAGS_SYN) && truthy (Z.land flags FLAGS_ACK) = false ->
         synsent_iter native syn_packet (Datagram response) st = KeepWaiting st)) /\
  (forall (syn_packet response : bytes) (st : io),
      (length response < 6)%nat ->
      synsent_iter native syn_packet (Datagram response) st
        = Aborted StructError st) /\
  (forall (syn_packet response : bytes) (st : io),
      (6 <= length response < 10)%nat ->
      synsent_iter native syn_packet (Datagram response) st
        = Aborted ValueError st).
Proof.
  split; [|split].
  - intros syn_packet response st Hlen.
    destruct (parseSynPacket_long native response Hlen)
      as [[[[seq_num ack_num] flags] file_size] Hp].
    exists seq_num, ack_num, flags, file_size. split; [exact Hp|].
    intros Hflags. cbn [synsent_iter]. rewrite Hp, Hflags. reflexivity.
  - intros syn_packet response st Hlen. cbn [synsent_iter].
    rewrite parseSynPacket_short_header by exact Hlen. reflexivity.
  - intros syn_packet response st Hlen. cbn [synsent_iter].
    rewrite parseSynPacket_short_size by exact Hlen. reflexivity.
Qed.
End SynSentProperties.

(** Instance of [synsent_ignores_other_packets]: a SYN without ACK, a
    3-byte datagram and an 8-byte datagram. *)
Lemma synsent_ignores_other_packets_witness :
  synsent_iter LittleEndian syn_0_3000 (Datagram syn_0_3000) empty_io
    = KeepWaiting empty_io /\
  synsent_iter LittleEndian syn_0_3000 (Datagram [x00; x00; x00]) empty_io
    = Aborted StructError empty_io /\
  synsent_iter LittleEndian syn_0_3000 (Datagram short_8) empty_io
    = Aborted ValueError empty_io.
Proof.
  destruct (synsent_ignores_other_packets LittleEndian) as (H1 & H2 & H3).
  split; [|split].
  - destruct (H1 syn_0_3000 syn_0_3000 empty_io) as (s & a & f & z & Hp & Hk).
    + cbn. lia.
    + apply Hk. vm_compute in Hp. injection Hp as <- <- <- <-. reflexivity.
  - apply H2. cbn. lia.
  - apply H3. cbn. lia.
Defined.

(** C8 fails on the code: the header of [short_8] has neither SYN nor
    ACK set, and the datagram ends the wait loop with the [ValueError]
    of [parseSynPacket]. *)
Lemma synsent_short_datagram_counterexample :
  parsePacket LittleEndian short_8 = Ok (0, 0, 0, [xb8; x0b]) /\
  ~ (forall native syn_packet response st seq_num ack_num flags rest,
        parsePacket native response = Ok (seq_num, ack_num, flags, rest) ->
        Z.land flags FLAGS_SYN = 0 -> Z.land flags FLAGS_ACK = 0 ->
        synsent_iter native syn_packet (Datagram response) st = KeepWaiting st).
Proof.
  split; [reflexivity|]. intros H.
  specialize (H LittleEndian syn_0_3000 short_8 empty_io 0 0 0 [xb8; x0b]
                eq_refl eq_refl eq_refl).
  vm_compute in H. discriminate.
Qed.

(** ** Receiver *)

Lemma unpack_HHH_range (bo : byteorder) (buf : bytes) (a b c : Z) :
  unpack_HHH bo buf = Ok (a, b, c) ->
  0 <= a < 65536 /\ 0 <= b < 65536 /\ 0 <= c < 65536.
Proof.
  unfold unpack_HHH.
  destruct buf as [|x1 [|x2 [|x3 [|x4 [|x5 [|x6 [|x7 buf]]]]]]]; try discriminate.
  intros [= <- <- <-].
  pose proof (Z_of_byte_range x1). pose proof (Z_of_byte_range x2).
  pose proof (Z_of_byte_range x3). pose proof (Z_of_byte_range x4).
  pose proof (Z_of_byte_range x5). pose proof (Z_of_byte_range x6).
  destruct bo; cbn [in_order rev app le_value]; lia.
Qed.

Lemma parsePacket_range (bo : byteorder) (packet : bytes)
      (seq_num ack_num flags : Z) (data : bytes) :
  parsePacket bo packet = Ok (seq_num, ack_num, flags, data) ->
  0 <= seq_num < 65536 /\ 0 <= ack_num < 65536 /\ 0 <= flags < 65536.
Proof.
  unfold parsePacket.
  destruct (unpack_HHH bo (slice_to HEADER_SIZE packet)) as [[[a b] c]|e] eqn:E;
    [|discriminate].
  cbn [rbind]. intros [= <- <- <- _]. eapply unpack_HHH_range. exact E.
Qed.

Section ReceiverProperties.
Variable native : byteorder.
Variable now : nat -> Z.

Lemma fin_check_no_fin (st : receiver) :
  truthy (Z.land (r_flags st) FLAGS_FIN) = false ->
  fin_check native st = Next st.
Proof. intros H. unfold fin_check. now rewrite H. Qed.

(** C3, amended. For a received data packet (FIN flag clear) whose
    sequence number is not the pending discard number: when the
    sequence number equals [expected_seq_num] the receiver sends one
    packet, a pure ACK whose ack number is that sequence number,
    stores the payload under the sequence number and increments
    [expected_seq_num]; otherwise it sends nothing, stores nothing and
    leaves [expected_seq_num] as it is.  A packet whose sequence number
    is the pending discard number is dropped whatever
    [expected_seq_num] is: nothing is sent or stored,
    [expected_seq_num] stays, and the discard directive is cleared.
    With [expected_seq_num] 5, a packet with sequence number 7 gets no
    ACK, is not stored, and [expected_seq_num] stays 5. *)
Theorem go_back_n_admission (st : receiver) (response : bytes)
        (seq_num ack_num flags : Z) (data : bytes) :
  parsePacket native response = Ok (seq_num, ack_num, flags, data) ->
  (truthy (Z.land flags FLAGS_FIN) = false ->
   equals_discard seq_num (r_discard st) = false ->
   seq_num = r_expected_seq_num st ->
   exists ack_packet st',
     receive_iter native now (Datagram response) st = Next st' /\
     r_sent st' = r_sent st ++ [ack_packet] /\
     createPacket native 0 seq_num FLAGS_ACK [] = Ok ack_packet /\
     parsePacket native ack_packet = Ok (0, seq_num, FLAGS_ACK, []) /\
     r_received_data st' = <[seq_num := data]> (r_received_data st) /\
     r_expected_seq_num st' = r_expected_seq_num st + 1 /\
     r_discard st' = r_discard st) /\
  (truthy (Z.land flags FLAGS_FIN) = false ->
   equals_discard seq_num (r_discard st) = false ->
   seq_num <> r_expected_seq_num st ->
   exists st',
     receive_iter native now (Datagram response) st = Next st' /\
     r_sent st' = r_sent st /\
     r_received_data st' = r_received_data st /\
     r_expected_seq_num st' = r_expected_seq_num st /\
     r_discard st' = r_discard st /\
     r_log st' = r_log st ++ [LogOutOfOrder (now (r_clock st)) seq_num]) /\
  (equals_discard seq_num (r_discard st) = true ->
   exists st',
     receive_iter native now (Datagram response) st = Next st' /\
     r_sent st' = r_sent st /\
     r_received_data st' = r_received_data st /\
     r_expected_seq_num st' = r_expected_seq_num st /\
     r_discard st' = None) /\
  (truthy (Z.land flags FLAGS_FIN) = false ->
   equals_discard seq_num (r_discard st) = false ->
   r_expected_seq_num st = 5 -> seq_num = 7 ->
   exists st',
     receive_iter native now (Datagram response) st = Next st' /\
     r_sent st' = r_sent st /\
     r_received_data st' = r_received_data st /\
     r_expected_seq_num st' = 5).
Proof.
  intros Hparse.
  assert (forall (P : receiver -> Prop),
             truthy (Z.land flags FLAGS_FIN) = false ->
             equals_discard seq_num (r_discard st) = false ->
             seq_num <> r_expected_seq_num st ->
             P (r_print (LogOutOfOrder (now (r_clock st)) seq_num)
                  (r_with_parsed seq_num flags (r_tick st))) ->
             exists st', receive_iter native now (Datagram response) st = Next st'
                         /\ P st') as Hother.
  { intros P Hfin Hdisc Hne HP. eexists. split; [|exact HP].
    unfold receive_iter. rewrite Hparse.
    cbn [r_discard r_with_parsed r_tick]. rewrite Hdisc.
    unfold accept_packet. cbn [r_expected_seq_num r_with_parsed r_tick].
    rewrite (proj2 (Z.eqb_neq _ _) Hne).
    apply fin_check_no_fin. exact Hfin. }
  split; [|split; [|split]].
  - intros Hfin Hdisc Heq.
    destruct (parsePacket_range _ _ _ _ _ _ Hparse) as (Hs & _).
    destruct (parse_create_packet native 0 seq_num FLAGS_ACK [])
      as (ack_packet & Hcreate & Hack); try (unfold FLAGS_ACK; lia).
    eexists ack_packet, _. split.
    + unfold receive_iter. rewrite Hparse.
      cbn [r_discard r_with_parsed r_tick]. rewrite Hdisc.
      unfold accept_packet. cbn [r_expected_seq_num r_with_parsed r_tick].
      rewrite (proj2 (Z.eqb_eq _ _) Heq). rewrite Hcreate. cbn [rbind].
      apply fin_check_no_fin. exact Hfin.
    + cbn. repeat split; try reflexivity; assumption.
  - intros Hfin Hdisc Hne.
    apply (Hother (fun st' =>
                     r_sent st' = r_sent st /\
                     r_received_data st' = r_received_data st /\
                     r_expected_seq_num st' = r_expected_seq_num st /\
                     r_discard st' = r_discard st /\
                     r_log st' = r_log st ++ [LogOutOfOrder (now (r_clock st)) seq_num]));
      try assumption.
    cbn. repeat split; reflexivity.
  - intros Hdisc. eexists. split.
    + unfold receive_iter. rewrite Hparse.
      cbn [r_discard r_with_parsed r_tick]. rewrite Hdisc. reflexivity.
    + cbn. repeat split; reflexivity.
  - intros Hfin Hdisc H5 ->.
    apply (Hother (fun st' =>
                     r_sent st' = r_sent st /\
                     r_received_data st' = r_received_data st /\
                     r_expected_seq_num st' = 5));
      try assumption; [lia|].
    cbn. repeat split; try reflexivity. exact H5.
Qed.
End ReceiverProperties.

(** Instance of [go_back_n_admission], the example of the
    specification: [expected_seq_num] is 5 and the packet has sequence
    number 7. *)
Lemma go_back_n_admission_witness :
  exists st',
    receive_iter LittleEndian counting_clock (Datagram data_7) (receiver_at_5 None)
      = Next st' /\
    r_sent st' = [] /\ r_received_data st' = ∅ /\ r_expected_seq_num st' = 5.
Proof.
  destruct (go_back_n_admission LittleEndian counting_clock (receiver_at_5 None)
              data_7 7 0 0 [x41] eq_refl) as (_ & _ & _ & H).
  apply H; reflexivity.
Defined.

(** C3 as stated fails: with the discard directive for sequence number
    5 pending, the packet with the expected sequence number 5 is not
    stored and [expected_seq_num] is not incremented. *)
Lemma go_back_n_discard_counterexample :
  ~ (forall native now st response seq_num ack_num flags data,
        parsePacket native response = Ok (seq_num, ack_num, flags, data) ->
        seq_num = r_expected_seq_num st ->
        exists st',
          receive_iter native now (Datagram response) st = Next st' /\
          r_received_data st' !! seq_num = Some data /\
          r_expected_seq_num st' = r_expected_seq_num st + 1).
Proof.
  intros H.
  destruct (H LittleEndian counting_clock (receiver_at_5 (Some 5)) data_5
              5 0 0 [x41] eq_refl eq_refl) as (st' & Hiter & _ & Hexp).
  vm_compute in Hiter. injection Hiter as <-. vm_compute in Hexp. discriminate.
Qed.

(** If a receive call of the data phase did time out, and the last
    parsed packet had no FIN flag, the handler would only print. *)
Lemma receive_iter_timeout_prints (native : byteorder) (now : nat -> Z)
      (st : receiver) :
  truthy (Z.land (r_flags st) FLAGS_FIN) = false ->
  receive_iter native now Timeout st
  = Next (r_print (LogRTO (now (r_clock st))) (r_tick st)).
Proof.
  intros H. unfold receive_iter. apply fin_check_no_fin. exact H.
Qed.

(** C6. What the code does: [receiveFile] never sets a timeout on its
    socket, so the socket stays in the blocking mode it was created in
    and [socket.timeout] cannot be raised by a receive call of the
    receiver, in the data phase as in the handshake; the socket of
    [sendFile] has the timeout of half a second. *)
Theorem receiveFile_socket_blocks :
  so_timeout receiveFile_socket = None /\
  ~ can_occur receiveFile_socket Timeout /\
  so_timeout sendFile_socket = Some 500 /\
  can_occur sendFile_socket Timeout.
Proof.
  split; [reflexivity|]. split; [|split; [reflexivity|]].
  - intros [ms H]. discriminate.
  - exists 500. reflexivity.
Qed.

(** C7. What the code does: the reply to a SYN with sequence number 0
    for a file of 3000 bytes has SYN|ACK set and echoes the file size,
    but carries 1, the received sequence number plus one, in its
    sequence-number field and 0 in its ack-number field; the reply to
    a FIN with sequence number 5 has FIN|ACK set and carries 6 in its
    sequence-number field and 0 in its ack-number field.  (The FIN
    carries the expected sequence number 5, so it is also acknowledged
    as a data packet before the FIN-ACK is sent.) *)
Theorem replies_carry_seq_plus_one_in_seq_field :
  forall native : byteorder,
    let syn := packet_or_empty (createSynPacket native 0 0 FLAGS_SYN 3000) in
    let fin := packet_or_empty (createPacket native 5 0 FLAGS_FIN []) in
    (exists reply,
        io_sent (flow_state (listening_iter native (Datagram syn) empty_io))
          = [reply] /\
        parseSynPacket native reply
          = Ok (1, 0, Z.lor FLAGS_SYN FLAGS_ACK, 3000)) /\
    (exists ack reply,
        r_sent (flow_state (receive_iter native counting_clock (Datagram fin)
                              (receiver_at_5 None)))
          = [ack; reply] /\
        parsePacket native ack = Ok (0, 5, FLAGS_ACK, []) /\
        parsePacket native reply
          = Ok (6, 0, Z.lor FLAGS_ACK FLAGS_FIN, [])).
Proof.
  intros native; destruct native; cbv zeta; split.
  - eexists. split; vm_compute; reflexivity.
  - eexists _, _. split; [vm_compute; reflexivity|]. split; vm_compute; reflexivity.
  - eexists. split; vm_compute; reflexivity.
  - eexists _, _. split; [vm_compute; reflexivity|]. split; vm_compute; reflexivity.
Qed.

(** * Further properties of the code *)

(** ** Packet codec: errors, sizes and the inverse round trip *)

Lemma le_digits_value_2 (bo : byteorder) (x y : byte) :
  in_order bo (le_digits 2 (le_value (in_order bo [x; y]))) = [x; y].
Proof.
  assert (forall a b : byte,
             le_digits 2 (le_value [a; b]) = [a; b]) as H.
  { intros a b. cbn [le_digits le_value].
    pose proof (Z_of_byte_range a) as Ha. pose proof (Z_of_byte_range b) as Hb.
    rewrite Z.mul_0_r, Z.add_0_r.
    assert (byte_of_Z (Z_of_byte a + 256 * Z_of_byte b) = a) as ->.
    { unfold byte_of_Z.
      replace ((Z_of_byte a + 256 * Z_of_byte b) mod 256) with (Z_of_byte a)
        by (Z.div_mod_to_equations; lia).
      unfold Z_of_byte. rewrite N2Z.id, Byte.of_to_N. reflexivity. }
    replace ((Z_of_byte a + 256 * Z_of_byte b) / 256) with (Z_of_byte b)
      by (Z.div_mod_to_equations; lia).
    rewrite byte_of_Z_of_byte. reflexivity. }
  destruct bo; cbn [in_order rev app]; rewrite H; reflexivity.
Qed.

Lemma pack_HHH_length (bo : byteorder) (a b c : Z) (hdr : bytes) :
  pack_HHH bo a b c = Ok hdr -> length hdr = 6%nat.
Proof.
  unfold pack_HHH, pack_uint.
  repeat match goal with
         | |- context [if ?c then _ else _] => destruct c; cbn [rbind]
         end; try discriminate.
  intros [= <-]. destruct bo; reflexivity.
Qed.

(** [createPacket] checks its three header fields and nothing else: it
    raises [struct.error] exactly when one of them is outside the
    range of an unsigned 16-bit field, whatever the payload; otherwise
    the packet is six bytes longer than the payload, so a payload of
    at most [DATA_SIZE] bytes gives a datagram of at most
    [MAX_PACKET_SIZE] bytes. *)
Theorem createPacket_checks_fields (native : byteorder)
        (seq_num ack_num flags : Z) (data : bytes) :
  (0 <= seq_num < 65536 /\ 0 <= ack_num < 65536 /\ 0 <= flags < 65536 ->
   exists packet,
     createPacket native seq_num ack_num flags data = Ok packet /\
     length packet = (6 + length data)%nat /\
     (Z.of_nat (length data) <= DATA_SIZE ->
      Z.of_nat (length packet) <= MAX_PACKET_SIZE)) /\
  (~ (0 <= seq_num < 65536 /\ 0 <= ack_num < 65536 /\ 0 <= flags < 65536) ->
   createPacket native seq_num ack_num flags data = Raise StructError).
Proof.
  split.
  - intros (Hs & Ha & Hf).
    destruct (unpack_pack_HHH native seq_num ack_num flags Hs Ha Hf)
      as (hdr & Hpack & Hlen & _).
    exists (hdr ++ data). unfold createPacket. rewrite Hpack.
    split; [reflexivity|]. rewrite length_app, Hlen. split; [reflexivity|].
    unfold DATA_SIZE, MAX_PACKET_SIZE. lia.
  - intros Hnot.
    destruct (createPacket native seq_num ack_num flags data) as [packet|e] eqn:E.
    + exfalso. apply Hnot. eapply createPacket_range. exact E.
    + unfold createPacket, pack_HHH, pack_uint in E.
      repeat match type of E with
             | context [if ?c then _ else _] => destruct c; cbn [rbind] in E
             end; congruence.
Qed.

(** Instance of [createPacket_checks_fields]: sequence number 65536
    does not fit, sequence number 65535 does. *)
Lemma createPacket_checks_fields_witness :
  createPacket LittleEndian 65536 0 0 [x41] = Raise StructError /\
  exists packet,
    createPacket LittleEndian 65535 0 0 [x41] = Ok packet /\
    length packet = 7%nat.
Proof.
  destruct (createPacket_checks_fields LittleEndian 65536 0 0 [x41]) as [_ H1].
  destruct (createPacket_checks_fields LittleEndian 65535 0 0 [x41]) as [H2 _].
  split.
  - apply H1. lia.
  - destruct H2 as (packet & Hp & Hl & _); [lia|].
    exists packet. split; [exact Hp | exact Hl].
Defined.

(** Decoding then encoding gives the buffer back: whatever
    [parsePacket] returns for a buffer, [createPacket] rebuilds that
    buffer from it.  So [parsePacket] loses nothing, and two different
    buffers never decode to the same packet. *)
Theorem create_parse_packet (native : byteorder) (packet : bytes)
        (seq_num ack_num flags : Z) (data : bytes) :
  parsePacket native packet = Ok (seq_num, ack_num, flags, data) ->
  createPacket native seq_num ack_num flags data = Ok packet.
Proof.
  intros Hparse.
  destruct (parsePacket_range _ _ _ _ _ _ Hparse) as (Hs & Ha & Hf).
  unfold parsePacket in Hparse.
  destruct (unpack_HHH native (slice_to HEADER_SIZE packet))
    as [[[a b] c]|e] eqn:E; [|discriminate].
  cbn [rbind] in Hparse. injection Hparse as -> -> -> Hd.
  unfold createPacket. rewrite pack_HHH_ok by assumption. cbn [rbind].
  f_equal. transitivity (take (Z.to_nat HEADER_SIZE) packet
                          ++ drop (Z.to_nat HEADER_SIZE) packet);
    [|apply take_drop].
  unfold slice_from in Hd. rewrite Hd. rewrite app_assoc. f_equal.
  unfold slice_to in E. unfold unpack_HHH in E.
  destruct (take (Z.to_nat HEADER_SIZE) packet)
    as [|x1 [|x2 [|x3 [|x4 [|x5 [|x6 [|x7 rest]]]]]]]; try discriminate.
  injection E as <- <- <-.
  rewrite !le_digits_value_2. reflexivity.
Qed.

(** Instance of [create_parse_packet]: the data packet with sequence
    number 7. *)
Lemma create_parse_packet_witness :
  createPacket LittleEndian 7 0 0 [x41] = Ok data_7.
Proof.
  apply (create_parse_packet LittleEndian data_7 7 0 0 [x41]). reflexivity.
Defined.

(** ** Sender: the shape of the window and of the datagrams sent *)

Lemma filter_above_seqZ (a lo : Z) (n : nat) :
  filter (fun m => a < m) (seqZ lo (Z.of_nat n)) =
  seqZ (lo + Z.of_nat n
        - Z.of_nat (length (filter (fun m => a < m) (seqZ lo (Z.of_nat n)))))
       (Z.of_nat (length (filter (fun m => a < m) (seqZ lo (Z.of_nat n))))).
Proof.
  induction n as [|n IH].
  - rewrite seqZ_nil by lia. rewrite filter_nil. cbn [length].
    now rewrite seqZ_nil by lia.
  - rewrite seqZ_S, filter_app.
    set (w := filter (fun m => a < m) (seqZ lo (Z.of_nat n))) in *.
    destruct (decide (a < lo + Z.of_nat n)) as [Hlt|Hge].
    + rewrite filter_cons_True by exact Hlt. rewrite filter_nil.
      rewrite length_app. cbn [length]. rewrite Nat.add_1_r, seqZ_S.
      rewrite IH at 1. f_equal; [f_equal; lia | f_equal; lia].
    + rewrite filter_cons_False by exact Hge. rewrite filter_nil, app_nil_r.
      assert (w = []) as ->.
      { destruct w as [|x w'] eqn:E; [reflexivity|]. exfalso.
        assert (x ∈ filter (fun m => a < m) (seqZ lo (Z.of_nat n))) as Hx
            by (fold w; rewrite E; left).
        apply list_elem_of_filter in Hx as [Hax Hx].
        apply elem_of_seqZ in Hx. lia. }
      cbn [length]. now rewrite seqZ_nil by lia.
Qed.

Lemma seqZ_snoc (m n : Z) : 0 <= n -> seqZ m (n + 1) = seqZ m n ++ [m + n].
Proof.
  intros Hn. rewrite seqZ_app by lia. reflexivity.
Qed.

Section SenderShape.
Variable native : byteorder.
Variable now : nat -> Z.
Variable window_size : Z.
Variable content : bytes.

Lemma data_trace_bounds (hi : Z) (sent : list bytes) :
  data_trace native content hi sent ->
  0 <= hi < 65536 /\
  forall m, 1 <= m <= hi ->
            chunk content m <> [] /\
            exists packet,
              createPacket native m 0 0 (chunk content m) = Ok packet /\
              packet ∈ sent.
Proof.
  induction 1 as [|hi sent packet _ [Hr IH] Hne Hp
                  |hi sent m packet _ [Hr IH] Hm Hp].
  - split; [lia|]. intros m Hm. lia.
  - destruct (createPacket_range native _ _ _ _ _ Hp) as (Hhi & _).
    split; [lia|]. intros m Hm.
    destruct (decide (m = hi + 1)) as [->|Hne'].
    + split; [exact Hne|]. exists packet. split; [exact Hp|].
      apply elem_of_app. right. apply list_elem_of_singleton. reflexivity.
    + destruct (IH m ltac:(lia)) as [Hc (p & Hp' & Hin)].
      split; [exact Hc|]. exists p. split; [exact Hp'|].
      apply elem_of_app. now left.
  - split; [exact Hr|]. intros m' Hm'.
    destruct (IH m' Hm') as [Hc (p & Hp' & Hin)].
    split; [exact Hc|]. exists p. split; [exact Hp'|].
    apply elem_of_app. now left.
Qed.

Lemma data_trace_packets (hi : Z) (sent : list bytes) :
  data_trace native content hi sent ->
  Forall (fun packet =>
            exists m, 1 <= m <= hi /\ chunk content m <> [] /\
                      createPacket native m 0 0 (chunk content m) = Ok packet)
         sent.
Proof.
  induction 1 as [|hi sent packet Ht IH Hne Hp|hi sent m packet Ht IH Hm Hp].
  - constructor.
  - pose proof (data_trace_bounds _ _ Ht) as [Hr _].
    apply Forall_app. split.
    + eapply Forall_impl; [exact IH|]. cbn. intros p (m & Hm & H).
      exists m. split; [lia | exact H].
    + constructor; [|constructor]. exists (hi + 1). split; [lia|]. auto.
  - apply Forall_app. split; [exact IH|].
    constructor; [|constructor]. exists m. split; [exact Hm|].
    split; [|exact Hp]. apply (data_trace_bounds _ _ Ht). exact Hm.
Qed.

Lemma data_trace_again_all (hi : Z) (ws : list Z) (packets sent : list bytes) :
  data_trace native content hi sent ->
  Forall (fun m => 1 <= m <= hi) ws ->
  Forall2 (fun m packet =>
             createPacket native m 0 0 (chunk content m) = Ok packet)
          ws packets ->
  data_trace native content hi (sent ++ packets).
Proof.
  intros Ht Hall Hf. revert sent Ht Hall.
  induction Hf as [|m packet ws packets Hp Hf IH]; intros sent Ht Hall.
  - now rewrite app_nil_r.
  - apply Forall_cons in Hall as [Hm Hall].
    replace (sent ++ packet :: packets) with ((sent ++ [packet]) ++ packets)
      by (rewrite <- app_assoc; reflexivity).
    apply IH; [|exact Hall]. eapply data_trace_again; eassumption.
Qed.

Lemma sender_inv_members (st : sender) (m : Z) :
  sender_inv native content st ->
  m ∈ s_window st ->
  1 <= m < s_seq_num st.
Proof.
  intros (_ & Hlen & Hw & _) Hm. rewrite Hw in Hm.
  apply elem_of_seqZ in Hm. lia.
Qed.

Lemma sender_inv_in_flight (st : sender) :
  sender_inv native content st -> in_flight native st.
Proof.
  intros Hinv. pose proof Hinv as (Hc & Hlen & Hw & _ & Ht).
  split; [lia|]. apply Forall_forall. intros m Hm.
  pose proof (sender_inv_members _ _ Hinv Hm) as Hr. split; [exact Hr|].
  rewrite Hc. apply (data_trace_bounds _ _ Ht). lia.
Qed.

Lemma initial_sender_inv : sender_inv native content (initial_sender content).
Proof.
  unfold sender_inv. cbn.
  split; [reflexivity|]. split; [lia|]. split; [reflexivity|].
  split; [apply dom_empty_L | constructor].
Qed.

(** One successful iteration of the window-filling loop. *)
Lemma send_step_inv (retransmit : bool) (st st1 : sender) :
  sender_inv native content st ->
  sendPacket native now (s_seq_num st) retransmit st = (Ok true, st1) ->
  sender_inv native content
    (with_seq_num (s_seq_num st1 + 1)
       (record_send_time now (s_seq_num st1) st1)).
Proof.
  intros Hinv E. pose proof Hinv as (Hc & Hlen & Hw & Hd & Ht).
  rewrite <- Hc in Ht.
  pose proof (sendPacket_cases native now (s_seq_num st) retransmit st) as Hcase.
  rewrite E in Hcase. cbn [fst snd] in Hcase. clear E.
  inversion Hcase as [| |packet Hin _ _ Hp Er Est|packet Hnot _ _ Hne Hp Er Est| |];
    subst st1; clear Hcase.
  - exfalso. match goal with H : s_seq_num st ∈ s_window st |- _ =>
      pose proof (sender_inv_members _ _ Hinv H) end. lia.
  - unfold sender_inv, record_send_time.
    cbn [s_seq_num s_window s_file s_sent s_unack_packets f_content
         with_seq_num tick with_unack_packets print sendto with_window
         with_file file_after_chunk].
    rewrite length_app. cbn [length]. rewrite Nat.add_1_r.
    split; [exact Hc|]. split; [lia|]. split; [|split].
    + rewrite seqZ_S. rewrite Hw at 1. f_equal; [f_equal; lia | f_equal; lia].
    + rewrite dom_insert_L, Hd, list_to_set_app_L. cbn [list_to_set].
      set_solver.
    + rewrite <- Hc.
      replace (s_seq_num st + 1 - 1) with (s_seq_num st - 1 + 1) by lia.
      eapply data_trace_new; [exact Ht | |];
        replace (s_seq_num st - 1 + 1) with (s_seq_num st) by lia; assumption.
Qed.

Lemma refill_inv (fuel : nat) (st st' : sender) :
  refill native now window_size fuel st = Some (Ok tt, st') ->
  sender_inv native content st -> sender_inv native content st'.
Proof.
  revert fuel st st'.
  enough (forall fuel st res st',
             refill native now window_size fuel st = Some (res, st') ->
             res = Ok tt ->
             sender_inv native content st -> sender_inv native content st')
    as H by (intros; eapply H; eauto).
  apply (refill_induction native now window_size
           (fun st res st' =>
              res = Ok tt ->
              sender_inv native content st -> sender_inv native content st')).
  - intros st _ _ H. exact H.
  - intros st st1 _ E _ Hinv.
    pose proof (sendPacket_cases native now (s_seq_num st) (s_retransmit st) st) as Hc.
    rewrite E in Hc. cbn [fst snd] in Hc. inversion Hc; subst. exact Hinv.
  - intros st e st1 _ _ H. discriminate.
  - intros st st1 res st' _ E IH Hres Hinv. apply (IH Hres).
    eapply send_step_inv; eassumption.
Qed.

Lemma acked_inv (a : Z) (st : sender) :
  sender_inv native content st -> sender_inv native content (acked now a st).
Proof.
  intros (Hc & Hlen & Hw & Hd & Ht).
  unfold sender_inv, acked, ack_filter.
  cbn [s_seq_num s_window s_file s_sent s_unack_packets f_content
       with_unack_packets with_window print tick].
  pose proof (length_filter (fun m => a < m) (s_window st)) as Hl.
  split; [exact Hc|]. split; [lia|]. split; [|split; [|exact Ht]].
  - rewrite Hw at 1 2 3.
    rewrite (filter_above_seqZ a _ (length (s_window st))) at 1.
    f_equal. lia.
  - apply set_eq. intros k.
    assert (k ∈ s_window st <-> is_Some (s_unack_packets st !! k)) as Hk.
    { rewrite <- elem_of_dom, Hd. symmetry. apply elem_of_list_to_set. }
    rewrite elem_of_dom, (elem_of_list_to_set (C := gset Z)).
    rewrite list_elem_of_filter, Hk.
    unfold is_Some. setoid_rewrite map_lookup_filter_Some. cbn. naive_solver.
Qed.

Lemma on_timeout_inv (st : sender) :
  sender_inv native content st ->
  exists st', on_timeout native now st = Next st' /\
              sender_inv native content st'.
Proof.
  intros Hinv. pose proof Hinv as (Hc & Hlen & Hw & Hd & Ht).
  destruct (on_timeout_in_flight native now st (sender_inv_in_flight _ Hinv))
    as (st' & packets & Hrun & Hw' & Hs' & Hc' & _ & Hsent & Hf & Hu & Hn).
  exists st'. split; [exact Hrun|]. unfold sender_inv.
  rewrite Hw', Hs', Hc', Hsent. split; [exact Hc|]. split; [exact Hlen|].
  split; [exact Hw|]. split.
  - rewrite <- Hd. apply set_eq. intros k. rewrite !elem_of_dom.
    destruct (decide (k ∈ s_window st)) as [Hk|Hk].
    + destruct (Hu k Hk) as (t & _ & Hl). rewrite Hl.
      split; [|eauto]. intros _. apply elem_of_dom. rewrite Hd.
      apply elem_of_list_to_set. exact Hk.
    + rewrite (Hn k Hk). reflexivity.
  - rewrite Hc in Hf. eapply data_trace_again_all; [exact Ht | | exact Hf].
    apply Forall_forall. intros m Hm.
    pose proof (sender_inv_members _ _ Hinv Hm). lia.
Qed.

Lemma on_ack_inv (a : Z) (st st' : sender) :
  sender_inv native content st ->
  on_ack native now window_size a st = Some (Next st') ->
  sender_inv native content st'.
Proof.
  intros Hinv H. rewrite on_ack_unfold in H.
  destruct (fill_window native now window_size (acked now a st))
    as [[[[]|e] st1]|] eqn:E; try discriminate.
  injection H as <-. eapply refill_inv; [exact E|]. now apply acked_inv.
Qed.

Lemma react_inv (ev : recv_event) (st st' : sender) :
  sender_inv native content st ->
  react native now window_size ev st = Some (Next st') ->
  sender_inv native content st'.
Proof.
  intros Hinv H. destruct ev as [response| | |]; cbn [react] in H;
    try discriminate.
  - destruct (parsePacket native response) as [[[[? a] flags] ?]|e];
      [|discriminate].
    destruct (truthy (Z.land flags FLAGS_ACK)).
    + eapply on_ack_inv; eassumption.
    + injection H as <-. exact Hinv.
  - destruct (on_timeout_inv st Hinv) as (st2 & Hrun & Hinv2).
    rewrite Hrun in H. injection H as <-. exact Hinv2.
Qed.

Lemma fill_or_finish_inv (st : sender) (o : flow sender) :
  sender_inv native content st ->
  fill_or_finish native now window_size st = Some o ->
  (forall st', o = Next st' -> sender_inv native content st') /\
  (forall st', o = Done st' ->
               sender_inv native content st' /\ s_window st' = [] /\
               (window_size <= 0 \/ at_end_of_file st' (s_seq_num st'))).
Proof.
  intros Hinv H. unfold fill_or_finish in H.
  destruct (fill_window native now window_size st)
    as [[[[]|e] st1]|] eqn:E; try discriminate.
  - pose proof (refill_inv _ _ _ E Hinv) as Hinv1.
    destruct (decide (s_window st1 = [])) as [He|Hne].
    + rewrite bool_decide_eq_true_2 in H by exact He. injection H as <-.
      split; [discriminate|]. intros st' [= <-].
      split; [exact Hinv1|]. split; [exact He|].
      destruct (refill_done native now window_size _ _ _ E) as [Hfull|[_ Heof]].
      * left. rewrite He in Hfull. cbn in Hfull. lia.
      * right. exact Heof.
    + rewrite bool_decide_eq_false_2 in H by exact Hne. injection H as <-.
      split; [|discriminate]. intros st' [= <-]. exact Hinv1.
  - injection H as <-. split; discriminate.
Qed.

Lemma established_loop_inv (evs : list recv_event) (st st' : sender) :
  sender_inv native content st ->
  established_loop native now window_size evs st = Some (Next st') ->
  sender_inv native content st'.
Proof.
  revert st. induction evs as [|ev evs IH]; intros st Hinv H.
  - injection H as <-. exact Hinv.
  - cbn [established_loop] in H. unfold established_iter in H.
    destruct (fill_or_finish native now window_size st) as [[st1| |]|] eqn:Ef;
      try discriminate.
    destruct (fill_or_finish_inv _ _ Hinv Ef) as [Hn _].
    specialize (Hn st1 eq_refl).
    destruct (react native now window_size ev st1) as [[st2| |]|] eqn:Er;
      try discriminate.
    apply (IH st2); [|exact H]. eapply react_inv; eassumption.
Qed.
(** The state the window-filling loop ends in, also when it raises. *)
Lemma refill_outcome (fuel : nat) (st : sender) (res : result unit) (st' : sender) :
  refill native now window_size fuel st = Some (res, st') ->
  sender_inv native content st ->
  match res with
  | Ok _ => sender_inv native content st'
  | Raise e => e = StructError /\ at_sequence_limit native content st'
  end.
Proof.
  intros H. pattern st, res, st'. revert fuel st res st' H.
  apply (refill_induction native now window_size).
  - intros st _ Hinv. exact Hinv.
  - intros st st1 _ E Hinv.
    pose proof (sendPacket_cases native now (s_seq_num st) (s_retransmit st) st) as Hc.
    rewrite E in Hc. cbn [fst snd] in Hc. inversion Hc; subst. exact Hinv.
  - intros st e st1 _ E Hinv. pose proof Hinv as (Hc & Hlen & Hw & Hd & Ht).
    pose proof (data_trace_bounds _ _ Ht) as [Hhi _].
    pose proof (sendPacket_cases native now (s_seq_num st) (s_retransmit st) st)
      as Hcase.
    rewrite E in Hcase. cbn [fst snd] in Hcase.
    inversion Hcase as [Hlow Er Est| | |
                        |Hin Hbig Er Est|Hnot Hbig Hne Er Est];
      try subst st1; try subst e; clear Hcase E.
    + lia.
    + pose proof (sender_inv_members _ _ Hinv Hin). lia.
    + split; [reflexivity|]. exists st.
      assert (s_seq_num st = 65536) as Hs by lia.
      rewrite Hc, Hs in Hne.
      cbn [s_seq_num s_window s_unack_packets s_sent s_file f_content
           tick with_window with_file file_after_chunk].
      rewrite Hs. repeat split; assumption.
  - intros st st1 res st' _ E IH Hinv. apply IH.
    eapply send_step_inv; eassumption.
Qed.

Lemma fill_or_finish_outcome (st : sender) (o : flow sender) :
  sender_inv native content st ->
  fill_or_finish native now window_size st = Some o ->
  outcome_inv native content o.
Proof.
  intros Hinv H. unfold fill_or_finish in H.
  destruct (fill_window native now window_size st) as [[[[]|e] st1]|] eqn:E;
    try discriminate;
    pose proof (refill_outcome _ _ _ _ E Hinv) as Hout.
  - destruct (bool_decide (s_window st1 = [])); injection H as <-; exact Hout.
  - injection H as <-. right. exact Hout.
Qed.

Lemma react_outcome (ev : recv_event) (st : sender) (o : flow sender) :
  sender_inv native content st ->
  react native now window_size ev st = Some o ->
  outcome_inv native content o.
Proof.
  intros Hinv H. destruct ev as [response| | |]; cbn [react] in H.
  - destruct (parsePacket native response) as [[[[? a] flags] ?]|e].
    + destruct (truthy (Z.land flags FLAGS_ACK)).
      * rewrite on_ack_unfold in H.
        destruct (fill_window native now window_size (acked now a st))
          as [[[[]|e] st1]|] eqn:E; try discriminate;
          pose proof (refill_outcome _ _ _ _ E (acked_inv a st Hinv)) as Hout;
          injection H as <-; [exact Hout | right; exact Hout].
      * injection H as <-. exact Hinv.
    + injection H as <-. left. exact Hinv.
  - destruct (on_timeout_inv st Hinv) as (st2 & Hrun & Hinv2).
    rewrite Hrun in H. injection H as <-. exact Hinv2.
  - injection H as <-. left. exact Hinv.
  - injection H as <-. left. exact Hinv.
Qed.

Lemma established_loop_outcome (evs : list recv_event) (st : sender)
      (o : flow sender) :
  sender_inv native content st ->
  established_loop native now window_size evs st = Some o ->
  outcome_inv native content o.
Proof.
  revert st. induction evs as [|ev evs IH]; intros st Hinv H.
  - injection H as <-. exact Hinv.
  - cbn [established_loop] in H. unfold established_iter in H.
    destruct (fill_or_finish native now window_size st) as [o1|] eqn:Ef;
      [|discriminate].
    pose proof (fill_or_finish_outcome _ _ Hinv Ef) as Hout1.
    destruct o1 as [st1|st1|e st1]; try (injection H as <-; exact Hout1).
    destruct (react native now window_size ev st1) as [o2|] eqn:Er;
      [|discriminate].
    pose proof (react_outcome _ _ _ Hout1 Er) as Hout2.
    destruct o2 as [st2|st2|e st2]; try (injection H as <-; exact Hout2).
    exact (IH st2 Hout2 H).
Qed.

(** The three shapes that follow from [outcome_inv]. *)
Lemma outcome_window_run (o : flow sender) :
  outcome_inv native content o -> window_run o.
Proof.
  assert (forall o st, flow_state o = st -> sender_inv native content st ->
                       window_run o) as Hinv.
  { intros o' st Hst (_ & Hlen & Hw & _). unfold window_run. rewrite Hst.
    split; [rewrite Hw; apply NoDup_seqZ|]. left. split; [exact Hw | lia]. }
  destruct o as [st|st|e st]; cbn [outcome_inv];
    try (apply Hinv; reflexivity).
  intros [H|(-> & st0 & (_ & Hlen & Hw & _) & Hs0 & _ & _ & Hs & Hwin & _)];
    [now apply (Hinv _ st)|].
  unfold window_run. cbn [flow_state].
  assert (s_window st
          = seqZ (s_seq_num st - Z.of_nat (length (s_window st)) + 1)
                 (Z.of_nat (length (s_window st)))) as Hrun.
  { rewrite Hwin at 1. rewrite Hwin, length_app. cbn [length].
    rewrite Nat.add_1_r, Nat2Z.inj_succ, <- Z.add_1_r.
    rewrite seqZ_snoc by lia. rewrite Hs, <- Hs0.
    f_equal; [|f_equal; lia]. rewrite Hw at 1. f_equal. lia. }
  split; [rewrite Hrun; apply NoDup_seqZ|]. right.
  split; [eexists; reflexivity|]. split; [exact Hs|]. split; [exact Hrun|].
  rewrite Hwin, length_app. cbn [length]. lia.
Qed.

Lemma outcome_send_times (o : flow sender) :
  outcome_inv native content o -> send_times_match o.
Proof.
  assert (forall o st, flow_state o = st -> sender_inv native content st ->
                       send_times_match o) as Hinv.
  { intros o' st Hst Hi. pose proof Hi as (_ & _ & _ & Hd & _).
    unfold send_times_match. rewrite Hst.
    assert (forall k, k ∈ s_window st -> k < s_seq_num st) as Hbelow
        by (intros k Hk; apply (sender_inv_members _ _ Hi Hk)).
    split; [|left; exact Hbelow].
    intros k. rewrite <- elem_of_dom, Hd, (elem_of_list_to_set (C := gset Z)).
    split; [intros Hk; split; [exact Hk | exact (Hbelow k Hk)] | tauto]. }
  destruct o as [st|st|e st]; cbn [outcome_inv];
    try (apply Hinv; reflexivity).
  intros [H|(-> & st0 & Hi & Hs0 & _ & _ & Hs & Hwin & Hu & _)];
    [now apply (Hinv _ st)|].
  pose proof Hi as (_ & _ & _ & Hd & _).
  unfold send_times_match. cbn [flow_state]. rewrite Hs, Hwin, Hu. split.
  - intros k. rewrite <- elem_of_dom, Hd, (elem_of_list_to_set (C := gset Z)).
    rewrite elem_of_app, list_elem_of_singleton. split.
    + intros Hk. pose proof (sender_inv_members _ _ Hi Hk). split; [now left | lia].
    + intros [[Hk| ->] Hlt]; [exact Hk | lia].
  - right. split; [eexists; reflexivity|]. split; [reflexivity|].
    intros k Hk. apply elem_of_app in Hk as [Hk|Hk].
    + pose proof (sender_inv_members _ _ Hi Hk). lia.
    + apply list_elem_of_singleton in Hk. now right.
Qed.

Lemma outcome_sent_packets (o : flow sender) :
  outcome_inv native content o ->
  Forall (data_packet_below native content (s_seq_num (flow_state o)))
         (s_sent (flow_state o)).
Proof.
  intros Hout.
  assert (data_trace native content (s_seq_num (flow_state o) - 1)
            (s_sent (flow_state o))) as Ht.
  { destruct o as [st|st|e st]; cbn [outcome_inv flow_state] in *.
    - now destruct Hout as (_ & _ & _ & _ & Ht).
    - now destruct Hout as (_ & _ & _ & _ & Ht).
    - destruct Hout as [(_ & _ & _ & _ & Ht)
                       |(_ & st0 & (_ & _ & _ & _ & Ht) & Hs0 & _ & _ & Hs & _ & _ & Hsent)];
        [exact Ht|].
      rewrite Hs, Hsent, <- Hs0. exact Ht. }
  eapply Forall_impl; [exact (data_trace_packets _ _ Ht)|]. cbn.
  intros packet (m & Hm & Hne & Hp). exists m.
  split; [lia|]. split; [exact Hne|].
  destruct (createPacket_range native _ _ _ _ _ Hp) as (Hr & _).
  destruct (parse_create_packet native m 0 0 (chunk content m))
    as (p & Hp1 & Hp2); try lia.
  assert (p = packet) as -> by congruence. split; [exact Hp2|].
  unfold createPacket in Hp.
  destruct (pack_HHH native m 0 0) as [hdr|] eqn:Eh; [|discriminate].
  injection Hp as <-. rewrite length_app, (pack_HHH_length _ _ _ _ _ Eh).
  pose proof (chunk_length content m). unfold DATA_SIZE, MAX_PACKET_SIZE in *. lia.
Qed.
End SenderShape.

Lemma chunk_nonempty_iff (content : bytes) (m : Z) :
  1 <= m -> (chunk content m <> [] <-> m <= chunk_count content).
Proof.
  intros Hm. unfold chunk_count, DATA_SIZE.
  assert (chunk content m <> [] <-> 994 * (m - 1) < Z.of_nat (length content)) as ->.
  { split.
    - intros Hne. destruct (decide (994 * (m - 1) < Z.of_nat (length content)))
        as [H|H]; [exact H|]. exfalso. apply Hne.
      apply chunk_past_end. unfold DATA_SIZE. lia.
    - intros H. apply chunk_before_end. unfold DATA_SIZE. lia. }
  split; intros H; Z.div_mod_to_equations; lia.
Qed.

Section SenderShapeProperties.
Variable native : byteorder.
Variable now : nat -> Z.
Variable window_size : Z.

(** Wherever the data-transfer loop stands or is left, the window is a
    run of consecutive sequence numbers without duplicates that starts
    at 1 or above ([window_run]): at the top of the loop, where
    [recvfrom] is called, after "DATA Finished" and where an exception
    has ended the loop.  The run ends just below the next sequence
    number to send, with one exception: where the loop was ended by
    the [struct.error] of sequence number 65536 the run can end at
    65536 itself, which [sendPacket] appended before [createPacket]
    failed.  [o] is how the loop stands after the receive outcomes
    [evs], [o1] how an iteration that starts there stands after its
    window is filled. *)
Theorem window_is_consecutive_run (content : bytes) (evs : list recv_event)
        (o : flow sender) :
  established_loop native now window_size evs (initial_sender content) = Some o ->
  window_run o /\
  forall st o1,
    o = Next st ->
    fill_or_finish native now window_size st = Some o1 ->
    window_run o1.
Proof.
  intros Hrun.
  pose proof (established_loop_outcome native now window_size content evs _ _
                (initial_sender_inv native content) Hrun) as Hout.
  split; [exact (outcome_window_run native content o Hout)|].
  intros st o1 -> Hfill.
  apply (outcome_window_run native content).
  exact (fill_or_finish_outcome native now window_size content st o1 Hout Hfill).
Qed.

(** Wherever the data-transfer loop stands or is left, the send-time
    map has exactly the window members below the next sequence number
    as keys ([send_times_match]): at the top of the loop, where
    [recvfrom] is called, after "DATA Finished" and where an exception
    has ended the loop.  These are all the window members, with one
    exception: where the loop was ended by the [struct.error] of
    sequence number 65536, 65536 is in the window and has no send
    time. *)
Theorem send_times_track_window (content : bytes) (evs : list recv_event)
        (o : flow sender) :
  established_loop native now window_size evs (initial_sender content) = Some o ->
  send_times_match o /\
  forall st o1,
    o = Next st ->
    fill_or_finish native now window_size st = Some o1 ->
    send_times_match o1.
Proof.
  intros Hrun.
  pose proof (established_loop_outcome native now window_size content evs _ _
                (initial_sender_inv native content) Hrun) as Hout.
  split; [exact (outcome_send_times native content o Hout)|].
  intros st o1 -> Hfill.
  apply (outcome_send_times native content).
  exact (fill_or_finish_outcome native now window_size content st o1 Hout Hfill).
Qed.

(** Every datagram the data-transfer loop has sent is the data packet
    of a chunk of the file ([data_packet_below]): it decodes to a
    sequence number from 1 to the one before the next, ack number 0,
    no flags and the non-empty chunk of that sequence number, and it
    has at most [MAX_PACKET_SIZE] bytes.  This holds wherever the loop
    stands or is left, also where an exception has ended it: the loop
    sends no empty packet, no flag and no sequence number it has not
    reached. *)
Theorem sent_datagrams_are_chunks (content : bytes) (evs : list recv_event)
        (o : flow sender) :
  established_loop native now window_size evs (initial_sender content) = Some o ->
  Forall (data_packet_below native content (s_seq_num (flow_state o)))
         (s_sent (flow_state o)) /\
  forall st o1,
    o = Next st ->
    fill_or_finish native now window_size st = Some o1 ->
    Forall (data_packet_below native content (s_seq_num (flow_state o1)))
           (s_sent (flow_state o1)).
Proof.
  intros Hrun.
  pose proof (established_loop_outcome native now window_size content evs _ _
                (initial_sender_inv native content) Hrun) as Hout.
  split; [exact (outcome_sent_packets native content o Hout)|].
  intros st o1 -> Hfill.
  apply (outcome_sent_packets native content).
  exact (fill_or_finish_outcome native now window_size content st o1 Hout Hfill).
Qed.

(** With a window size of at least 1, when the loop prints "DATA
    Finished" the whole file has been sent: the next sequence number
    is the number of chunks plus one, the packet of every chunk is
    among the datagrams sent, the window and the send-time map are
    empty, and the file has at most 65535 chunks (a longer file never
    gets there). *)
Theorem data_finished_all_chunks_sent (content : bytes) (evs : list recv_event)
        (st st' : sender) :
  1 <= window_size ->
  established_loop native now window_size evs (initial_sender content)
    = Some (Next st) ->
  fill_or_finish native now window_size st = Some (Done st') ->
  s_seq_num st' = chunk_count content + 1 /\
  chunk_count content <= 65535 /\
  s_window st' = [] /\
  s_unack_packets st' = ∅ /\
  forall m, 1 <= m <= chunk_count content ->
            exists packet,
              createPacket native m 0 0 (chunk content m) = Ok packet /\
              packet ∈ s_sent st'.
Proof.
  intros HW Hrun Hfill.
  pose proof (established_loop_inv native now window_size content evs _ _
                (initial_sender_inv native content) Hrun) as Hinv.
  destruct (fill_or_finish_inv native now window_size content st _ Hinv Hfill)
    as [_ Hd].
  destruct (Hd st' eq_refl) as ((Hc & Hlen & _ & Hdom & Ht) & He & [HW'|Heof]);
    [lia|].
  destruct (data_trace_bounds native content _ _ Ht) as [Hhi Hall].
  destruct Heof as [Hs Hempty]. rewrite Hc in Hempty.
  assert (s_seq_num st' = chunk_count content + 1) as Hseq.
  { destruct (decide (s_seq_num st' <= chunk_count content)) as [Hle|Hgt].
    - exfalso. apply (proj2 (chunk_nonempty_iff content _ Hs) Hle). exact Hempty.
    - destruct (decide (s_seq_num st' = 1)) as [H1|H1].
      + pose proof (chunk_nonempty_iff content 1 ltac:(lia)) as Hi.
        rewrite H1 in Hempty.
        destruct (decide (1 <= chunk_count content)) as [Hc1|Hc1];
          [exfalso; apply (proj2 Hi Hc1); exact Hempty|].
        assert (0 <= chunk_count content)
          by (unfold chunk_count, DATA_SIZE; Z.div_mod_to_equations; lia).
        lia.
      + destruct (Hall (s_seq_num st' - 1) ltac:(lia)) as [Hne _].
        apply (chunk_nonempty_iff content) in Hne; lia. }
  split; [exact Hseq|]. split; [lia|]. split; [exact He|]. split.
  - apply dom_empty_iff_L. rewrite Hdom, He. reflexivity.
  - intros m Hm. apply Hall. lia.
Qed.
End SenderShapeProperties.

(** [window_run] and [send_times_match] at the top of the loop. *)
Lemma window_run_next (st : sender) :
  window_run (Next st) ->
  s_window st = seqZ (s_seq_num st - Z.of_nat (length (s_window st)))
                     (Z.of_nat (length (s_window st))) /\
  NoDup (s_window st).
Proof.
  intros [Hnd [[Hrun _]|[[st' Hc] _]]]; [|discriminate].
  split; [exact Hrun | exact Hnd].
Qed.

Lemma send_times_match_next (st : sender) (k : Z) :
  send_times_match (Next st) ->
  is_Some (s_unack_packets st !! k) <-> k ∈ s_window st /\ k < s_seq_num st.
Proof. intros [H _]. exact (H k). Qed.

Lemma sent_packets_next (native : byteorder) (content : bytes) (st : sender)
      (seq_num : Z) (packet : bytes) (sent : list bytes) :
  Forall (data_packet_below native content (s_seq_num (flow_state (Next st))))
         (s_sent (flow_state (Next st))) ->
  s_seq_num st = seq_num ->
  s_sent st = packet :: sent ->
  data_packet_below native content seq_num packet.
Proof.
  cbn [flow_state]. intros H <- Hs. rewrite Hs in H.
  inversion H as [|p ps Hp _]. exact Hp.
Qed.

Lemma window_is_consecutive_run_witness :
  s_window sender_after_ack_timeout
  = seqZ (s_seq_num sender_after_ack_timeout
          - Z.of_nat (length (s_window sender_after_ack_timeout)))
         (Z.of_nat (length (s_window sender_after_ack_timeout))) /\
  NoDup (s_window sender_after_ack_timeout).
Proof.
  assert (established_loop LittleEndian counting_clock 2 [Datagram ack_1; Timeout]
            (initial_sender (file_of_size 2000))
          = Some (Next sender_after_ack_timeout)) as E
      by (vm_compute; reflexivity).
  exact (window_run_next _
           (proj1 (window_is_consecutive_run LittleEndian counting_clock 2
                     _ _ _ E))).
Defined.

Lemma send_times_track_window_witness :
  is_Some (s_unack_packets sender_after_ack_timeout !! 3)
  <-> 3 ∈ s_window sender_after_ack_timeout
      /\ 3 < s_seq_num sender_after_ack_timeout.
Proof.
  assert (established_loop LittleEndian counting_clock 2 [Datagram ack_1; Timeout]
            (initial_sender (file_of_size 2000))
          = Some (Next sender_after_ack_timeout)) as E
      by (vm_compute; reflexivity).
  exact (send_times_match_next _ 3
           (proj1 (send_times_track_window LittleEndian counting_clock 2
                     _ _ _ E))).
Defined.

Lemma sent_datagrams_are_chunks_witness :
  data_packet_below LittleEndian abc 2 abc_packet.
Proof.
  assert (established_loop LittleEndian counting_clock 3 [Datagram ack_1]
            (initial_sender abc)
          = Some (Next sender_abc_acked)) as E
      by (vm_compute; reflexivity).
  assert (s_sent sender_abc_acked = [abc_packet]) as Hs
      by (vm_compute; reflexivity).
  assert (s_seq_num sender_abc_acked = 2) as Hn by (vm_compute; reflexivity).
  exact (sent_packets_next _ _ _ _ _ _
           (proj1 (sent_datagrams_are_chunks LittleEndian counting_clock 3
                     _ _ _ E)) Hn Hs).
Defined.

Lemma data_finished_all_chunks_sent_witness :
  exists st',
    fill_or_finish LittleEndian counting_clock 3 sender_abc_acked
    = Some (Done st') /\
    s_seq_num st' = chunk_count abc + 1 /\
    s_window st' = [] /\
    s_unack_packets st' = ∅.
Proof.
  assert (established_loop LittleEndian counting_clock 3 [Datagram ack_1]
            (initial_sender abc)
          = Some (Next sender_abc_acked)) as E
      by (vm_compute; reflexivity).
  assert (fill_or_finish LittleEndian counting_clock 3 sender_abc_acked
          = Some (Done (state_or (initial_sender [])
                          (fill_or_finish LittleEndian counting_clock 3
                             sender_abc_acked)))) as F
      by (vm_compute; reflexivity).
  destruct (data_finished_all_chunks_sent LittleEndian counting_clock 3 _ _ _ _
              ltac:(lia) E F) as (Hs & _ & Hw & Hu & _).
  eexists. split; [exact F|]. split; [exact Hs|]. split; [exact Hw | exact Hu].
Defined.

(** ** Receiver: what the receive loop keeps *)

Section ReceiveLoopFacts.
Variable native : byteorder.
Variable now : nat -> Z.

Lemma fin_check_next (st st' : receiver) :
  fin_check native st = Next st' -> st' = st.
Proof.
  unfold fin_check. destruct (truthy _); [|congruence].
  destruct (createPacket native _ _ _ _); discriminate.
Qed.

Lemma ack_packet_ok (seq_num : Z) :
  0 <= seq_num < 65536 ->
  exists ack_packet,
    createPacket native 0 seq_num FLAGS_ACK [] = Ok ack_packet /\
    parsePacket native ack_packet = Ok (0, seq_num, FLAGS_ACK, []).
Proof.
  intros H. apply parse_create_packet; unfold FLAGS_ACK; lia.
Qed.

(** The state after a packet with the expected sequence number is
    accepted (lines 475-484). *)
Lemma accept_packet_expected (t seq_num : Z) (data ack_packet : bytes)
      (st : receiver) :
  seq_num = r_expected_seq_num st ->
  createPacket native 0 seq_num FLAGS_ACK [] = Ok ack_packet ->
  accept_packet native t seq_num data st =
  Ok (r_with_received (<[seq_num := data]> (r_received_data st))
        (r_with_expected (r_expected_seq_num st + 1)
           (r_print (LogSendingAck t seq_num)
              (r_sendto ack_packet
                 (r_print (LogPacketReceived t seq_num) st))))).
Proof.
  intros Heq Hp. unfold accept_packet.
  rewrite (proj2 (Z.eqb_eq _ _) Heq), Hp. reflexivity.
Qed.

Lemma accept_packet_other (t seq_num : Z) (data : bytes) (st : receiver) :
  seq_num <> r_expected_seq_num st ->
  accept_packet native t seq_num data st =
  Ok (r_print (LogOutOfOrder t seq_num) st).
Proof.
  intros Hne. unfold accept_packet.
  now rewrite (proj2 (Z.eqb_neq _ _) Hne).
Qed.

Lemma accept_packet_inv (t seq_num : Z) (data : bytes) (st st' : receiver) :
  0 <= seq_num < 65536 ->
  receiver_inv native st ->
  accept_packet native t seq_num data st = Ok st' ->
  receiver_inv native st'.
Proof.
  intros Hr (He & Hd & Hs) H.
  destruct (decide (seq_num = r_expected_seq_num st)) as [Heq|Hne].
  - destruct (ack_packet_ok seq_num Hr) as (ack & Hack & _).
    rewrite (accept_packet_expected _ _ _ ack) in H by assumption.
    injection H as <-. unfold receiver_inv.
    cbn [r_expected_seq_num r_received_data r_sent r_with_received
         r_with_expected r_print r_sendto].
    replace (r_expected_seq_num st + 1 - 1) with (r_expected_seq_num st - 1 + 1)
      by lia.
    rewrite seqZ_snoc by lia.
    replace (1 + (r_expected_seq_num st - 1)) with seq_num by lia.
    split; [lia|]. split.
    + rewrite dom_insert_L, Hd, list_to_set_app_L. cbn [list_to_set].
      set_solver.
    + apply Forall2_app; [exact Hs|]. constructor; [exact Hack|constructor].
  - rewrite accept_packet_other in H by exact Hne. injection H as <-.
    exact (conj He (conj Hd Hs)).
Qed.

Lemma receive_iter_inv (ev : recv_event) (st st' : receiver) :
  receiver_inv native st ->
  receive_iter native now ev st = Next st' ->
  receiver_inv native st'.
Proof.
  intros Hinv H. unfold receive_iter in H.
  destruct ev as [response| | |]; try discriminate.
  - destruct (parsePacket native response) as [[[[seq_num a] flags] data]|e] eqn:Ep;
      [|discriminate].
    destruct (parsePacket_range _ _ _ _ _ _ Ep) as (Hr & _).
    cbn [r_discard r_with_parsed r_tick] in H.
    destruct (equals_discard seq_num (r_discard st)).
    + injection H as <-. exact Hinv.
    + destruct (accept_packet native _ seq_num data _) as [st1|e] eqn:Ea;
        [|discriminate].
      apply fin_check_next in H. subst st'.
      eapply accept_packet_inv; [exact Hr | | exact Ea]. exact Hinv.
  - apply fin_check_next in H. subst st'. exact Hinv.
Qed.

Lemma receive_loop_inv (evs rest : list recv_event) (st st' : receiver) :
  receiver_inv native st ->
  receive_loop native now evs st = (Next st', rest) ->
  receiver_inv native st'.
Proof.
  revert st. induction evs as [|ev evs IH]; intros st Hinv H.
  - injection H as <- _. exact Hinv.
  - cbn [receive_loop] in H.
    destruct (receive_iter native now ev st) as [st1|st1|e st1] eqn:E;
      try discriminate.
    apply (IH st1); [|exact H]. eapply receive_iter_inv; eassumption.
Qed.

Lemma initial_receiver_inv (discard : option Z) (seq_num flags : Z) :
  receiver_inv native (initial_receiver discard seq_num flags).
Proof.
  unfold receiver_inv. cbn. split; [lia|].
  split; [apply dom_empty_L | constructor].
Qed.

(** From the start of the data phase on, at the top of the receive
    loop: the next expected sequence number is between 1 and 65536;
    the received-data map has exactly the sequence numbers from 1 to
    the one before it as keys, without a gap; and the datagrams sent
    are the pure ACKs of these sequence numbers in increasing order,
    one each.  This holds whatever arrives, in whatever order, and
    with or without a discard directive. *)
Theorem received_data_has_no_gaps (discard : option Z) (seq_num flags : Z)
        (evs rest : list recv_event) (st : receiver) :
  receive_loop native now evs (initial_receiver discard seq_num flags)
    = (Next st, rest) ->
  1 <= r_expected_seq_num st <= 65536 /\
  (forall k, is_Some (r_received_data st !! k)
             <-> 1 <= k < r_expected_seq_num st) /\
  Forall2 (fun m packet => parsePacket native packet = Ok (0, m, FLAGS_ACK, []))
          (seqZ 1 (r_expected_seq_num st - 1)) (r_sent st).
Proof.
  intros H.
  destruct (receive_loop_inv _ _ _ _ (initial_receiver_inv discard seq_num flags) H)
    as (He & Hd & Hs).
  split; [exact He|]. split.
  - intros k. rewrite <- elem_of_dom, Hd, elem_of_list_to_set, elem_of_seqZ. lia.
  - eapply Forall2_impl; [exact Hs|]. cbn. intros m packet Hp.
    destruct (createPacket_range native _ _ _ _ _ Hp) as (_ & Hm & _).
    destruct (ack_packet_ok m Hm) as (p & Hp1 & Hp2). congruence.
Qed.
End ReceiveLoopFacts.

(** Instance of [received_data_has_no_gaps]: the packet with sequence
    number 7 arrives first and is dropped. *)
Lemma received_data_has_no_gaps_witness :
  exists st,
    receive_loop LittleEndian counting_clock [Datagram data_7]
      (initial_receiver None 1 2) = (Next st, []) /\
    r_expected_seq_num st = 1 /\ r_sent st = [].
Proof.
  set (r := receive_loop LittleEndian counting_clock [Datagram data_7]
              (initial_receiver None 1 2)).
  assert (r = (Next (flow_state r.1), [])) as E by (vm_compute; reflexivity).
  destruct (received_data_has_no_gaps LittleEndian counting_clock None 1 2
              _ _ _ E) as (_ & _ & Hs).
  exists (flow_state r.1). split; [exact E|].
  split; [vm_compute; reflexivity|].
  assert (r_expected_seq_num (flow_state r.1) = 1) as He
      by (vm_compute; reflexivity).
  rewrite He in Hs. inversion Hs. reflexivity.
Defined.

Section ReceiverEdges.
Variable native : byteorder.
Variable now : nat -> Z.

Lemma receive_iter_parsed (response : bytes) (seq_num ack_num flags : Z)
      (data : bytes) (st : receiver) :
  parsePacket native response = Ok (seq_num, ack_num, flags, data) ->
  receive_iter native now (Datagram response) st =
  let st1 := r_with_parsed seq_num flags (r_tick st) in
  if equals_discard seq_num (r_discard st)
  then Next (r_with_discard None st1)
  else match accept_packet native (now (r_clock st)) seq_num data st1 with
       | Raise e => Crash e st1
       | Ok st2 => fin_check native st2
       end.
Proof. intros H. unfold receive_iter. rewrite H. reflexivity. Qed.

Lemma receive_iter_keeps_no_discard (ev : recv_event) (st st' : receiver) :
  r_discard st = None ->
  receive_iter native now ev st = Next st' ->
  r_discard st' = None.
Proof.
  intros Hd H. unfold receive_iter in H.
  destruct ev as [response| | |]; try discriminate.
  - destruct (parsePacket native response) as [[[[seq_num a] flags] data]|e];
      [|discriminate].
    cbn [r_discard r_with_parsed r_tick] in H. rewrite Hd in H.
    cbn [equals_discard] in H. unfold accept_packet in H.
    cbn [r_expected_seq_num r_with_parsed r_tick] in H.
    destruct (seq_num =? r_expected_seq_num st).
    + destruct (createPacket native 0 seq_num FLAGS_ACK []); [|discriminate].
      cbn [rbind] in H. apply fin_check_next in H. subst st'. exact Hd.
    + apply fin_check_next in H. subst st'. exact Hd.
  - apply fin_check_next in H. subst st'. exact Hd.
Qed.

Lemma receive_loop_keeps_no_discard (evs rest : list recv_event)
      (st st' : receiver) :
  r_discard st = None ->
  receive_loop native now evs st = (Next st', rest) ->
  r_discard st' = None.
Proof.
  revert st. induction evs as [|ev evs IH]; intros st Hd H.
  - injection H as <- _. exact Hd.
  - cbn [receive_loop] in H.
    destruct (receive_iter native now ev st) as [st1|st1|e st1] eqn:E;
      try discriminate.
    apply (IH st1); [|exact H]. eapply receive_iter_keeps_no_discard; eassumption.
Qed.

(** The discard directive drops one packet and no more.  When the
    expected data packet has the discard number, its first arrival is
    dropped (nothing sent or stored, the directive cleared) and its
    second arrival, the retransmission, is accepted: ACK sent, payload
    stored, [expected_seq_num] incremented.  Once cleared the
    directive stays cleared for the rest of the loop. *)
Theorem discard_drops_once (st : receiver) (response : bytes)
        (seq_num ack_num flags : Z) (data : bytes) :
  parsePacket native response = Ok (seq_num, ack_num, flags, data) ->
  truthy (Z.land flags FLAGS_FIN) = false ->
  r_discard st = Some seq_num ->
  seq_num = r_expected_seq_num st ->
  exists st1 st2 ack_packet,
    receive_iter native now (Datagram response) st = Next st1 /\
    r_sent st1 = r_sent st /\
    r_received_data st1 = r_received_data st /\
    r_expected_seq_num st1 = r_expected_seq_num st /\
    r_discard st1 = None /\
    receive_iter native now (Datagram response) st1 = Next st2 /\
    r_sent st2 = r_sent st ++ [ack_packet] /\
    parsePacket native ack_packet = Ok (0, seq_num, FLAGS_ACK, []) /\
    r_received_data st2 = <[seq_num := data]> (r_received_data st) /\
    r_expected_seq_num st2 = r_expected_seq_num st + 1 /\
    (forall evs rest st3,
        receive_loop native now evs st2 = (Next st3, rest) ->
        r_discard st3 = None).
Proof.
  intros Hparse Hfin Hdisc Heq.
  destruct (parsePacket_range _ _ _ _ _ _ Hparse) as (Hr & _).
  destruct (ack_packet_ok native seq_num Hr) as (ack & Hack & Hackp).
  eexists _, _, ack. split.
  { rewrite (receive_iter_parsed _ _ _ _ _ _ Hparse). cbv zeta.
    rewrite Hdisc. cbn [equals_discard]. rewrite Z.eqb_refl. reflexivity. }
  cbn [r_sent r_received_data r_expected_seq_num r_discard r_with_discard
       r_with_parsed r_tick].
  do 4 (split; [reflexivity|]). split.
  { rewrite (receive_iter_parsed _ _ _ _ _ _ Hparse). cbv zeta.
    cbn [r_discard r_with_discard equals_discard].
    rewrite (accept_packet_expected native _ _ _ ack) by first [exact Hack | exact Heq].
    apply fin_check_no_fin. exact Hfin. }
  cbn [r_sent r_received_data r_expected_seq_num r_discard r_with_discard
       r_with_parsed r_tick r_with_received r_with_expected r_print r_sendto].
  split; [reflexivity|]. split; [exact Hackp|]. do 2 (split; [reflexivity|]).
  intros evs rest st3 H.
  eapply receive_loop_keeps_no_discard; [|exact H]. reflexivity.
Qed.

(** A packet with the FIN flag that is not dropped by the discard
    directive ends the receive loop.  With a sequence number below
    65535 the last datagram sent is the FIN-ACK; if the sequence number
    is the expected one the packet is first admitted like a data
    packet (its payload stored, its ACK sent before the FIN-ACK), and
    otherwise nothing else is sent or stored.  With sequence number
    65535 the FIN-ACK cannot be built: [createPacket] raises
    [struct.error] and [receiveFile] ends without writing the file. *)
Theorem fin_ends_receive_loop (st : receiver) (response : bytes)
        (seq_num ack_num flags : Z) (data : bytes) :
  parsePacket native response = Ok (seq_num, ack_num, flags, data) ->
  truthy (Z.land flags FLAGS_FIN) = true ->
  equals_discard seq_num (r_discard st) = false ->
  (seq_num < 65535 ->
   exists st' fin_ack,
     receive_iter native now (Datagram response) st = Done st' /\
     parsePacket native fin_ack
       = Ok (seq_num + 1, 0, Z.lor FLAGS_ACK FLAGS_FIN, []) /\
     (seq_num <> r_expected_seq_num st ->
      r_sent st' = r_sent st ++ [fin_ack] /\
      r_received_data st' = r_received_data st) /\
     (seq_num = r_expected_seq_num st ->
      exists ack_packet,
        parsePacket native ack_packet = Ok (0, seq_num, FLAGS_ACK, []) /\
        r_sent st' = r_sent st ++ [ack_packet; fin_ack] /\
        r_received_data st' = <[seq_num := data]> (r_received_data st))) /\
  (seq_num = 65535 ->
   exists st', receive_iter native now (Datagram response) st
               = Crash StructError st').
Proof.
  intros Hparse Hfin Hdisc.
  destruct (parsePacket_range _ _ _ _ _ _ Hparse) as (Hr & _).
  destruct (ack_packet_ok native seq_num Hr) as (ack & Hack & Hackp).
  rewrite (receive_iter_parsed _ _ _ _ _ _ Hparse). cbv zeta. rewrite Hdisc.
  set (st1 := r_with_parsed seq_num flags (r_tick st)).
  assert (r_expected_seq_num st1 = r_expected_seq_num st) as He1 by reflexivity.
  split.
  - intros Hlt.
    destruct (parse_create_packet native (seq_num + 1) 0
                (Z.lor FLAGS_ACK FLAGS_FIN) [])
      as (fin_ack & Hfa & Hfap);
      try lia; try (vm_compute; split; [discriminate | reflexivity]).
    destruct (decide (seq_num = r_expected_seq_num st)) as [Heq|Hne].
    + eexists; exists fin_ack; split.
      { rewrite (accept_packet_expected native _ _ _ ack)
          by first [exact Hack | exact Heq].
        unfold fin_check.
        cbn [r_flags r_seq_num r_with_received r_with_expected r_print r_sendto
             r_with_parsed r_tick st1].
        rewrite Hfin, Hfa. reflexivity. }
      split; [exact Hfap|].
      split; [intros Hc; contradiction|]. intros _. exists ack.
      cbn. rewrite <- app_assoc. auto.
    + eexists; exists fin_ack; split.
      { rewrite accept_packet_other by exact Hne.
        unfold fin_check. cbn [r_flags r_seq_num r_print r_with_parsed r_tick st1].
        rewrite Hfin, Hfa. reflexivity. }
      split; [exact Hfap|].
      split; [intros _; cbn; auto|]. intros Hc. contradiction.
  - intros Hmax.
    assert (createPacket native (seq_num + 1) 0 (Z.lor FLAGS_ACK FLAGS_FIN) []
            = Raise StructError) as Hraise.
    { unfold createPacket, pack_HHH.
      rewrite (pack_uint_out_of_range _ 2 (seq_num + 1)) by (cbn; lia).
      reflexivity. }
    destruct (decide (seq_num = r_expected_seq_num st)) as [Heq|Hne].
    + eexists.
      rewrite (accept_packet_expected native _ _ _ ack)
        by first [exact Hack | exact Heq].
      unfold fin_check.
      cbn [r_flags r_seq_num r_with_received r_with_expected r_print r_sendto
           r_with_parsed r_tick st1].
      rewrite Hfin, Hraise. reflexivity.
    + eexists. rewrite accept_packet_other by exact Hne.
      unfold fin_check. cbn [r_flags r_seq_num r_print r_with_parsed r_tick st1].
      rewrite Hfin, Hraise. reflexivity.
Qed.
End ReceiverEdges.

Lemma discard_drops_once_witness :
  exists st1 st2,
    receive_iter LittleEndian counting_clock (Datagram data_5)
      (receiver_at_5 (Some 5)) = Next st1 /\
    r_sent st1 = [] /\
    r_discard st1 = None /\
    receive_iter LittleEndian counting_clock (Datagram data_5) st1 = Next st2 /\
    r_received_data st2 = <[5 := [x41]]> ∅ /\
    r_expected_seq_num st2 = 6.
Proof.
  destruct (discard_drops_once LittleEndian counting_clock (receiver_at_5 (Some 5))
              data_5 5 0 0 [x41])
    as (st1 & st2 & ack_packet & H1 & Hs1 & _ & _ & Hd1 & H2 & _ & _ & Hr2 & He2 & _).
  - vm_compute. reflexivity.
  - reflexivity.
  - reflexivity.
  - reflexivity.
  - exists st1, st2. repeat split; assumption.
Defined.

Lemma fin_ends_receive_loop_witness :
  exists st' fin_ack,
    receive_iter LittleEndian counting_clock (Datagram fin_4) (receiver_at_5 None)
    = Done st' /\
    parsePacket LittleEndian fin_ack = Ok (5, 0, Z.lor FLAGS_ACK FLAGS_FIN, []) /\
    r_sent st' = [fin_ack] /\
    r_received_data st' = ∅.
Proof.
  destruct (fin_ends_receive_loop LittleEndian counting_clock (receiver_at_5 None)
              fin_4 4 0 4 []) as [Hok _].
  - vm_compute. reflexivity.
  - reflexivity.
  - reflexivity.
  - destruct (Hok ltac:(lia)) as (st' & fin_ack & Hr & Hp & Hne & _).
    destruct Hne as [Hs Hd]; [cbn; lia|].
    exists st', fin_ack. repeat split; assumption.
Defined.

(** ** Receiver: the file written *)

Lemma Sorted_seqZ (m : Z) (n : nat) : Sorted Z.le (seqZ m (Z.of_nat n)).
Proof.
  revert m. induction n as [|n IH]; intros m.
  - rewrite seqZ_nil by lia. constructor.
  - rewrite seqZ_cons by lia.
    replace (Z.pred (Z.of_nat (S n))) with (Z.of_nat n) by lia.
    constructor; [apply IH|].
    destruct n as [|n].
    + rewrite seqZ_nil by lia. constructor.
    + rewrite seqZ_cons by lia. constructor. lia.
Qed.

(** [sorted] of a map whose keys are 1 to [n]. *)
Lemma sorted_keys_run (m : gmap Z bytes) (n : nat) :
  (forall k, is_Some (m !! k) <-> 1 <= k <= Z.of_nat n) ->
  sorted_keys m = seqZ 1 (Z.of_nat n).
Proof.
  intros Hkeys. unfold sorted_keys.
  apply (Sorted_unique Z.le).
  - apply Sorted_merge_sort. apply _.
  - apply Sorted_seqZ.
  - rewrite merge_sort_Permutation. apply NoDup_Permutation.
    + apply NoDup_fst_map_to_list.
    + apply NoDup_seqZ.
    + intros k. rewrite elem_of_seqZ, list_elem_of_fmap. split.
      * intros ([k' v] & -> & Hin). apply elem_of_map_to_list in Hin.
        cbn. assert (1 <= k' <= Z.of_nat n) by (apply Hkeys; eauto). lia.
      * intros Hk. destruct (proj2 (Hkeys k) ltac:(lia)) as [v Hv].
        exists (k, v). split; [reflexivity|]. now apply elem_of_map_to_list.
Qed.

Lemma concat_chunks (content : bytes) (n : nat) :
  concat (chunk content <$> seqZ 1 (Z.of_nat n))
  = take (Z.to_nat (DATA_SIZE * Z.of_nat n)) content.
Proof.
  induction n as [|n IH].
  - rewrite seqZ_nil by lia. reflexivity.
  - rewrite Nat2Z.inj_succ, <- Z.add_1_r, seqZ_snoc by lia.
    rewrite fmap_app, concat_app, IH. cbn [fmap list_fmap concat].
    rewrite app_nil_r. unfold chunk.
    replace (DATA_SIZE * (1 + Z.of_nat n - 1)) with (DATA_SIZE * Z.of_nat n)
      by lia.
    rewrite take_take_drop. f_equal. unfold DATA_SIZE. lia.
Qed.

(** The file written when the keys of the map are 1 to [n]: the
    values in the order of their keys. *)
Lemma written_file_run (m : gmap Z bytes) (n : nat) (f : Z -> bytes) :
  (forall k, is_Some (m !! k) <-> 1 <= k <= Z.of_nat n) ->
  (forall k, 1 <= k <= Z.of_nat n -> m !! k = Some (f k)) ->
  written_file m = concat (f <$> seqZ 1 (Z.of_nat n)).
Proof.
  intros Hkeys Hvals. unfold written_file.
  rewrite (sorted_keys_run m n Hkeys). f_equal.
  apply list_fmap_ext. intros i k Hk.
  apply list_elem_of_lookup_2, elem_of_seqZ in Hk.
  rewrite Hvals by lia. reflexivity.
Qed.

Lemma take_chunks_all (content : bytes) (n : Z) :
  chunk_count content <= n ->
  take (Z.to_nat (DATA_SIZE * n)) content = content.
Proof.
  intros Hn. apply take_ge.
  unfold chunk_count, DATA_SIZE in *. Z.div_mod_to_equations. lia.
Qed.

Section ReceiveTrace.
Variable native : byteorder.
Variable now : nat -> Z.
Variable content : bytes.

Lemma receive_loop_app (evs1 evs2 : list recv_event) (st st1 : receiver) :
  receive_loop native now evs1 st = (Next st1, []) ->
  receive_loop native now (evs1 ++ evs2) st = receive_loop native now evs2 st1.
Proof.
  revert st. induction evs1 as [|ev evs1 IH]; intros st H.
  - injection H as <-. reflexivity.
  - cbn [receive_loop app] in *.
    destruct (receive_iter native now ev st) as [st2|st2|e st2].
    + now apply IH.
    + discriminate.
    + discriminate.
Qed.

(** The receiver, without discard directive, fed with the datagrams
    of a [data_trace]: it accepts every chunk once, in order. *)
Lemma receive_data_trace (hi : Z) (sent : list bytes) (st0 : receiver) :
  data_trace native content hi sent ->
  r_expected_seq_num st0 = 1 ->
  r_discard st0 = None ->
  r_received_data st0 = ∅ ->
  exists st',
    receive_loop native now (Datagram <$> sent) st0 = (Next st', []) /\
    r_expected_seq_num st' = hi + 1 /\
    r_discard st' = None /\
    forall k, r_received_data st' !! k
              = if decide (1 <= k <= hi) then Some (chunk content k) else None.
Proof.
  intros Ht He0 Hd0 Hr0.
  induction Ht as [|hi sent packet Ht IH Hne Hp|hi sent m packet Ht IH Hm Hp].
  - exists st0. split; [reflexivity|]. split; [exact He0|]. split; [exact Hd0|].
    intros k. rewrite Hr0, lookup_empty. rewrite decide_False by lia. reflexivity.
  - destruct IH as (st1 & Hrun & He & Hd & Hdata).
    pose proof (data_trace_bounds _ _ _ _ Ht) as [Hb _].
    destruct (createPacket_range native _ _ _ _ _ Hp) as (Hr & _).
    destruct (parse_create_packet native (hi + 1) 0 0 (chunk content (hi + 1)))
      as (p & Hp1 & Hparse); try lia.
    assert (p = packet) as -> by congruence.
    destruct (ack_packet_ok native (hi + 1) Hr) as (ack & Hack & _).
    rewrite fmap_app, (receive_loop_app _ _ _ _ Hrun).
    cbn [fmap list_fmap receive_loop].
    rewrite (receive_iter_parsed native now _ _ _ _ _ _ Hparse). cbv zeta.
    rewrite Hd. cbn [equals_discard].
    rewrite (accept_packet_expected native _ _ _ ack)
      by first [exact Hack | symmetry; exact He].
    rewrite fin_check_no_fin by reflexivity.
    eexists. split; [reflexivity|].
    cbn [r_expected_seq_num r_discard r_received_data r_with_received
         r_with_expected r_print r_sendto r_with_parsed r_tick].
    split; [lia|]. split; [exact Hd|]. intros k.
    destruct (decide (k = hi + 1)) as [->|Hk].
    + rewrite lookup_insert_eq. rewrite decide_True by lia. reflexivity.
    + rewrite lookup_insert_ne by congruence. rewrite Hdata.
      destruct (decide (1 <= k <= hi)); [rewrite decide_True by lia
                                        |rewrite decide_False by lia];
        reflexivity.
  - destruct IH as (st1 & Hrun & He & Hd & Hdata).
    destruct (createPacket_range native _ _ _ _ _ Hp) as (Hr & _).
    destruct (parse_create_packet native m 0 0 (chunk content m))
      as (p & Hp1 & Hparse); try lia.
    assert (p = packet) as -> by congruence.
    rewrite fmap_app, (receive_loop_app _ _ _ _ Hrun).
    cbn [fmap list_fmap receive_loop].
    rewrite (receive_iter_parsed native now _ _ _ _ _ _ Hparse). cbv zeta.
    rewrite Hd. cbn [equals_discard].
    rewrite accept_packet_other
      by (cbn [r_expected_seq_num r_with_parsed r_tick]; lia).
    rewrite fin_check_no_fin by reflexivity.
    eexists. split; [reflexivity|].
    cbn [r_expected_seq_num r_discard r_received_data r_print r_with_parsed r_tick].
    auto.
Qed.
End ReceiveTrace.

(** ** The whole of [sendFile] *)

Section SendFileFacts.
Variable native : byteorder.
Variable now : nat -> Z.
Variable window_size : Z.
Variable content : bytes.

Lemma synsent_loop_sent (syn_packet : bytes) (evs rest : list recv_event)
      (st : io) (o : synsent_flow) :
  synsent_loop native syn_packet evs st = (o, rest) ->
  exists k, io_sent (synsent_state o) = io_sent st ++ replicate k syn_packet.
Proof.
  revert st. induction evs as [|ev evs IH]; intros st H.
  - injection H as <- _. exists O. cbn. now rewrite app_nil_r.
  - cbn [synsent_loop] in H.
    destruct (synsent_iter native syn_packet ev st) as [st1|s st1|st1|e st1] eqn:E.
    + destruct (IH st1 H) as [k Hk].
      unfold synsent_iter in E. destruct ev as [response| | |]; try discriminate.
      * destruct (parseSynPacket native response) as [[[[? ?] flags] ?]|];
          [|discriminate].
        destruct (_ && _); [discriminate|]. injection E as <-.
        exists k. exact Hk.
      * injection E as <-. exists (S k). rewrite Hk. cbn.
        now rewrite <- app_assoc.
    + injection H as <- _. exists O. cbn. rewrite app_nil_r.
      unfold synsent_iter in E. destruct ev as [response| | |]; try discriminate.
      destruct (parseSynPacket native response) as [[[[? ?] flags] ?]|];
        [|discriminate].
      destruct (_ && _); [|discriminate]. now injection E as _ <-.
    + injection H as <- _. exists O. cbn. rewrite app_nil_r.
      unfold synsent_iter in E. destruct ev as [response| | |]; try discriminate.
      * destruct (parseSynPacket native response) as [[[[? ?] flags] ?]|];
          [|discriminate].
        destruct (_ && _); discriminate.
      * now injection E as <-.
      * now injection E as <-.
    + injection H as <- _. exists O. cbn. rewrite app_nil_r.
      unfold synsent_iter in E. destruct ev as [response| | |]; try discriminate.
      destruct (parseSynPacket native response) as [[[[? ?] flags] ?]|];
        [|now injection E as _ <-].
      destruct (_ && _); discriminate.
Qed.

Lemma closing_loop_sent (fin_packet : bytes) (evs rest : list recv_event)
      (t : transcript) (o : flow transcript) :
  closing_loop native fin_packet evs t = (o, rest) ->
  exists j, t_sent (flow_state o) = t_sent t ++ replicate j fin_packet.
Proof.
  revert t. induction evs as [|ev evs IH]; intros t H.
  - injection H as <- _. exists O. cbn. now rewrite app_nil_r.
  - cbn [closing_loop] in H.
    destruct (closing_iter native fin_packet ev t) as [t1|t1|e t1] eqn:E.
    + destruct (IH t1 H) as [j Hj].
      unfold closing_iter in E. destruct ev as [response| | |]; try discriminate.
      * destruct (parsePacket native response) as [[[[? ?] flags] ?]|];
          [|discriminate].
        destruct (_ && _); [discriminate|]. injection E as <-.
        exists j. exact Hj.
      * injection E as <-. exists (S j). rewrite Hj. cbn.
        now rewrite <- app_assoc.
    + injection H as <- _. exists O. cbn. rewrite app_nil_r.
      unfold closing_iter in E. destruct ev as [response| | |]; try discriminate.
      destruct (parsePacket native response) as [[[[? ?] flags] ?]|];
        [|discriminate].
      destruct (_ && _); [|discriminate]. now injection E as <-.
    + injection H as <- _. exists O. cbn. rewrite app_nil_r.
      unfold closing_iter in E. destruct ev as [response| | |].
      * destruct (parsePacket native response) as [[[[? ?] flags] ?]|];
          [|now injection E as _ <-].
        destruct (_ && _); discriminate.
      * discriminate.
      * now injection E as _ <-.
      * now injection E as _ <-.
Qed.

Lemma established_run_unfold (evs : list recv_event) (st : sender) :
  established_run native now window_size evs st =
  match fill_or_finish native now window_size st with
  | Some (Next st) =>
      match evs with
      | [] => Some (Next st, [])
      | ev :: evs =>
          match react native now window_size ev st with
          | Some (Next st) => established_run native now window_size evs st
          | Some o => Some (o, evs)
          | None => None
          end
      end
  | Some o => Some (o, evs)
  | None => None
  end.
Proof. destruct evs; reflexivity. Qed.

Lemma established_run_total (evs : list recv_event) (st : sender) :
  exists r, established_run native now window_size evs st = Some r.
Proof.
  revert st. induction evs as [|ev evs IH]; intros st;
    rewrite established_run_unfold;
    destruct (fill_or_finish_result native now window_size st) as (o & Ho & _);
    rewrite Ho; destruct o as [st1|st1|e st1]; try (eexists; reflexivity).
  destruct (react_result native now window_size ev st1) as [o Hr].
  rewrite Hr. destruct o as [st2|st2|e st2]; try (eexists; reflexivity).
  apply IH.
Qed.

Lemma established_run_done (evs rest : list recv_event) (st st' : sender) :
  sender_inv native content st ->
  established_run native now window_size evs st = Some (Done st', rest) ->
  sender_inv native content st' /\ s_window st' = [] /\
  (window_size <= 0 \/ at_end_of_file st' (s_seq_num st')).
Proof.
  revert st. induction evs as [|ev evs IH]; intros st Hinv H;
    rewrite established_run_unfold in H;
    destruct (fill_or_finish native now window_size st) as [[st1|st1|e st1]|] eqn:Ef;
    try discriminate;
    destruct (fill_or_finish_inv native now window_size content _ _ Hinv Ef)
      as [Hn Hd].
  - injection H as <- _. now apply Hd.
  - destruct (react native now window_size ev st1) as [[st2|st2|e st2]|] eqn:Er;
      try discriminate.
    + apply (IH st2); [|exact H]. eapply react_inv; [|exact Er]. now apply Hn.
    + exfalso. clear - Er. destruct ev as [response| | |]; cbn [react] in Er.
      * destruct (parsePacket native response) as [[[[? a] flags] ?]|];
          [|discriminate].
        destruct (truthy _); [|discriminate].
        destruct (on_ack_result native now window_size a st1) as (o & Ho & _ & _ & Hnd).
        rewrite Ho in Er. injection Er as ->. eapply Hnd. reflexivity.
      * unfold on_timeout in Er.
        destruct (retransmit_all native now _ _) as [[[]|] ?]; discriminate.
      * discriminate.
      * discriminate.
  - injection H as <- _. now apply Hd.
Qed.

Lemma end_of_file_seq_num (st : sender) :
  sender_inv native content st ->
  at_end_of_file st (s_seq_num st) ->
  s_seq_num st = chunk_count content + 1.
Proof.
  intros (Hc & _ & _ & _ & Ht) [Hs Hempty]. rewrite Hc in Hempty.
  destruct (data_trace_bounds native content _ _ Ht) as [_ Hall].
  destruct (decide (s_seq_num st <= chunk_count content)) as [Hle|Hgt].
  - exfalso. apply (proj2 (chunk_nonempty_iff content _ Hs) Hle). exact Hempty.
  - destruct (decide (s_seq_num st = 1)) as [H1|H1].
    + assert (0 <= chunk_count content)
        by (unfold chunk_count, DATA_SIZE; Z.div_mod_to_equations; lia).
      lia.
    + destruct (Hall (s_seq_num st - 1) ltac:(lia)) as [Hne _].
      apply (chunk_nonempty_iff content) in Hne; lia.
Qed.

Lemma data_trace_zero (sent : list bytes) :
  data_trace native content 0 sent -> sent = [].
Proof.
  intros H. remember 0 as hi eqn:Ehi.
  induction H as [|hi sent packet Ht _ _ _|hi sent m packet _ _ Hm _].
  - reflexivity.
  - pose proof (data_trace_bounds native content _ _ Ht). lia.
  - lia.
Qed.

Lemma established_run_no_window (evs : list recv_event) :
  window_size <= 0 ->
  established_run native now window_size evs (initial_sender content)
  = Some (Done (print LogDataFinished (initial_sender content)), evs).
Proof.
  intros HW. rewrite established_run_unfold.
  unfold fill_or_finish, fill_window, refill_fuel.
  replace (Z.to_nat window_size) with O by lia. cbn [refill].
  cbn [s_window initial_sender length Z.of_nat].
  rewrite (proj2 (Z.ltb_ge _ _)) by lia. reflexivity.
Qed.

(** [sendFile] has a result on every list of receive outcomes. *)
Lemma sendFile_total (evs : list recv_event) :
  exists r, sendFile native now content window_size evs = Some r.
Proof.
  unfold sendFile.
  destruct (createSynPacket native 0 0 FLAGS_SYN _); [|eexists; reflexivity].
  destruct (synsent_loop native _ evs _) as [[st|s st|st|e st] rest];
    try (eexists; reflexivity).
  destruct (createPacket native 1 (s + 1) FLAGS_ACK []); [|eexists; reflexivity].
  destruct (established_run_total rest (initial_sender content)) as [[o rest'] Hr].
  rewrite Hr. destruct o as [st1|st1|e st1]; try (eexists; reflexivity).
  destruct (createPacket native (s_seq_num st1) 0 FLAGS_FIN []);
    [|eexists; reflexivity].
  destruct (closing_loop native _ rest' _) as [[t|t|e t] ?]; eexists; reflexivity.
Qed.
End SendFileFacts.

(** ** The receiver fed with what the sender sends *)

Lemma flag_pairs_range :
  0 <= Z.lor FLAGS_SYN FLAGS_ACK < 65536 /\
  0 <= Z.lor FLAGS_ACK FLAGS_FIN < 65536 /\
  0 <= FLAGS_SYN < 65536 /\ 0 <= FLAGS_ACK < 65536 /\ 0 <= FLAGS_FIN < 65536.
Proof. vm_compute. repeat split; discriminate. Qed.

Lemma createSynPacket_range (native : byteorder)
      (seq_num ack_num flags file_size : Z) (packet : bytes) :
  createSynPacket native seq_num ack_num flags file_size = Ok packet ->
  (0 <= seq_num < 65536 /\ 0 <= ack_num < 65536 /\ 0 <= flags < 65536) /\
  0 <= file_size < 4294967296.
Proof.
  unfold createSynPacket. intros H.
  destruct (pack_HHH native seq_num ack_num flags) as [hdr|] eqn:Eh;
    [|discriminate].
  cbn [rbind] in H.
  split.
  - apply (createPacket_range native seq_num ack_num flags [] (hdr ++ [])).
    unfold createPacket. rewrite Eh. reflexivity.
  - destruct (decide (0 <= file_size < 4294967296)) as [Hz|Hz]; [exact Hz|].
    unfold pack_I in H.
    rewrite (pack_uint_out_of_range _ 4 file_size) in H by (cbn; lia).
    discriminate.
Qed.

(** A handshake packet read by [parsePacket]: the same header, the
    file-size field as payload. *)
Lemma parsePacket_syn_packet (native : byteorder)
      (seq_num ack_num flags file_size : Z) (packet : bytes) :
  createSynPacket native seq_num ack_num flags file_size = Ok packet ->
  exists payload, parsePacket native packet = Ok (seq_num, ack_num, flags, payload).
Proof.
  intros H.
  destruct (createSynPacket_range _ _ _ _ _ _ H) as ((Hs & Ha & Hf) & Hz).
  destruct (unpack_pack_HHH native seq_num ack_num flags Hs Ha Hf)
    as (hdr & Hpack & Hlen & Hunpack).
  unfold createSynPacket in H. rewrite Hpack in H. cbn [rbind] in H.
  destruct (pack_I native file_size) as [fsz|]; [|discriminate].
  injection H as <-. exists fsz.
  unfold parsePacket, slice_to, slice_from, HEADER_SIZE.
  change (Z.to_nat 6) with 6%nat.
  rewrite take_app_length' by (symmetry; exact Hlen).
  rewrite drop_app_length' by (symmetry; exact Hlen).
  rewrite Hunpack. reflexivity.
Qed.

Section Transfer.
Variable native : byteorder.
Variable now : nat -> Z.
Variable content : bytes.

Lemma awaiting_loop_syns (syn ack : bytes) (a file_size : Z) (k : nat)
      (rest : list recv_event) (t : transcript) :
  createSynPacket native 0 0 FLAGS_SYN file_size = Ok syn ->
  createPacket native 1 a FLAGS_ACK [] = Ok ack ->
  awaiting_loop native (replicate k (Datagram syn) ++ Datagram ack :: rest) t
  = (AckArrived 1 FLAGS_ACK (t_print LineAckReceived t), rest).
Proof.
  intros Hsyn Hack.
  destruct (parsePacket_syn_packet _ _ _ _ _ _ Hsyn) as [payload Hps].
  destruct (createPacket_range native _ _ _ _ _ Hack) as (_ & Ha & _).
  destruct (parse_create_packet native 1 a FLAGS_ACK []
              ltac:(lia) Ha (proj1 (proj2 (proj2 (proj2 flag_pairs_range)))))
    as (p & Hp1 & Hpa).
  assert (p = ack) as -> by congruence.
  induction k as [|k IH]; cbn [replicate app awaiting_loop].
  - unfold awaiting_iter. rewrite Hpa. reflexivity.
  - unfold awaiting_iter at 1. rewrite Hps. cbn. exact IH.
Qed.

Lemma listening_loop_syn (syn : bytes) (file_size : Z) (rest : list recv_event) :
  createSynPacket native 0 0 FLAGS_SYN file_size = Ok syn ->
  exists st, listening_loop native (Datagram syn :: rest) empty_io = (Done st, rest).
Proof.
  intros Hsyn.
  destruct (createSynPacket_range _ _ _ _ _ _ Hsyn) as (_ & Hz).
  destruct (parse_create_syn_packet native 0 0 FLAGS_SYN file_size
              ltac:(lia) ltac:(lia)
              (proj1 (proj2 (proj2 flag_pairs_range))) Hz)
    as (p & Hp1 & Hps).
  assert (p = syn) as -> by congruence.
  destruct (parse_create_syn_packet native (0 + 1) 0 (Z.lor FLAGS_SYN FLAGS_ACK)
              file_size ltac:(lia) ltac:(lia) (proj1 flag_pairs_range) Hz)
    as (reply & Hreply & _).
  cbn [listening_loop]. unfold listening_iter. rewrite Hps.
  change (truthy (Z.land FLAGS_SYN FLAGS_SYN)) with true. cbv iota.
  rewrite Hreply. eexists. reflexivity.
Qed.

(** What [receiveFile], without discard directive, does with the
    datagrams of a complete [sendFile]: the SYN once or more, the ACK,
    a [data_trace] up to [n], and the FIN with sequence number
    [n + 1] once or more. *)
Lemma receiveFile_on_trace (syn ack fin : bytes) (data : list bytes)
      (a file_size n : Z) (k j : nat) :
  createSynPacket native 0 0 FLAGS_SYN file_size = Ok syn ->
  createPacket native 1 a FLAGS_ACK [] = Ok ack ->
  createPacket native (n + 1) 0 FLAGS_FIN [] = Ok fin ->
  data_trace native content n data ->
  (n <= 65533 ->
   exists t,
     receiveFile native now None
       (Datagram <$> (replicate (S k) syn ++ [ack] ++ data ++ replicate (S j) fin))
     = RfClosed t (take (Z.to_nat (DATA_SIZE * n)) content)) /\
  (n = 65534 ->
   exists t,
     receiveFile native now None
       (Datagram <$> (replicate (S k) syn ++ [ack] ++ data ++ replicate (S j) fin))
     = RfRaised StructError t).
Proof.
  intros Hsyn Hack Hfin Ht.
  pose proof (data_trace_bounds native content _ _ Ht) as [Hn _].
  assert (Datagram <$> (replicate (S k) syn ++ [ack] ++ data ++ replicate (S j) fin)
          = Datagram syn
              :: (replicate k (Datagram syn)
                    ++ Datagram ack
                    :: ((Datagram <$> data)
                          ++ Datagram fin :: replicate j (Datagram fin)))) as ->.
  { rewrite !fmap_app, !fmap_replicate. reflexivity. }
  unfold receiveFile.
  destruct (listening_loop_syn syn file_size
              (replicate k (Datagram syn)
                 ++ Datagram ack
                 :: ((Datagram <$> data)
                       ++ Datagram fin :: replicate j (Datagram fin))) Hsyn)
    as [st0 ->].
  rewrite (awaiting_loop_syns syn ack a file_size k _ _ Hsyn Hack).
  destruct (receive_data_trace native now content n data
              (initial_receiver None 1 FLAGS_ACK) Ht eq_refl eq_refl eq_refl)
    as (st1 & Hrun & He & Hd & Hdata).
  rewrite (receive_loop_app native now _ _ _ _ Hrun). cbn [receive_loop].
  destruct (createPacket_range native _ _ _ _ _ Hfin) as (Hn1 & _).
  destruct (parse_create_packet native (n + 1) 0 FLAGS_FIN []
              Hn1 ltac:(lia) (proj2 (proj2 (proj2 (proj2 flag_pairs_range)))))
    as (p & Hp1 & Hpf).
  assert (p = fin) as -> by congruence.
  destruct (ack_packet_ok native (n + 1) Hn1) as (ackn & Hackn & _).
  rewrite (receive_iter_parsed native now _ _ _ _ _ _ Hpf). cbv zeta.
  rewrite Hd. cbn [equals_discard].
  rewrite (accept_packet_expected native _ _ _ ackn)
    by first [exact Hackn | symmetry; exact He].
  unfold fin_check.
  cbn [r_flags r_seq_num r_with_received r_with_expected r_print r_sendto
       r_with_parsed r_tick].
  change (truthy (Z.land FLAGS_FIN FLAGS_FIN)) with true. cbv iota.
  split.
  - intros Hle.
    destruct (parse_create_packet native (n + 1 + 1) 0
                (Z.lor FLAGS_ACK FLAGS_FIN) []
                ltac:(lia) ltac:(lia) (proj1 (proj2 flag_pairs_range)))
      as (fin_ack & Hfa & _).
    rewrite Hfa. eexists. f_equal.
    cbn [r_received_data r_with_received r_with_expected r_print r_sendto
         r_with_parsed r_tick].
    rewrite (written_file_run _ (Z.to_nat (n + 1))
               (fun k => if decide (k <= n) then chunk content k else [])).
    + rewrite Z2Nat.id by lia. rewrite seqZ_snoc by lia.
      rewrite fmap_app, concat_app. cbn [fmap list_fmap concat].
      rewrite decide_False by lia. rewrite !app_nil_r.
      pose proof (concat_chunks content (Z.to_nat n)) as Hc.
      rewrite Z2Nat.id in Hc by lia. rewrite <- Hc. f_equal.
      apply list_fmap_ext. intros i m Hm.
      apply list_elem_of_lookup_2, elem_of_seqZ in Hm.
      rewrite decide_True by lia. reflexivity.
    + intros m. rewrite Z2Nat.id by lia.
      destruct (decide (m = n + 1)) as [->|Hm].
      * rewrite lookup_insert_eq. split; [lia | eauto].
      * rewrite lookup_insert_ne by congruence. rewrite Hdata.
        destruct (decide (1 <= m <= n)); split; intros H;
          try lia; try (destruct H; discriminate); eauto.
    + intros m Hm. rewrite Z2Nat.id in Hm by lia.
      destruct (decide (m = n + 1)) as [->|Hne].
      * rewrite lookup_insert_eq. rewrite decide_False by lia. reflexivity.
      * rewrite lookup_insert_ne by congruence. rewrite Hdata.
        rewrite decide_True by lia. rewrite decide_True by lia. reflexivity.
  - intros ->.
    assert (createPacket native (65534 + 1 + 1) 0 (Z.lor FLAGS_ACK FLAGS_FIN) []
            = Raise StructError) as ->.
    { unfold createPacket, pack_HHH.
      rewrite (pack_uint_out_of_range native 2 (65534 + 1 + 1)) by (cbn; lia).
      reflexivity. }
    eexists. reflexivity.
Qed.
End Transfer.

(** ** A whole run of [sendFile] *)

Section SendFileRun.
Variable native : byteorder.
Variable now : nat -> Z.
Variable window_size : Z.
Variable content : bytes.

(** The state in which the data-transfer loop prints "DATA Finished":
    the datagrams sent form a [data_trace] up to the number of chunks
    sent, and the next sequence number is the one after. *)
Lemma established_run_done_trace (evs rest : list recv_event) (st : sender) :
  established_run native now window_size evs (initial_sender content)
  = Some (Done st, rest) ->
  s_seq_num st = chunks_sent window_size content + 1 /\
  data_trace native content (chunks_sent window_size content) (s_sent st).
Proof.
  intros H. unfold chunks_sent.
  destruct (decide (1 <= window_size)) as [Hw|Hw].
  - destruct (established_run_done native now window_size content _ _ _ _
                (initial_sender_inv native content) H)
      as (Hinv & _ & [Hle|Hend]); [lia|].
    pose proof (end_of_file_seq_num native content st Hinv Hend) as Hs.
    split; [exact Hs|].
    destruct Hinv as (_ & _ & _ & _ & Ht).
    replace (chunk_count content) with (s_seq_num st - 1) by lia. exact Ht.
  - rewrite (established_run_no_window native now window_size content evs)
      in H by lia.
    injection H as <- _. split; [reflexivity|]. constructor.
Qed.

(** The datagrams of a run of [sendFile] that reaches "Connection
    Closes". *)
Lemma sendFile_closed_shape (evs : list recv_event) (t : transcript) :
  sendFile native now content window_size evs = Some (SfClosed t) ->
  exists (syn ack fin : bytes) (data : list bytes) (a : Z) (k j : nat),
    createSynPacket native 0 0 FLAGS_SYN (Z.of_nat (length content)) = Ok syn /\
    createPacket native 1 a FLAGS_ACK [] = Ok ack /\
    createPacket native (chunks_sent window_size content + 1) 0 FLAGS_FIN []
    = Ok fin /\
    data_trace native content (chunks_sent window_size content) data /\
    t_sent t = replicate (S k) syn ++ [ack] ++ data ++ replicate (S j) fin.
Proof.
  unfold sendFile. intros H.
  destruct (createSynPacket native 0 0 FLAGS_SYN (Z.of_nat (length content)))
    as [syn|] eqn:Esyn; [|discriminate].
  destruct (synsent_loop native syn evs _) as [[st1|s st1|st1|e st1] evs1] eqn:Es;
    try discriminate.
  destruct (createPacket native 1 (s + 1) FLAGS_ACK []) as [ack|] eqn:Eack;
    [|discriminate].
  destruct (established_run native now window_size evs1 (initial_sender content))
    as [[[st2|st2|e st2] evs2]|] eqn:Er; try discriminate.
  destruct (established_run_done_trace _ _ _ Er) as [Hseq Htrace].
  rewrite Hseq in H.
  destruct (createPacket native (chunks_sent window_size content + 1) 0
              FLAGS_FIN []) as [fin|] eqn:Efin; [|discriminate].
  destruct (closing_loop native fin evs2 _) as [[t3|t3|e t3] evs3] eqn:Ec;
    try discriminate.
  injection H as <-.
  destruct (synsent_loop_sent native _ _ _ _ _ Es) as [k Hk].
  destruct (closing_loop_sent native _ _ _ _ _ Ec) as [j Hj].
  cbn [synsent_state flow_state] in Hk, Hj.
  exists syn, ack, fin, (s_sent st2), (s + 1), k, j.
  repeat split; try assumption.
  cbn [t_sent t_print]. rewrite Hj.
  cbn [t_sent t_print t_sendto t_append empty_transcript]. rewrite Hk.
  cbn [io_sent io_print io_sendto empty_io app replicate].
  rewrite <- !app_assoc. reflexivity.
Qed.

(** A run of [sendFile] that reaches "Connection Closes" has sent, in
    this order: the SYN once or more, one ACK that completes the
    handshake, the data packets, and the FIN once or more.  With a
    window size of at least 1 the data packets form a [data_trace] of
    all the chunks of the file, the FIN has the sequence number after
    the last chunk, and the file has at most 65534 chunks (a run on a
    larger file does not get there).  With a window size below 1 no
    data packet is sent and the FIN has sequence number 1, whatever
    the number of chunks.  In both cases the file is shorter than 2^32
    bytes. *)
Theorem sendFile_closed_datagrams (evs : list recv_event) (t : transcript) :
  sendFile native now content window_size evs = Some (SfClosed t) ->
  Z.of_nat (length content) < 4294967296 /\
  exists (syn ack fin : bytes) (data : list bytes) (a n : Z) (k j : nat),
    (1 <= window_size -> n = chunk_count content /\ n <= 65534) /\
    (window_size < 1 -> n = 0 /\ data = []) /\
    createSynPacket native 0 0 FLAGS_SYN (Z.of_nat (length content)) = Ok syn /\
    createPacket native 1 a FLAGS_ACK [] = Ok ack /\
    createPacket native (n + 1) 0 FLAGS_FIN [] = Ok fin /\
    data_trace native content n data /\
    t_sent t = replicate (S k) syn ++ [ack] ++ data ++ replicate (S j) fin.
Proof.
  intros H.
  destruct (sendFile_closed_shape evs t H)
    as (syn & ack & fin & data & a & k & j & Hsyn & Hack & Hfin & Ht & Hsent).
  destruct (createSynPacket_range _ _ _ _ _ _ Hsyn) as (_ & Hz).
  destruct (createPacket_range native _ _ _ _ _ Hfin) as (Hn & _).
  split; [lia|].
  exists syn, ack, fin, data, a, (chunks_sent window_size content), k, j.
  unfold chunks_sent in *.
  split.
  { intros Hw. rewrite decide_True in * by exact Hw. split; [reflexivity | lia]. }
  split.
  { intros Hw. rewrite decide_False in * by lia. split; [reflexivity|].
    now apply (data_trace_zero native content). }
  auto.
Qed.

(** A file of 2^32 bytes or more is not sent: [createSynPacket] raises
    [struct.error] on the file size, before any datagram is sent or
    anything is printed. *)
Theorem sendFile_file_too_large (evs : list recv_event) :
  4294967296 <= Z.of_nat (length content) ->
  sendFile native now content window_size evs
  = Some (SfRaised StructError empty_transcript).
Proof.
  intros H. unfold sendFile, createSynPacket.
  rewrite (pack_HHH_ok native 0 0 FLAGS_SYN) by (unfold FLAGS_SYN; lia).
  cbn [rbind]. unfold pack_I.
  rewrite (pack_uint_out_of_range native 4 (Z.of_nat (length content)))
    by (cbn; lia).
  reflexivity.
Qed.
End SendFileRun.

Lemma sendFile_closed_datagrams_witness :
  Z.of_nat (length abc) < 4294967296 /\
  exists (syn ack fin : bytes) (data : list bytes) (a n : Z) (k j : nat),
    (1 <= 3 -> n = chunk_count abc /\ n <= 65534) /\
    (3 < 1 -> n = 0 /\ data = []) /\
    createSynPacket LittleEndian 0 0 FLAGS_SYN (Z.of_nat (length abc)) = Ok syn /\
    createPacket LittleEndian 1 a FLAGS_ACK [] = Ok ack /\
    createPacket LittleEndian (n + 1) 0 FLAGS_FIN [] = Ok fin /\
    data_trace LittleEndian abc n data /\
    t_sent (sendFile_transcript
              (sendFile LittleEndian counting_clock abc 3 abc_session))
    = replicate (S k) syn ++ [ack] ++ data ++ replicate (S j) fin.
Proof.
  apply (sendFile_closed_datagrams LittleEndian counting_clock 3 abc abc_session).
  vm_compute. reflexivity.
Defined.

Lemma sendFile_file_too_large_witness :
  sendFile BigEndian counting_clock (file_of_size 4294967296) 5 [Timeout]
  = Some (SfRaised StructError empty_transcript).
Proof.
  apply (sendFile_file_too_large BigEndian counting_clock 5
           (file_of_size 4294967296) [Timeout]).
  unfold file_of_size. rewrite length_replicate. lia.
Defined.


(** ** Sender and receiver together *)

Section EndToEnd.
(** The byte order and the clock of the machine of the sender, and
    those of the machine of the receiver. *)
Variable native : byteorder.
Variable now : nat -> Z.
Variable native' : byteorder.
Variable now' : nat -> Z.
Variable window_size : Z.
Variable content : bytes.

(** The file arrives, between two machines of the same byte order (the
    headers are packed in the native order of each machine).  Take any
    run of [sendFile] that reaches "Connection Closes", whatever it
    received and however often it timed out and retransmitted, for a
    file of at most 65533 chunks.  [receiveFile] without discard
    directive, given the datagrams of that run in the order they were
    sent, writes a file equal to the file sent if the window size is at
    least 1, and an empty file otherwise. *)
Theorem transfer_rebuilds_file (evs : list recv_event) (t : transcript) :
  native' = native ->
  sendFile native now content window_size evs = Some (SfClosed t) ->
  chunk_count content <= 65533 ->
  exists t',
    receiveFile native' now' None (Datagram <$> t_sent t)
    = RfClosed t' (if decide (1 <= window_size) then content else []).
Proof.
  intros -> H Hc.
  destruct (sendFile_closed_shape native now window_size content evs t H)
    as (syn & ack & fin & data & a & k & j & Hsyn & Hack & Hfin & Ht & ->).
  destruct (receiveFile_on_trace native now' content syn ack fin data a _ _ k j
              Hsyn Hack Hfin Ht) as [Hok _].
  unfold chunks_sent in Hok.
  destruct (decide (1 <= window_size)) as [Hw|Hw].
  - destruct (Hok Hc) as [t' Ht']. exists t'. rewrite Ht'. f_equal.
    apply take_chunks_all. lia.
  - destruct (Hok ltac:(lia)) as [t' Ht']. exists t'. rewrite Ht'. reflexivity.
Qed.

End EndToEnd.

Lemma transfer_rebuilds_file_witness :
  exists t',
    receiveFile LittleEndian counting_clock None
      (Datagram <$> t_sent (sendFile_transcript
                              (sendFile LittleEndian counting_clock abc 3 abc_session)))
    = RfClosed t' (if decide (1 <= 3) then abc else []).
Proof.
  apply (transfer_rebuilds_file LittleEndian counting_clock LittleEndian
           counting_clock 3 abc abc_session).
  - reflexivity.
  - vm_compute. reflexivity.
  - vm_compute. discriminate.
Defined.

(** ** The handshake of the receiver *)

Section ListeningFacts.
Variable native : byteorder.

Lemma listening_loop_result (evs : list recv_event) (st : io) :
  match (listening_loop native evs st).1 with
  | Done st' =>
      exists syn seq_num ack_num flags file_size reply,
        Datagram syn ∈ evs /\
        parseSynPacket native syn = Ok (seq_num, ack_num, flags, file_size) /\
        truthy (Z.land flags FLAGS_SYN) = true /\
        createSynPacket native (seq_num + 1) 0 (Z.lor FLAGS_SYN FLAGS_ACK) file_size
        = Ok reply /\
        io_sent st' = io_sent st ++ [reply]
  | Next st' => st' = st
  | Crash _ st' => io_sent st' = io_sent st
  end.
Proof.
  induction evs as [|ev evs IH]; [reflexivity|].
  cbn [listening_loop].
  destruct (listening_iter native ev st) as [st1|st1|e st1] eqn:E.
  - assert (st1 = st) as ->.
    { unfold listening_iter in E. destruct ev as [data| | |]; try discriminate.
      destruct (parseSynPacket native data) as [[[[? ?] flags] ?]|];
        [|discriminate].
      destruct (truthy _); [|now injection E].
      destruct (createSynPacket _ _ _ _ _); discriminate. }
    destruct (listening_loop native evs st).1 as [st'|st'|e st'].
    + exact IH.
    + destruct IH as (syn & s & a & f & z & reply & Hin & IH).
      exists syn, s, a, f, z, reply. split; [now apply list_elem_of_further|exact IH].
    + exact IH.
  - cbn [fst]. unfold listening_iter in E.
    destruct ev as [data| | |]; try discriminate.
    destruct (parseSynPacket native data) as [[[[s a] flags] z]|] eqn:Ep;
      [|discriminate].
    destruct (truthy (Z.land flags FLAGS_SYN)) eqn:Ef; [|discriminate].
    destruct (createSynPacket native (s + 1) 0 (Z.lor FLAGS_SYN FLAGS_ACK) z)
      as [reply|] eqn:Er; [|discriminate].
    injection E as <-.
    exists data, s, a, flags, z, reply.
    split; [apply list_elem_of_here|]. repeat split; assumption.
  - cbn [fst]. unfold listening_iter in E.
    destruct ev as [data| | |]; try (now injection E as _ <-).
    destruct (parseSynPacket native data) as [[[[s a] flags] z]|];
      [|now injection E as _ <-].
    destruct (truthy _); [|discriminate].
    destruct (createSynPacket _ _ _ _ _); [discriminate|].
    now injection E as _ <-.
Qed.

(** The listening loop of [receiveFile] sends one datagram at most.
    When it ends with its [break], it has received a packet with the
    SYN flag and sent exactly one reply, which decodes to the sequence
    number of that packet plus one, ack number 0, the flags SYN and
    ACK, and the file size of that packet; the packets before it got
    no reply.  When it is still waiting, or has ended with an
    exception, it has sent nothing. *)
Theorem listening_replies_once (evs : list recv_event) :
  match (listening_loop native evs empty_io).1 with
  | Done st =>
      exists syn seq_num ack_num flags file_size reply,
        Datagram syn ∈ evs /\
        parseSynPacket native syn = Ok (seq_num, ack_num, flags, file_size) /\
        truthy (Z.land flags FLAGS_SYN) = true /\
        io_sent st = [reply] /\
        parseSynPacket native reply
        = Ok (seq_num + 1, 0, Z.lor FLAGS_SYN FLAGS_ACK, file_size)
  | Next st | Crash _ st => io_sent st = []
  end.
Proof.
  pose proof (listening_loop_result evs empty_io) as H.
  destruct (listening_loop native evs empty_io).1 as [st|st|e st].
  - rewrite H. reflexivity.
  - destruct H as (syn & s & a & f & z & reply & Hin & Hp & Hf & Hr & Hs).
    exists syn, s, a, f, z, reply. repeat split; try assumption.
    destruct (createSynPacket_range _ _ _ _ _ _ Hr) as ((Hs1 & Ha1 & Hf1) & Hz).
    destruct (parse_create_syn_packet native _ _ _ _ Hs1 Ha1 Hf1 Hz)
      as (p & Hp1 & Hp2).
    congruence.
  - exact H.
Qed.
End ListeningFacts.

(** ** The last sequence number *)

Section SequenceLimit.
Variable native : byteorder.
Variable now : nat -> Z.

(** Sequence numbers end at 65535.  When [sendPacket] is called with a
    sequence number of 65536 or more that is not in the window, for a
    file that has a chunk of that number, it raises [struct.error]:
    the chunk is read, the sequence number is appended to the window,
    the clock is read, and [createPacket] then fails on the sequence
    number.  Nothing is sent and nothing is printed. *)
Theorem sendPacket_sequence_limit (seq_num : Z) (retransmit : bool) (st : sender) :
  65536 <= seq_num ->
  seq_num ∉ s_window st ->
  chunk (f_content (s_file st)) seq_num <> [] ->
  exists st',
    sendPacket native now seq_num retransmit st = (Raise StructError, st') /\
    s_window st' = s_window st ++ [seq_num] /\
    s_sent st' = s_sent st /\
    s_log st' = s_log st /\
    s_clock st' = S (s_clock st).
Proof.
  intros Hs Hnin Hne. unfold sendPacket.
  rewrite bool_decide_false by exact Hnin. cbn [negb].
  rewrite seek_read_ok by (unfold DATA_SIZE; lia).
  rewrite (proj2 (is_empty_false _) Hne).
  rewrite transmit_raise by lia.
  eexists. split; [reflexivity|]. repeat split.
Qed.
End SequenceLimit.

Lemma sendPacket_sequence_limit_witness :
  exists st',
    sendPacket BigEndian counting_clock 65536 false sender_at_65536
    = (Raise StructError, st') /\
    s_window st' = s_window sender_at_65536 ++ [65536] /\
    s_sent st' = s_sent sender_at_65536 /\
    s_log st' = s_log sender_at_65536 /\
    s_clock st' = S (s_clock sender_at_65536).
Proof.
  apply (sendPacket_sequence_limit BigEndian counting_clock 65536 false
           sender_at_65536).
  - lia.
  - apply not_elem_of_nil.
  - apply chunk_nonempty_iff; [lia|].
    unfold chunk_count, sender_at_65536, open_rb, file_of_size, DATA_SIZE.
    cbn [f_content s_file]. rewrite length_replicate, Z2Nat.id by lia.
    apply Z.div_le_lower_bound; lia.
Defined.
